(** * region-forge: geometry engine, YAML codec and import envelope

    A shallow embedding of the pure core of the region editor:
    [src/utils/polygonUtils.ts], [src/utils/villageUtils.ts], the export
    utilities (achievements, LevelledMobs rules, project import) and the
    spawn check box of [src/components/AdvancedPanel.tsx].

    JavaScript numbers are IEEE-754 binary64 values.  The geometry code is
    written once, over an interface [Number] of the arithmetic it uses, and
    is read at [JSNumber] (primitive binary64 floats, what the program runs
    on; [JSNumberWith] leaves the rounding of [Math.hypot] open) and at
    [RNumber] (exact real arithmetic, what the geometric statements of the
    specification talk about).  Block coordinates are integers: the
    statements about areas, moves and resizings are about the doubles of
    integers, on which the program's arithmetic does not round. *)

From Stdlib Require Import String Ascii DecimalString.
From Stdlib Require Import List Bool Arith ZArith Lia.
From Stdlib Require Import Floats Uint63.
From Stdlib Require Import Reals Lra Psatz.
Import ListNotations.

Set Implicit Arguments.

(** ** Outcomes of a call

    The only exception the geometry code can raise is the [TypeError] of
    reading a property of [undefined] (an array read past the end).
    [Timeout] is the model's own: a recursive function is given a budget of
    calls, and [Timeout] says the budget ran out (the totality lemmas show
    that it never does). *)

Inductive Exc (A : Type) : Type :=
| Ok (a : A)
| TypeError
| Timeout.

Arguments Ok {A} a.
Arguments TypeError {A}.
Arguments Timeout {A}.

Definition bind {A B : Type} (e : Exc A) (k : A -> Exc B) : Exc B :=
  match e with
  | Ok a => k a
  | TypeError => TypeError
  | Timeout => Timeout
  end.

Declare Scope exc_scope.
Delimit Scope exc_scope with exc.
Notation "v <- e ;; k" := (bind e (fun v => k))
  (at level 61, e at next level, right associativity) : exc_scope.
Open Scope exc_scope.

(** [a[i]] followed by a property access: [undefined] past the end. *)
Definition arr_get {A : Type} (a : list A) (i : nat) : Exc A :=
  match nth_error a i with
  | Some v => Ok v
  | None => TypeError
  end.

(** [a[i] = v]: an assignment past the end extends the array; the holes it
    leaves read as [undefined], here the falsy [hole]. *)
Fixpoint arr_set {A : Type} (hole : A) (a : list A) (i : nat) (v : A) : list A :=
  match a, i with
  | [], O => [v]
  | [], Datatypes.S j => hole :: arr_set hole [] j v
  | _ :: t, O => v :: t
  | h :: t, Datatypes.S j => h :: arr_set hole t j v
  end.

(** [a.filter((_, i) => keep(i))], the indices counted from [i]. *)
Fixpoint filter_index {A : Type} (keep : nat -> bool) (i : nat) (a : list A) : list A :=
  match a with
  | [] => []
  | h :: t =>
      if keep i then h :: filter_index keep (Datatypes.S i) t
      else filter_index keep (Datatypes.S i) t
  end.

(** [i % 2 === 0] *)
Definition even_index (i : nat) : bool := (i mod 2 =? 0)%nat.

(** [for (let i = start; i < start + count; i++) s = body(i, s)] *)
Fixpoint for_loop {S : Type} (body : nat -> S -> Exc S) (start count : nat) (s : S)
  : Exc S :=
  match count with
  | O => Ok s
  | Datatypes.S c => s' <- body start s ;; for_loop body (Datatypes.S start) c s'
  end.

(** ** The arithmetic the geometry code uses *)

Class Number (num : Type) : Type := {
  of_nat : nat -> num;            (* integer literals, [points.length] *)
  tiny : num;                     (* the literal 1e-10 *)
  nadd : num -> num -> num;
  nsub : num -> num -> num;
  nmul : num -> num -> num;
  ndiv : num -> num -> num;
  nopp : num -> num;
  nltb : num -> num -> bool;      (* a < b ; a > b is b < a *)
  nleb : num -> num -> bool;      (* a <= b ; a >= b is b <= a *)
  neqb : num -> num -> bool;      (* a === b *)
  Math_abs : num -> num;
  Math_max : num -> num -> num;
  Math_min : num -> num -> num;
  Math_hypot : num -> num -> num
}.

Declare Scope num_scope.
Delimit Scope num_scope with num.
Notation "a + b" := (nadd a b) : num_scope.
Notation "a - b" := (nsub a b) : num_scope.
Notation "a * b" := (nmul a b) : num_scope.
Notation "a / b" := (ndiv a b) : num_scope.
Notation "- a" := (nopp a) : num_scope.
Notation "a <? b" := (nltb a b) : num_scope.
Notation "a <=? b" := (nleb a b) : num_scope.
Notation "a >? b" := (nltb b a) : num_scope.
Notation "a =? b" := (neqb a b) : num_scope.

(** *** IEEE-754 binary64: the numbers of the program *)

Module JS.

Definition is_neg_zero (a : float) : bool :=
  match PrimFloat.classify a with
  | NZero => true
  | _ => false
  end.

(** [Math.max]: NaN if either argument is NaN, and [+0] above [-0]. *)
Definition max (a b : float) : float :=
  if PrimFloat.is_nan a || PrimFloat.is_nan b then PrimFloat.nan
  else if PrimFloat.ltb a b then b
  else if PrimFloat.ltb b a then a
  else if is_neg_zero a then b else a.

(** [Math.min]: NaN if either argument is NaN, and [-0] below [+0]. *)
Definition min (a b : float) : float :=
  if PrimFloat.is_nan a || PrimFloat.is_nan b then PrimFloat.nan
  else if PrimFloat.ltb a b then a
  else if PrimFloat.ltb b a then b
  else if is_neg_zero a then a else b.

(** [Math.hypot(a, b)], read as the correctly rounded operations
    [sqrt(a*a + b*b)]; engines differ from this in the last digit and
    avoid its intermediate overflow. *)
Definition hypot (a b : float) : float :=
  PrimFloat.sqrt (PrimFloat.add (PrimFloat.mul a a) (PrimFloat.mul b b)).

Definition of_nat (n : nat) : float :=
  PrimFloat.of_uint63 (Uint63.of_Z (Z.of_nat n)).

(** An integer below 2^53 in magnitude as the double of that value. *)
Definition of_Z (n : Z) : float :=
  match n with
  | Z0 => PrimFloat.zero
  | Zpos _ => PrimFloat.of_uint63 (Uint63.of_Z n)
  | Zneg m => PrimFloat.opp (PrimFloat.of_uint63 (Uint63.of_Z (Zpos m)))
  end.

Definition signed (s : bool) (m : positive) : Z := if s then Zneg m else Zpos m.

(** [Math.floor]: a double at or above 2^53 in magnitude is an integer
    already, as are the zeros, the infinities and NaN. *)
Definition floor (f : float) : float :=
  match Prim2SF f with
  | S754_finite s m e =>
      if (0 <=? e)%Z then f
      else
        let n := (signed s m / 2 ^ (- e))%Z in
        if (n =? 0)%Z then PrimFloat.zero else of_Z n
  | _ => f
  end.

(** [Math.round]: the nearest integer, a tie going up; a result of zero
    keeps the sign of the argument. *)
Definition round (f : float) : float :=
  match Prim2SF f with
  | S754_finite s m e =>
      if (0 <=? e)%Z then f
      else
        let n := ((2 * signed s m + 2 ^ (- e)) / 2 ^ (- e + 1))%Z in
        if (n =? 0)%Z then (if s then PrimFloat.neg_zero else PrimFloat.zero)
        else of_Z n
  | _ => f
  end.

(** The integer a double is, when it is one. *)
Definition int_value (f : float) : option Z :=
  match Prim2SF f with
  | S754_zero _ => Some 0%Z
  | S754_finite s m e =>
      if (0 <=? e)%Z then Some (signed s m * 2 ^ e)%Z
      else if (Zpos m mod 2 ^ (- e) =? 0)%Z then Some (signed s m / 2 ^ (- e))%Z
      else None
  | _ => None
  end.

(** [Number::toString], as a template literal applies it.  An integer
    below 2^53 in magnitude prints as its decimal digits; for the other
    finite values (a fraction, or an integer from 2^53 on) the digits are
    those of [other], the engine's shortest round-trip printer. *)
Definition toString (other : float -> string) (f : float) : string :=
  match Prim2SF f with
  | S754_nan => "NaN"%string
  | S754_infinity false => "Infinity"%string
  | S754_infinity true => "-Infinity"%string
  | _ =>
      match int_value f with
      | Some n =>
          if (Z.abs n <? 2 ^ 53)%Z then NilZero.string_of_int (Z.to_int n)
          else other f
      | None => other f
      end
  end.

End JS.

#[export] Instance JSNumber : Number float := {
  of_nat := JS.of_nat;
  tiny := 0x1.b7cdfd9d7bdbbp-34%float;
  nadd := PrimFloat.add;
  nsub := PrimFloat.sub;
  nmul := PrimFloat.mul;
  ndiv := PrimFloat.div;
  nopp := PrimFloat.opp;
  nltb := PrimFloat.ltb;
  nleb := PrimFloat.leb;
  neqb := PrimFloat.eqb;
  Math_abs := PrimFloat.abs;
  Math_max := JS.max;
  Math_min := JS.min;
  Math_hypot := JS.hypot
}.

(** *** Exact real arithmetic *)

Module Exact.

Definition ltb (a b : R) : bool := if Rlt_dec a b then true else false.
Definition leb (a b : R) : bool := if Rle_dec a b then true else false.
Definition eqb (a b : R) : bool := if Req_dec_T a b then true else false.
Definition hypot (a b : R) : R := sqrt (a * a + b * b).

End Exact.

#[export] Instance RNumber : Number R := {
  of_nat := INR;
  tiny := (/ 10000000000)%R;
  nadd := Rplus;
  nsub := Rminus;
  nmul := Rmult;
  ndiv := Rdiv;
  nopp := Ropp;
  nltb := Exact.ltb;
  nleb := Exact.leb;
  neqb := Exact.eqb;
  Math_abs := Rabs;
  Math_max := Rmax;
  Math_min := Rmin;
  Math_hypot := Exact.hypot
}.

(** ** Points *)

Record Point (num : Type) : Type := mkPoint { x : num; z : num }.

Arguments mkPoint {num} x z.
Arguments x {num} p.
Arguments z {num} p.

(** ** polygonUtils.ts: the geometry engine *)

Section Geometry.

Context {num : Type} {N : Number num}.
Local Open Scope num_scope.

Definition calculatePolygonCenter (points : list (Point num)) : Point num :=
  match points with
  | [] => mkPoint (of_nat 0) (of_nat 0)
  | [p] => mkPoint (x p) (z p)
  | _ =>
      let sumX := fold_left (fun s p => s + x p) points (of_nat 0) in
      let sumZ := fold_left (fun s p => s + z p) points (of_nat 0) in
      mkPoint (sumX / of_nat (length points)) (sumZ / of_nat (length points))
  end.

Definition resizeRegionPoints (points : list (Point num)) (centerX centerZ scaleFactor : num)
  : list (Point num) :=
  if (length points =? 0)%nat || (scaleFactor <=? of_nat 0) then points
  else
    map (fun p =>
           let offsetX := x p - centerX in
           let offsetZ := z p - centerZ in
           let scaledOffsetX := offsetX * scaleFactor in
           let scaledOffsetZ := offsetZ * scaleFactor in
           mkPoint (centerX + scaledOffsetX) (centerZ + scaledOffsetZ))
        points.

Definition doublePolygonVertices (points : list (Point num)) : Exc (list (Point num)) :=
  if (length points <? 2)%nat then Ok points
  else
    for_loop
      (fun i result =>
         a <- arr_get points i ;;
         b <- arr_get points ((i + 1) mod length points) ;;
         Ok (result ++ [a; mkPoint ((x a + x b) / of_nat 2) ((z a + z b) / of_nat 2)]))
      0 (length points) [].

Definition halvePolygonVertices (points : list (Point num)) : Exc (list (Point num)) :=
  if (length points <=? 3)%nat then Ok points
  else
    kept <- for_loop
              (fun i kept =>
                 if (i mod 2 =? 0)%nat
                 then p <- arr_get points i ;; Ok (kept ++ [p])
                 else Ok kept)
              0 (length points) [] ;;
    if (length kept <? 3)%nat then
      let needed := (3 - length kept)%nat in
      for_loop
        (fun i kept =>
           p <- arr_get points ((2 * i + 1) mod length points) ;; Ok (kept ++ [p]))
        0 needed kept
    else Ok kept.

(** [perpendicularDistance], local to [simplifyPolygonVertices]. *)
Definition perpendicularDistance (p a b : Point num) : num :=
  let dx := x b - x a in
  let dz := z b - z a in
  if (dx =? of_nat 0) && (dz =? of_nat 0) then Math_hypot (x p - x a) (z p - z a)
  else
    let t := ((x p - x a) * dx + (z p - z a) * dz) / (dx * dx + dz * dz) in
    let projX := x a + t * dx in
    let projZ := z a + t * dz in
    Math_hypot (x p - projX) (z p - projZ).

(** The loop of [rdp]: the farthest point strictly between [first] and
    [last]; [index] is [None] where the source has [-1]. *)
Definition rdp_scan (pts : list (Point num)) (first last : nat)
  : Exc (num * option nat) :=
  for_loop
    (fun i st =>
       let '(maxDist, index) := st in
       p <- arr_get pts i ;;
       a <- arr_get pts first ;;
       b <- arr_get pts last ;;
       let d := perpendicularDistance p a b in
       if d >? maxDist then Ok (d, Some i) else Ok (maxDist, index))
    (first + 1) (last - (first + 1)) (of_nat 0, None).

(** [rdp], local to [simplifyPolygonVertices]; [keep] is threaded through
    the calls, [fuel] bounds their depth. *)
Fixpoint rdp (fuel : nat) (eps : num) (pts : list (Point num)) (first last : nat)
         (keep : list bool) : Exc (list bool) :=
  match fuel with
  | O => Timeout
  | Datatypes.S fuel' =>
      st <- rdp_scan pts first last ;;
      match st with
      | (maxDist, Some index) =>
          if maxDist >? eps then
            keep' <- rdp fuel' eps pts first index (arr_set false keep index true) ;;
            rdp fuel' eps pts index last keep'
          else Ok keep
      | (_, None) => Ok keep
      end
  end.

Definition simplifyPolygonVertices (points : list (Point num)) (tolerance : num)
  : Exc (list (Point num)) :=
  if (length points <=? 3)%nat then Ok points
  else
    let eps := Math_max (of_nat 0) tolerance in
    let open := points in
    let keepFlags := repeat false (length open) in
    let keepFlags := arr_set false keepFlags 0 true in
    let keepFlags := arr_set false keepFlags (length open - 1) true in
    keepFlags <- rdp (length open) eps open 0 (length open - 1) keepFlags ;;
    let simplified := filter_index (fun i => nth i keepFlags false) 0 open in
    if (length simplified <? 3)%nat then Ok points else Ok simplified.

(** One step of the two [for (const point of points)] loops of [splitPolygon]. *)
Definition split_push (isLeft : Point num -> bool)
           (acc : list (Point num) * list (Point num)) (point : Point num) :=
  let '(leftPoints, rightPoints) := acc in
  if isLeft point then (leftPoints ++ [point], rightPoints)
  else (leftPoints, rightPoints ++ [point]).

Definition splitPolygon (points : list (Point num)) (splitPoint1 splitPoint2 : Point num)
  : list (Point num) * list (Point num) :=
  if (length points <? 3)%nat then (points, [])
  else
    let dx := x splitPoint2 - x splitPoint1 in
    let dz := z splitPoint2 - z splitPoint1 in
    if Math_abs dx <? tiny then
      let xLine := x splitPoint1 in
      fold_left (split_push (fun point => x point <=? xLine)) points ([], [])
    else
      let a := dz in
      let b := - dx in
      let c := - (a * x splitPoint1 + b * z splitPoint1) in
      let '(leftPoints, rightPoints) :=
        fold_left
          (split_push (fun point => a * x point + b * z point + c <=? of_nat 0))
          points ([], []) in
      if (length leftPoints <? 3)%nat || (length rightPoints <? 3)%nat
      then (points, [])
      else (leftPoints, rightPoints).

(** The body of the loop of [findClosestPointOnPolygonEdge]. *)
Definition closest_step (point : Point num) (polygon : list (Point num)) (i : nat)
           (st : Point num * num) : Exc (Point num * num) :=
  let '(closestPoint, minDistance) := st in
  p1 <- arr_get polygon i ;;
  p2 <- arr_get polygon ((i + 1) mod length polygon) ;;
  let dx := x p2 - x p1 in
  let dz := z p2 - z p1 in
  let lengthSq := dx * dx + dz * dz in
  if lengthSq =? of_nat 0 then
    let distance := Math_hypot (x point - x p1) (z point - z p1) in
    if distance <? minDistance then Ok (p1, distance)
    else Ok (closestPoint, minDistance)
  else
    let t := Math_max (of_nat 0)
               (Math_min (of_nat 1)
                  (((x point - x p1) * dx + (z point - z p1) * dz) / lengthSq)) in
    let closest := mkPoint (x p1 + t * dx) (z p1 + t * dz) in
    let distance := Math_hypot (x point - x closest) (z point - z closest) in
    if distance <? minDistance then Ok (closest, distance)
    else Ok (closestPoint, minDistance).

Definition findClosestPointOnPolygonEdge (point : Point num) (polygon : list (Point num))
  : Exc (Point num) :=
  p0 <- arr_get polygon 0 ;;
  let closestPoint := p0 in
  let minDistance := Math_hypot (x point - x p0) (z point - z p0) in
  st <- for_loop (closest_step point polygon) 0 (length polygon)
          (closestPoint, minDistance) ;;
  Ok (fst st).

End Geometry.

(** ** Strings *)

Module Str.

Local Open Scope string_scope.

Definition nl : string := String "010"%char EmptyString.

Fixpoint map_chars (f : ascii -> ascii) (s : string) : string :=
  match s with
  | EmptyString => EmptyString
  | String c t => String (f c) (map_chars f t)
  end.

Definition lower (c : ascii) : ascii :=
  let n := nat_of_ascii c in
  if (65 <=? n)%nat && (n <=? 90)%nat then ascii_of_nat (n + 32) else c.

(** [s.toLowerCase()] on the ASCII letters; the bytes of other
    characters are kept. *)
Definition toLowerCase (s : string) : string := map_chars lower s.

(** The ASCII members of the class [\s]. *)
Definition is_space (c : ascii) : bool :=
  let n := nat_of_ascii c in
  (n =? 32)%nat || ((9 <=? n)%nat && (n <=? 13)%nat).

Fixpoint replace_spaces_from (rep : string) (in_run : bool) (s : string) : string :=
  match s with
  | EmptyString => EmptyString
  | String c t =>
      if is_space c then
        if in_run then replace_spaces_from rep true t
        else rep ++ replace_spaces_from rep true t
      else String c (replace_spaces_from rep false t)
  end.

(** [s.replace(/\s+/g, rep)] *)
Definition replace_spaces (rep : string) (s : string) : string :=
  replace_spaces_from rep false s.

(** [s.replace(/\n/g, rep)] *)
Fixpoint replace_newlines (rep : string) (s : string) : string :=
  match s with
  | EmptyString => EmptyString
  | String c t =>
      if Ascii.eqb c "010"%char then rep ++ replace_newlines rep t
      else String c (replace_newlines rep t)
  end.

(** [s.includes(needle)] *)
Definition includes (needle s : string) : bool :=
  match String.index 0 needle s with
  | Some _ => true
  | None => false
  end.

(** [parts.join(sep)] *)
Definition join (sep : string) (parts : list string) : string :=
  String.concat sep parts.

Definition of_nat (n : nat) : string := NilZero.string_of_uint (Nat.to_uint n).

End Str.

(** ** The data model *)

(** Modelled from the spec: [src/types.ts] is not among the sources; the
    levels are the ordered enumeration of section 3 of the specification,
    the strings that [getChallengeLevelColor] switches on. *)
Inductive ChallengeLevel : Type := Vanilla | Bronze | Silver | Gold | Platinum.

(** ['overworld' | 'nether'], and ['large' | 'small' | 'chat']. *)
Inductive WorldType : Type := overworld | nether.

Inductive GreetingSize : Type := large | small | chat.

Module Subregion.
(** Modelled from the spec: [src/types.ts] is not among the sources; the
    fields are those of section 3 of the specification, as
    [createVillageSubregion] fills them. *)
Record t : Type := mk {
  id : string;
  name : string;
  x : float;
  z : float;
  radius : float;
  type : string;
  details : string;
  parentRegionId : option string
}.
End Subregion.

Module Region.
(** Modelled from the spec: [src/types.ts] is not among the sources; the
    fields are those of section 3 of the specification, the optional ones
    ([centerPoint], [challengeLevel], [hasSpawn], [subregions]) absent or
    present as the code tests them. *)
Record t : Type := mk {
  id : string;
  name : string;
  points : list (Point float);
  centerPoint : option (Point float);
  challengeLevel : option ChallengeLevel;
  hasSpawn : option bool;
  subregions : option (list Subregion.t)
}.
End Region.

(** [challengeLevel] as the string it is. *)
Definition ChallengeLevel_string (c : ChallengeLevel) : string :=
  match c with
  | Vanilla => "Vanilla"
  | Bronze => "Bronze"
  | Silver => "Silver"
  | Gold => "Gold"
  | Platinum => "Platinum"
  end.

Definition calculateRegionCenter (region : Region.t) : Point float :=
  match Region.centerPoint region with
  | Some c => c
  | None => calculatePolygonCenter (Region.points region)
  end.

(** ** The WorldGuard regions export: [generateRegionYAML]
    (polygonUtils.ts) and [generateSubregionYAML] (villageUtils.ts) *)

Section RegionYAML.

Local Open Scope string_scope.
Import Str.

(** The engine's printer of the doubles that are not small integers
    (see [JS.toString]). *)
Variable toString_other : float -> string.

(** A number in a template literal. *)
Definition num (f : float) : string := JS.toString toString_other f.

Definition getChallengeLevelColor (challengeLevel : ChallengeLevel) : string :=
  match challengeLevel with
  | Vanilla => "§aA safe haven from stronger mobs"
  | Bronze => "§eMobs here are a little bit stronger"
  | Silver => "§6Mobs put up a decent fight here"
  | Gold => "§cMobs here hit hard — be ready"
  | Platinum => "§4Mobs here are extremely dangerous"
  end.

Definition is_large (greetingSize : GreetingSize) : bool :=
  match greetingSize with
  | large => true
  | _ => false
  end.

Definition is_nether (worldType : option WorldType) : bool :=
  match worldType with
  | Some nether => true
  | _ => false
  end.

Definition generateSubregionYAML (subregion : Subregion.t) (parentRegionName : string)
           (_worldType : option WorldType)
           (useModernWorldHeight useGreetingsAndFarewells : bool)
           (greetingSize : GreetingSize) : string :=
  let subregionName := replace_spaces "_" (toLowerCase (Subregion.name subregion)) in
  let parentRegionNameForYAML := replace_spaces "_" (toLowerCase parentRegionName) in
  let greetingText := "Welcome to" in
  let minY := (if useModernWorldHeight then -64 else 0)%float in
  let maxY := (if useModernWorldHeight then 320 else 255)%float in
  let flags :=
    if useGreetingsAndFarewells then
      let '(greetingLine1, greetingLine2, farewellLine1, farewellLine2) :=
        if is_large greetingSize then
          ("§f" ++ greetingText ++ " " ++ Subregion.name subregion ++ " village",
           "§f",
           "§fLeaving " ++ Subregion.name subregion ++ " village",
           "§f")
        else
          ("§f",
           "§f" ++ greetingText ++ " " ++ Subregion.name subregion ++ " village",
           "§f",
           "§fLeaving " ++ Subregion.name subregion ++ " village") in
      "      greeting-title: |-" ++ nl ++ "        " ++ greetingLine1 ++ nl
        ++ "        " ++ greetingLine2 ++ nl
        ++ "      farewell-title: |-" ++ nl ++ "        " ++ farewellLine1 ++ nl
        ++ "        " ++ farewellLine2 ++ nl
        ++ "      passthrough: allow"
    else "{passthrough: allow}" in
  "  " ++ subregionName ++ ":" ++ nl
    ++ "    type: cuboid" ++ nl
    ++ "    min-y: " ++ num minY ++ nl
    ++ "    max-y: " ++ num maxY ++ nl
    ++ "    priority: 10" ++ nl
    ++ "    parent: " ++ parentRegionNameForYAML ++ nl
    ++ "    "
    ++ (if useGreetingsAndFarewells then "flags:" ++ nl ++ flags else "flags: " ++ flags)
    ++ nl
    ++ "    min: {x: " ++ num (Subregion.x subregion - Subregion.radius subregion)%float
    ++ ", y: " ++ num minY
    ++ ", z: " ++ num (Subregion.z subregion - Subregion.radius subregion)%float ++ "}" ++ nl
    ++ "    max: {x: " ++ num (Subregion.x subregion + Subregion.radius subregion)%float
    ++ ", y: " ++ num maxY
    ++ ", z: " ++ num (Subregion.z subregion + Subregion.radius subregion)%float ++ "}".

(** [randomMobs] is what the call [generateRandomMobList()] returns: one
    to eight names drawn with [Math.random] from [MOB_LIST]. *)
Definition generateRegionYAML (region : Region.t)
           (includeVillages randomMobSpawn includeHeartRegions : bool)
           (worldType : option WorldType)
           (useModernWorldHeight useGreetingsAndFarewells : bool)
           (greetingSize : GreetingSize) (includeChallengeLevelSubheading : bool)
           (randomMobs : list string) : string :=
  let name := Region.name region in
  let points :=
    join nl
      (map
         (fun point =>
            "      - {x: " ++ num (JS.round (x point))
              ++ ", z: " ++ num (JS.round (z point)) ++ "}")
         (Region.points region)) in
  let isMainRegion :=
    negb (includes "spawn" (toLowerCase name))
    && negb (includes "heart" (toLowerCase name))
    && negb (includes "village" (toLowerCase name)) in
  let greetingText := if is_nether worldType then "You descend into" else "Welcome to" in
  let multiline :=
    useGreetingsAndFarewells && isMainRegion
    && match Region.challengeLevel region with Some _ => true | None => false end in
  let flags :=
    if useGreetingsAndFarewells then
      match Region.challengeLevel region with
      | Some level =>
          if isMainRegion then
            let challengeColor :=
              if includeChallengeLevelSubheading && is_large greetingSize
              then getChallengeLevelColor level
              else "§f" in
            let '(greetingLine1, greetingLine2, farewellLine1, farewellLine2) :=
              if is_large greetingSize then
                ("§f" ++ greetingText ++ " " ++ name, challengeColor,
                 "§fLeaving " ++ name, "§f")
              else
                ("§f", "§f" ++ greetingText ++ " " ++ name,
                 "§f", "§fLeaving " ++ name) in
            let body :=
              "    greeting-title: |-" ++ nl ++ "      " ++ greetingLine1 ++ nl
                ++ "      " ++ greetingLine2 ++ nl
                ++ "    farewell-title: |-" ++ nl ++ "      " ++ farewellLine1 ++ nl
                ++ "      " ++ farewellLine2 ++ nl
                ++ "    passthrough: allow" in
            if randomMobSpawn
            then body ++ nl ++ "    deny-spawn: [" ++ join "," randomMobs ++ "]"
            else body
          else
            if randomMobSpawn then
              "{greeting-title: " ++ greetingText ++ " " ++ name
                ++ ", farewell-title: Leaving " ++ name
                ++ "., passthrough: allow, deny-spawn: [" ++ join "," randomMobs ++ "]}"
            else
              "{greeting-title: " ++ greetingText ++ " " ++ name
                ++ ", farewell-title: Leaving " ++ name ++ "., passthrough: allow}"
      | None =>
          if randomMobSpawn then
            "{greeting-title: " ++ greetingText ++ " " ++ name
              ++ ", farewell-title: Leaving " ++ name
              ++ "., passthrough: allow, deny-spawn: [" ++ join "," randomMobs ++ "]}"
          else
            "{greeting-title: " ++ greetingText ++ " " ++ name
              ++ ", farewell-title: Leaving " ++ name ++ "., passthrough: allow}"
      end
    else
      if randomMobSpawn
      then "{passthrough: allow, deny-spawn: [" ++ join "," randomMobs ++ "]}"
      else "{passthrough: allow}" in
  let regionNameForYAML := replace_spaces "_" (toLowerCase name) in
  let minY := (if useModernWorldHeight then -64 else 0)%float in
  let maxY := (if useModernWorldHeight then 320 else 255)%float in
  let yaml :=
    "  " ++ regionNameForYAML ++ ":" ++ nl
      ++ "    type: poly2d" ++ nl
      ++ "    min-y: " ++ num minY ++ nl
      ++ "    max-y: " ++ num maxY ++ nl
      ++ "    priority: 0" ++ nl
      ++ "    flags:" ++ nl
      ++ (if multiline then "  " ++ replace_newlines (nl ++ "  ") flags
          else "      " ++ flags) ++ nl
      ++ "    points:" ++ nl
      ++ points in
  let yaml :=
    if includeHeartRegions then
      let regionCenter := calculateRegionCenter region in
      let heartRegionName := "heart_of_" ++ replace_spaces "_" (toLowerCase name) in
      let heartSize := 7%float in
      let half := JS.floor (heartSize / 2)%float in
      let heartFlags :=
        if useGreetingsAndFarewells
        then "{greeting-title: Heart of " ++ name
               ++ ", build: deny, interact: allow, creeper-explosion: deny, other-explosion: deny, tnt: deny}"
        else "{build: deny, interact: allow, creeper-explosion: deny, other-explosion: deny, tnt: deny}" in
      yaml ++ nl ++ nl ++ "  " ++ heartRegionName ++ ":" ++ nl
        ++ "    type: cuboid" ++ nl
        ++ "    min: {x: " ++ num (JS.round (x regionCenter - half)%float)
        ++ ", y: " ++ num minY
        ++ ", z: " ++ num (JS.round (z regionCenter - half)%float) ++ "}" ++ nl
        ++ "    max: {x: " ++ num (JS.round (x regionCenter + half)%float)
        ++ ", y: " ++ num maxY
        ++ ", z: " ++ num (JS.round (z regionCenter + half)%float) ++ "}" ++ nl
        ++ "    members: {}" ++ nl
        ++ "    owners: {}" ++ nl
        ++ "    flags: " ++ heartFlags ++ nl
        ++ "    priority: 10"
    else yaml in
  match Region.subregions region with
  | Some ((_ :: _) as subregions) =>
      if includeVillages then
        yaml ++ nl ++ nl
          ++ join (nl ++ nl)
               (map
                  (fun subregion =>
                     generateSubregionYAML subregion name worldType
                       useModernWorldHeight useGreetingsAndFarewells greetingSize)
                  subregions)
      else yaml
  | _ => yaml
  end.

End RegionYAML.

(** ** The plugin exports of the export utilities

    An export offers a file for download and reports through the
    notification callback [onShowToast]. *)

Inductive Severity : Type := success | error | warning | info.

Record Export : Type := mkExport {
  download : option (string * string);      (* file name, content *)
  toast : option (string * Severity)
}.

(** *** [generateAchievementsYAML] *)

Record Achievement : Type := mkAchievement {
  achievementKey : string;
  Goal : string;
  Message : string;
  Name : string;
  DisplayName : string;
  Type_ : string
}.

Module Achievements.

Local Open Scope string_scope.
Import Str.

(** The six lines one entry appends to [yamlContent]. *)
Definition render (a : Achievement) : string :=
  "  " ++ achievementKey a ++ ":" ++ nl
    ++ "    Goal: " ++ Goal a ++ nl
    ++ "    Message: " ++ Message a ++ nl
    ++ "    Name: " ++ Name a ++ nl
    ++ "    DisplayName: " ++ DisplayName a ++ nl
    ++ "    Type: " ++ Type_ a ++ nl.

(** The state of the loops: the entries appended to [yamlContent] so far,
    and [achievementCount]. *)
Definition state : Type := (list Achievement * nat)%type.

Definition emit (a : Achievement) (st : state) : state :=
  ((fst st ++ [a])%list, Datatypes.S (snd st)).

Definition village_step (st : state) (subregion : Subregion.t) : state :=
  if String.eqb (Subregion.type subregion) "village" then
    let villageKey := replace_spaces "" (Subregion.name subregion) in
    emit (mkAchievement
            ("discover" ++ villageKey)
            ("Discover " ++ Subregion.name subregion ++ " Village")
            ("You discovered the village of " ++ Subregion.name subregion)
            ("discover_" ++ replace_spaces "_" (toLowerCase (Subregion.name subregion)))
            "Village Discovery"
            "normal") st
  else st.

Definition region_step (worldType : option WorldType) (st : state) (region : Region.t)
  : state :=
  let name := Region.name region in
  let regionKey := replace_spaces "" name in
  let slug := replace_spaces "_" (toLowerCase name) in
  let isNether := match worldType with Some nether => true | _ => false end in
  let regionMessage :=
    if isNether then "You discovered the nether region of " ++ name
    else "You discovered the region of " ++ name in
  let regionDisplayName :=
    if isNether then "Nether Region Discovery" else "Region Discovery" in
  let st := emit (mkAchievement
                    ("discover" ++ regionKey)
                    ("Discover " ++ name ++ " Region")
                    regionMessage
                    ("discover_" ++ slug)
                    regionDisplayName
                    "normal") st in
  let heartMessage :=
    if isNether then "You discovered the nether " ++ slug
    else "You discovered the Heart of " ++ name in
  let heartDisplayName :=
    if isNether then "Nether Heart Discovery" else "Heart Discovery" in
  let st := emit (mkAchievement
                    ("discoverHeartOf" ++ regionKey)
                    ("Discover the Heart of " ++ name)
                    heartMessage
                    ("discover_heart_of_" ++ slug)
                    heartDisplayName
                    "normal") st in
  match Region.subregions region with
  | Some ((_ :: _) as subregions) => fold_left village_step subregions st
  | _ => st
  end.

Definition run (regions : list Region.t) (worldType : option WorldType) : state :=
  fold_left (region_step worldType) regions ([], 0).

End Achievements.

Definition generateAchievementsYAML (regions : list Region.t) (worldType : option WorldType)
  : Export :=
  if (length regions =? 0)%nat then
    mkExport None (Some ("No regions to generate achievements for"%string, error))
  else
    let '(entries, achievementCount) := Achievements.run regions worldType in
    let yamlContent :=
      ("Commands:" ++ Str.nl ++ String.concat "" (map Achievements.render entries))%string in
    mkExport (Some ("achievements.yml"%string, yamlContent))
             (Some (("Generated " ++ Str.of_nat achievementCount ++ " achievements")%string,
                    success)).

(** *** [generateLevelledMobsRulesYAML] *)

Inductive RuleRegions : Type :=
| OneRegion (key : string)             (* worldguard-regions: 'key' *)
| RegionList (keys : list string).     (* worldguard-regions: followed by a sequence *)

Record Rule : Type := mkRule {
  comment : option string;             (* the comment line above the rule *)
  custom_rule : string;
  use_preset : string;
  worldguard_regions : RuleRegions
}.

Module LevelledMobs.

Local Open Scope string_scope.
Import Str.

Definition render (r : Rule) : string :=
  (match comment r with Some c => "# " ++ c ++ nl | None => "" end)
    ++ "- custom-rule: '" ++ custom_rule r ++ "'" ++ nl
    ++ "  is-enabled: true" ++ nl
    ++ "  use-preset: " ++ use_preset r ++ nl
    ++ "  conditions:" ++ nl
    ++ "    worlds: 'world'" ++ nl
    ++ match worldguard_regions r with
       | OneRegion key => "    worldguard-regions: '" ++ key ++ "'" ++ nl ++ nl
       | RegionList keys =>
           "    worldguard-regions:" ++ nl
             ++ String.concat "" (map (fun key => "      - '" ++ key ++ "'" ++ nl) keys)
             ++ nl
       end.

(** The rules appended to [yamlContent] so far, and [ruleCount]. *)
Definition state : Type := (list Rule * nat)%type.

Definition emit (r : Rule) (st : state) : state :=
  ((fst st ++ [r])%list, Datatypes.S (snd st)).

(** 1. The spawn rule, 2. the heart rule, 3. the village rule. *)
Definition fixed_rules (regions : list Region.t) (hasSpawnCoordinates : bool) : state :=
  let st : state := ([], 0) in
  let st :=
    if hasSpawnCoordinates then
      emit (mkRule (Some "Spawn region rule") "Disable Leveling in Spawn Region"
              "challenge-vanilla" (OneRegion "spawn")) st
    else st in
  let heartRegions :=
    map (fun region =>
           "heart_of_" ++ replace_spaces "_" (toLowerCase (Region.name region)))
        regions in
  let st :=
    if (0 <? length heartRegions)%nat then
      emit (mkRule (Some "Heart regions rule") "Disable Leveling in Heart Regions"
              "challenge-vanilla" (RegionList heartRegions)) st
    else st in
  let villageRegions :=
    fold_left
      (fun villageRegions region =>
         match Region.subregions region with
         | Some subregions =>
             fold_left
               (fun villageRegions subregion =>
                  if String.eqb (Subregion.type subregion) "village"
                  then (villageRegions
                          ++ [replace_spaces "_" (toLowerCase (Subregion.name subregion))])%list
                  else villageRegions)
               subregions villageRegions
         | None => villageRegions
         end)
      regions [] in
  if (0 <? length villageRegions)%nat then
    emit (mkRule (Some "Village regions rule") "Disable Leveling in Village Regions"
            "challenge-vanilla" (RegionList villageRegions)) st
  else st.

(** 4. One step of the loop over the regions: [if (region.challengeLevel)]. *)
Definition challenge_step (st : state) (region : Region.t) : state :=
  match Region.challengeLevel region with
  | Some challengeLevel =>
      let presetName := "challenge-" ++ toLowerCase (ChallengeLevel_string challengeLevel) in
      let regionName := replace_spaces "_" (toLowerCase (Region.name region)) in
      emit (mkRule None
              (Region.name region ++ " - " ++ ChallengeLevel_string challengeLevel
                 ++ " Challenge")
              presetName (OneRegion regionName)) st
  | None => st
  end.

(** The challenge-preset rules, and [ruleCount] after them, from the
    count [n] the first three rules left. *)
Definition challenge_rules (regions : list Region.t) (n : nat) : state :=
  fold_left challenge_step regions ([], n).

End LevelledMobs.

(** [now] is [new Date().toISOString()]; of [spawnCoordinates] the code
    only tests the presence. *)
Definition generateLevelledMobsRulesYAML (regions : list Region.t) (worldName : string)
           (hasSpawnCoordinates : bool) (worldType : option WorldType) (now : string)
  : Export :=
  if (length regions =? 0)%nat && negb hasSpawnCoordinates then
    mkExport None
      (Some ("No regions or spawn to generate LevelledMobs rules for"%string, error))
  else
    let '(fixed, n) := LevelledMobs.fixed_rules regions hasSpawnCoordinates in
    let '(presets, ruleCount) := LevelledMobs.challenge_rules regions n in
    let yamlContent :=
      ("# LevelledMobs Rules Configuration" ++ Str.nl
         ++ "# Generated for world: " ++ worldName ++ Str.nl
         ++ "# Generated on: " ++ now ++ Str.nl ++ Str.nl
         ++ String.concat "" (map LevelledMobs.render fixed)
         ++ "# Region-specific challenge presets" ++ Str.nl
         ++ String.concat "" (map LevelledMobs.render presets))%string in
    mkExport (Some ((worldName ++ "-rules.yml")%string, yamlContent))
             (Some (("Generated " ++ Str.of_nat ruleCount ++ " LevelledMobs rules")%string,
                    success)).

(** ** The project import: [importMapData] and [validateImportData] *)

(** What [JSON.parse] returns. *)
#[warnings="-register-all"]
Inductive json : Type :=
| JNull
| JBool (b : bool)
| JNumber (n : float)
| JString (s : string)
| JArray (items : list json)
| JObject (fields : list (string * json)).

Module Json.

Fixpoint lookup (key : string) (fields : list (string * json)) : option json :=
  match fields with
  | [] => None
  | (k, v) :: rest => if String.eqb k key then Some v else lookup key rest
  end.

(** [data.key] for one of the keys the import reads (none of them is a
    property of a string, a number, a boolean or an array): [None] is
    [undefined], and reading a property of [null] throws. *)
Definition get (data : json) (key : string) : Exc (option json) :=
  match data with
  | JNull => TypeError
  | JObject fields => Ok (lookup key fields)
  | _ => Ok None
  end.

(** [!!v] *)
Definition truthy (v : option json) : bool :=
  match v with
  | None => false
  | Some JNull => false
  | Some (JBool b) => b
  | Some (JNumber n) => negb (PrimFloat.eqb n 0 || PrimFloat.is_nan n)
  | Some (JString s) => negb (String.eqb s "")
  | Some (JArray _) => true
  | Some (JObject _) => true
  end.

Fixpoint assign (key : string) (v : json) (fields : list (string * json))
  : list (string * json) :=
  match fields with
  | [] => [(key, v)]
  | (k, w) :: rest =>
      if String.eqb k key then (k, v) :: rest else (k, w) :: assign key v rest
  end.

(** [data.key = v]; an assignment to a property of a primitive is
    dropped. *)
Definition set (data : json) (key : string) (v : json) : Exc json :=
  match data with
  | JNull => TypeError
  | JObject fields => Ok (JObject (assign key v fields))
  | _ => Ok data
  end.

(** [typeof v] *)
Definition typeof (v : option json) : string :=
  match v with
  | None => "undefined"
  | Some JNull => "object"
  | Some (JBool _) => "boolean"
  | Some (JNumber _) => "number"
  | Some (JString _) => "string"
  | Some (JArray _) => "object"
  | Some (JObject _) => "object"
  end.

Definition isArray (v : option json) : bool :=
  match v with
  | Some (JArray _) => true
  | _ => false
  end.

Definition is_null (v : option json) : bool :=
  match v with
  | Some JNull => true
  | _ => false
  end.

(** [data.key] inside a chain of [&&] that has already checked that
    [data] is an object. *)
Definition field (data : json) (key : string) : option json :=
  match data with
  | JObject fields => lookup key fields
  | _ => None
  end.

End Json.

(** How the promise of [importMapData] settles. *)
Inductive Settled : Type :=
| Resolved (data : json)
| Rejected (message : string).

(** What the [FileReader] reports. *)
Inductive FileRead : Type :=
| Loaded (content : string)      (* [onload], with the text of the file *)
| ReadError.                     (* [onerror] *)

(** The body of the [try] once [JSON.parse] has returned [data]. *)
Definition importMapData_checks (data : json) : Exc (option json) :=
  version <- Json.get data "version" ;;
  regions <- Json.get data "regions" ;;
  mapState <- Json.get data "mapState" ;;
  if negb (Json.truthy version) || negb (Json.truthy regions) || negb (Json.truthy mapState)
  then Ok None                                   (* throw new Error('Invalid file format') *)
  else
    worldName <- Json.get data "worldName" ;;
    if negb (Json.truthy worldName) then
      data' <- Json.set data "worldName" (JString "world") ;;
      Ok (Some data')
    else Ok (Some data).

(** [importMapData] on a document already parsed: whatever is thrown inside
    the [try] is caught, and the promise is rejected with one message. *)
Definition importMapData_parsed (data : json) : Settled :=
  match importMapData_checks data with
  | Ok (Some data') => Resolved data'
  | _ => Rejected "Failed to parse import file"
  end.

Section ImportEnvelope.

(** [JSON.parse]: [None] when it throws a [SyntaxError]. *)
Variable JSON_parse : string -> option json.

Definition importMapData (file : FileRead) : Settled :=
  match file with
  | ReadError => Rejected "Failed to read import file"
  | Loaded content =>
      match JSON_parse content with
      | None => Rejected "Failed to parse import file"
      | Some data => importMapData_parsed data
      end
  end.

End ImportEnvelope.

Definition validateImportData (data : json) : bool :=
  String.eqb (Json.typeof (Some data)) "object"
  && negb (Json.is_null (Some data))
  && String.eqb (Json.typeof (Json.field data "version")) "string"
  && Json.isArray (Json.field data "regions")
  && String.eqb (Json.typeof (Json.field data "mapState")) "object"
  && negb (Json.is_null (Json.field data "mapState"))
  && String.eqb (Json.typeof (Json.field data "exportDate")) "string".

(** ** The spawn check box of AdvancedPanel.tsx *)

Definition truthy (b : option bool) : bool :=
  match b with
  | Some true => true
  | _ => false
  end.

(** The update [{ hasSpawn: v }]. *)
Definition set_hasSpawn (v : bool) (region : Region.t) : Region.t :=
  Region.mk (Region.id region) (Region.name region) (Region.points region)
    (Region.centerPoint region) (Region.challengeLevel region) (Some v)
    (Region.subregions region).

(** Modelled from the spec: [updateRegion(id, updates)] belongs to the
    regions store, which is not among the sources; section 3 of the
    specification has regions "mutated by field edits" and identified by a
    unique [id], so the call merges [updates] into the region that has the
    given id and leaves the others as they are. *)
Definition updateRegion (id : string) (updates : Region.t -> Region.t)
           (regions : list Region.t) : list Region.t :=
  map (fun region => if String.eqb (Region.id region) id then updates region else region)
      regions.

(** The [onChange] handler of the "Has Spawn" check box: [regions] is the
    collection the component was rendered with (the one [forEach] walks),
    and the calls of [updateRegion] act on the store one after the other. *)
Definition onChangeHasSpawn (checked : bool) (selectedRegionId : string)
           (regions : list Region.t) : list Region.t :=
  let regionId := selectedRegionId in
  let store :=
    if checked then
      fold_left
        (fun store region =>
           if negb (String.eqb (Region.id region) regionId) && truthy (Region.hasSpawn region)
           then updateRegion (Region.id region) (set_hasSpawn false) store
           else store)
        regions regions
    else regions in
  updateRegion regionId (set_hasSpawn checked) store.

(** ** Notions the statements use *)

(** The flags of [a] are among those of [b]. *)
Definition flags_le (a b : list bool) : Prop :=
  forall i, nth i a false = true -> nth i b false = true.

(** The order of the tolerances that [simplifyPolygonVertices] relies on:
    a distance above the clamped larger tolerance is above the clamped
    smaller one. *)
Class ToleranceOrder (num : Type) {N : Number num} : Prop :=
  tolerance_order :
    forall t1 t2 d : num,
      nleb t1 t2 = true ->
      nltb (Math_max (of_nat 0) t2) d = true ->
      nltb (Math_max (of_nat 0) t1) d = true.

Arguments ToleranceOrder num {N}.

(** [<] is a strict order: it is what keeping a minimum relies on. *)
Class StrictLess (num : Type) {N : Number num} : Prop := {
  nltb_irrefl : forall a : num, nltb a a = false;
  nltb_trans : forall a b c : num, nltb a b = true -> nltb b c = true -> nltb a c = true
}.

Arguments StrictLess num {N}.

Section Candidates.

Context {num : Type} {N : Number num}.

(** The distance [findClosestPointOnPolygonEdge] computes from [point] to
    a point [q]. *)
Definition dist_to (point q : Point num) : num :=
  Math_hypot (nsub (x point) (x q)) (nsub (z point) (z q)).

(** The point of the edge from [p1] to [p2] that the loop of
    [findClosestPointOnPolygonEdge] compares with the closest one so far:
    [p1] on an edge of length zero, the clamped projection otherwise. *)
Definition edge_closest (point p1 p2 : Point num) : Point num :=
  let dx := nsub (x p2) (x p1) in
  let dz := nsub (z p2) (z p1) in
  let lengthSq := nadd (nmul dx dx) (nmul dz dz) in
  if neqb lengthSq (of_nat 0) then p1
  else
    let t := Math_max (of_nat 0)
               (Math_min (of_nat 1)
                  (ndiv (nadd (nmul (nsub (x point) (x p1)) dx)
                              (nmul (nsub (z point) (z p1)) dz))
                        lengthSq)) in
    mkPoint (nadd (x p1) (nmul t dx)) (nadd (z p1) (nmul t dz)).

(** [p1] and [p2] are the ends of the edge that leaves vertex [i]. *)
Definition edge (polygon : list (Point num)) (i : nat) (p1 p2 : Point num) : Prop :=
  nth_error polygon i = Some p1
  /\ nth_error polygon ((i + 1) mod length polygon) = Some p2.

End Candidates.

(** The distance of two points of the plane. *)
Definition distance (a b : Point R) : R := Exact.hypot (x a - x b) (z a - z b).

(** [q] lies on the edge that leaves vertex [i] of the polygon: the segment
    from that vertex to the next one, the last edge closing the polygon. *)
Definition on_edge_at (polygon : list (Point R)) (i : nat) (q : Point R) : Prop :=
  exists p1 p2 t,
    nth_error polygon i = Some p1
    /\ nth_error polygon ((i + 1) mod length polygon) = Some p2
    /\ (0 <= t <= 1)%R
    /\ q = mkPoint (x p1 + t * (x p2 - x p1))%R (z p1 + t * (z p2 - z p1))%R.

(** [q] lies on the boundary of the polygon. *)
Definition on_edge (polygon : list (Point R)) (q : Point R) : Prop :=
  exists i, on_edge_at polygon i q.

(** The region a stored region becomes once the loop of the check box has
    walked [seen]: it is cleared when one of the regions walked has its id,
    is not the selected one and had the spawn. *)
Definition cleared (regionId : string) (seen : list Region.t) (region : Region.t) : Region.t :=
  if existsb
       (fun r => String.eqb (Region.id r) (Region.id region)
                 && (negb (String.eqb (Region.id r) regionId)
                     && truthy (Region.hasSpawn r)))
       seen
  then set_hasSpawn false region
  else region.

(** [region.hasSpawn] is truthy. *)
Definition has_spawn (region : Region.t) : bool := truthy (Region.hasSpawn region).

(** ** Sample data *)

(** The square [(0,0), (10,0), (10,10), (0,10)]. *)
Definition square : list (Point float) :=
  [mkPoint 0 0; mkPoint 10 0; mkPoint 10 10; mkPoint 0 10]%float.

(** The polygon [(0,0), (1,5), (2,0), (3,0)]. *)
Definition spike : list (Point float) :=
  [mkPoint 0 0; mkPoint 1 5; mkPoint 2 0; mkPoint 3 0]%float.

(** The region of section 8, property 7, of the specification. *)
Definition TestVale (id : string) (challengeLevel : option ChallengeLevel)
           (hasSpawn : option bool) : Region.t :=
  Region.mk id "Test Vale" square None challengeLevel hasSpawn None.

(** Two regions, the first with one village. *)
Definition Oakham : Subregion.t :=
  Subregion.mk "village_0" "Oakham" 50 50 64 "village" "foo" (Some "a")%string.

Definition twoRegions : list Region.t :=
  [Region.mk "a" "North Vale" square None (Some Bronze) (Some true) (Some [Oakham]);
   Region.mk "b" "South Vale" square None None None None]%string.

(** A document with the three fields the import tests, [regions] and
    [mapState] not of the types the exporter writes, and no [exportDate]. *)
Definition looseDocument : json :=
  JObject [("version", JString "1.0.0"); ("regions", JString "none");
           ("mapState", JNumber 1)]%string.

(** [subregion.type === 'village'] *)
Definition is_village (subregion : Subregion.t) : bool :=
  String.eqb (Subregion.type subregion) "village".

(** The village subregions one region has. *)
Definition villages (region : Region.t) : list Subregion.t :=
  match Region.subregions region with
  | Some subregions => filter is_village subregions
  | None => []
  end.

(** ** polygonUtils.ts: containment, area, translation, warp *)

Section MoreGeometry.

Context {num : Type} {N : Number num}.
Local Open Scope num_scope.

(** One turn of [for (let i = 0, j = polygon.length - 1; i < polygon.length; j = i++)]:
    the state is [inside] and [j]. *)
Definition inside_step (point : Point num) (polygon : list (Point num)) (i : nat)
           (st : bool * nat) : Exc (bool * nat) :=
  let '(inside, j) := st in
  pi <- arr_get polygon i ;;
  pj <- arr_get polygon j ;;
  if xorb (z pi >? z point) (z pj >? z point)
     && (x point <? (x pj - x pi) * (z point - z pi) / (z pj - z pi) + x pi)
  then Ok (negb inside, i)
  else Ok (inside, i).

Definition isPointInPolygon (point : Point num) (polygon : list (Point num)) : Exc bool :=
  st <- for_loop (inside_step point polygon) 0 (length polygon)
          (false, (length polygon - 1)%nat) ;;
  Ok (fst st).

(** One turn of the loop of [calculatePolygonArea]. *)
Definition area_step (points : list (Point num)) (i : nat) (area : num) : Exc num :=
  let j := ((i + 1) mod length points)%nat in
  pi <- arr_get points i ;;
  pj <- arr_get points j ;;
  let area := area + x pi * z pj in
  let area := area - x pj * z pi in
  Ok area.

Definition calculatePolygonArea (points : list (Point num)) : Exc num :=
  if (length points <? 3)%nat then Ok (of_nat 0)
  else
    area <- for_loop (area_step points) 0 (length points) (of_nat 0) ;;
    Ok (Math_abs area / of_nat 2).

Definition moveRegionPoints (points : list (Point num)) (offsetX offsetZ : num)
  : list (Point num) :=
  if (length points =? 0)%nat then points
  else map (fun p => mkPoint (x p + offsetX) (z p + offsetZ)) points.

Definition moveRegionToCenter (points : list (Point num)) (newCenterX newCenterZ : num)
  : list (Point num) :=
  if (length points =? 0)%nat then points
  else
    let currentCenter := calculatePolygonCenter points in
    let offsetX := newCenterX - x currentCenter in
    let offsetZ := newCenterZ - z currentCenter in
    moveRegionPoints points offsetX offsetZ.

(** [Math.sqrt] and the literal [1e-8], which only [warpRegionPoints] uses. *)
Variable Math_sqrt : num -> num.
Variable tiny8 : num.

Definition warpRegionPoints (points : list (Point num))
           (centerX centerZ radius strength : num) : list (Point num) :=
  if (length points =? 0)%nat || (radius <=? of_nat 0) || (strength =? of_nat 0)
  then points
  else
    let radiusSq := radius * radius in
    map (fun p =>
           let dx := x p - centerX in
           let dz := z p - centerZ in
           let distSq := dx * dx + dz * dz in
           if radiusSq <=? distSq then p
           else
             let dist := Math_sqrt (Math_max distSq tiny8) in
             let falloff := of_nat 1 - dist / radius in
             let displacement := strength * falloff in
             let ux := dx / dist in
             let uz := dz / dist in
             mkPoint (x p + ux * displacement) (z p + uz * displacement))
        points.

End MoreGeometry.

(** [warpRegionPoints] on binary64: [Math.sqrt] and [1e-8]. *)
Definition warpRegionPoints_js : list (Point float) -> float -> float -> float -> float
                                 -> list (Point float) :=
  warpRegionPoints PrimFloat.sqrt 0x1.5798ee2308c3ap-27%float.

(** ** villageUtils.ts: the parent region of a village *)

Module VillageData.
Record t : Type := mk {
  x : float;
  z : float;
  details : string;
  type : string
}.
End VillageData.

(** [for (const region of regions)] with its early [return]. *)
Fixpoint findParentRegion (village : VillageData.t) (regions : list Region.t)
  : Exc (option Region.t) :=
  match regions with
  | [] => Ok None
  | region :: rest =>
      if (3 <=? length (Region.points region))%nat then
        inside <- isPointInPolygon
                    (mkPoint (VillageData.x village) (VillageData.z village))
                    (Region.points region) ;;
        if inside then Ok (Some region) else findParentRegion village rest
      else findParentRegion village rest
  end.

(** A region that [findParentRegion] accepts for a village. *)
Definition contains_village (village : VillageData.t) (region : Region.t) : Prop :=
  3 <= length (Region.points region)
  /\ isPointInPolygon (mkPoint (VillageData.x village) (VillageData.z village))
       (Region.points region) = Ok true.

(** ** Notions of the plane, on integer coordinates *)

(** [a.x * b.z - b.x * a.z], the term an edge adds to the area sum. *)
Definition cross (a b : Point Z) : Z := (x a * z b - x b * z a)%Z.

(** The area sum along a chain of points. *)
Fixpoint chain_sum (chain : list (Point Z)) : Z :=
  match chain with
  | a :: (b :: _) as rest => (cross a b + chain_sum rest)%Z
  | _ => 0%Z
  end.

(** The chain of a polygon: its points, closed by the first one. *)
Definition closed {A : Type} (points : list A) : list A :=
  match points with
  | [] => []
  | p0 :: _ => points ++ [p0]
  end.

(** A point moved by an offset, and scaled about a centre. *)
Definition translate (a b : Z) (p : Point Z) : Point Z :=
  mkPoint (x p + a)%Z (z p + b)%Z.

Definition scale_about (cx cz s : Z) (p : Point Z) : Point Z :=
  mkPoint (cx + (x p - cx) * s)%Z (cz + (z p - cz) * s)%Z.

(** A triangle on integer coordinates. *)
Definition triangle : list (Point Z) :=
  [mkPoint 0 0; mkPoint 4 0; mkPoint 4 3]%Z.

(** A two-point "polygon" and a point that, on binary64, is inside it. *)
Definition sliver : list (Point float) := [mkPoint 10 (-18); mkPoint (-1) 19]%float.

Definition sliver_point : Point float :=
  mkPoint (-0x1.fa7701623fa7ap-2)%float 0x1.14ccccccccccdp+4%float.

(** ** exportUtils.ts: the event conditions *)

(** One entry of [event_conditions.yml]: its key, the region its condition
    names, and the actions under [default]. *)
Record EventCondition : Type := mkEventCondition {
  eventKey : string;
  condition_region : string;
  actions : list string
}.

Module EventConditions.

Local Open Scope string_scope.
Import Str.

(** The lines one entry appends to [yamlContent]. *)
Definition render (e : EventCondition) : string :=
  "  " ++ eventKey e ++ ":" ++ nl
    ++ "    type: wgevents_region_enter" ++ nl
    ++ "    conditions:" ++ nl
    ++ "      - '%region% == " ++ condition_region e ++ "'" ++ nl
    ++ "    one_time: true" ++ nl
    ++ "    actions:" ++ nl
    ++ "      default:" ++ nl
    ++ String.concat "" (map (fun a => "        - '" ++ a ++ "'" ++ nl) (actions e)).

(** The entries appended to [yamlContent] so far, and [eventCount]. *)
Definition state : Type := (list EventCondition * nat)%type.

Definition emit (e : EventCondition) (st : state) : state :=
  ((fst st ++ [e])%list, Datatypes.S (snd st)).

Definition village_step (st : state) (subregion : Subregion.t) : state :=
  if String.eqb (Subregion.type subregion) "village" then
    let villageKey := replace_spaces "_" (toLowerCase (Subregion.name subregion)) in
    emit (mkEventCondition
            (villageKey ++ "_discover_once")
            (replace_spaces "_" (toLowerCase (Subregion.name subregion)))
            ["wait: 5";
             "console_command: aach give discover"
               ++ replace_spaces "" (Subregion.name subregion) ++ " %player%";
             "console_command: aach add 1 Custom.villages_discovered %player%";
             "console_command: aach add 1 Custom.total_discovered %player%";
             "console_command: cc give virtual VillageCrate 1 %player%"]) st
  else st.

Definition region_step (worldType : option WorldType) (st : state) (region : Region.t)
  : state :=
  let name := Region.name region in
  let regionKey := replace_spaces "_" (toLowerCase name) in
  let prefix := match worldType with Some nether => "nether_" | _ => "" end in
  let st := emit (mkEventCondition
                    (regionKey ++ "_discover_once")
                    (replace_spaces "_" (toLowerCase name))
                    ["wait: 5";
                     "console_command: aach give discover"
                       ++ replace_spaces "" name ++ " %player%";
                     "console_command: aach add 1 Custom." ++ prefix
                       ++ "regions_discovered %player%";
                     "console_command: cc give virtual RegionCrate 1 %player%"]) st in
  let st := emit (mkEventCondition
                    ("heart_of_" ++ regionKey ++ "_discover_once")
                    ("heart_of_" ++ regionKey)
                    ["wait: 5";
                     "console_command: aach give discoverHeartOf"
                       ++ replace_spaces "" name ++ " %player%";
                     "console_command: aach add 1 Custom." ++ prefix
                       ++ "hearts_discovered %player%";
                     "console_command: cc give virtual RegionCrate 1 %player%"]) st in
  match Region.subregions region with
  | Some ((_ :: _) as subregions) => fold_left village_step subregions st
  | _ => st
  end.

Definition run (regions : list Region.t) (worldType : option WorldType) : state :=
  fold_left (region_step worldType) regions ([], 0).

End EventConditions.

Definition generateEventConditionsYAML (regions : list Region.t)
           (worldType : option WorldType) : Export :=
  if (length regions =? 0)%nat then
    mkExport None (Some ("No regions to generate event conditions for"%string, error))
  else
    let '(entries, eventCount) := EventConditions.run regions worldType in
    let yamlContent :=
      ("Events:" ++ Str.nl ++ String.concat "" (map EventConditions.render entries))%string in
    mkExport (Some ("event_conditions.yml"%string, yamlContent))
             (Some (("Generated " ++ Str.of_nat eventCount ++ " event conditions")%string,
                    success)).

(** The achievement an event grants: the key in its
    [aach give <key> %player%] action, the second of its actions. *)
Definition grants (a : Achievement) (e : EventCondition) : Prop :=
  nth_error (actions e) 1
  = Some ("console_command: aach give " ++ achievementKey a ++ " %player%")%string.

(** The event fires in the WorldGuard region the achievement is named for. *)
Definition same_place (a : Achievement) (e : EventCondition) : Prop :=
  Name a = ("discover_" ++ condition_region e)%string.

(** ** exportUtils.ts: the regions file *)

(** [{ x: number; z: number; radius?: number }] *)
Module SpawnCoordinates.
Record t : Type := mk {
  x : float;
  z : float;
  radius : option float
}.
End SpawnCoordinates.

(** The truth value of an optional number: [undefined], [0], [-0] and
    [NaN] are falsy. *)
Definition number_truthy (n : option float) : bool :=
  match n with
  | Some f => negb (PrimFloat.eqb f 0 || PrimFloat.is_nan f)
  | None => false
  end.

Section RegionsExport.

Local Open Scope string_scope.
Import Str.

Variable toString_other : float -> string.

Definition generateSpawnRegionYAML (x z radius : float) (useModernWorldHeight : bool)
  : string :=
  let minX := (x - radius)%float in
  let maxX := (x + radius)%float in
  let minZ := (z - radius)%float in
  let maxZ := (z + radius)%float in
  let minY := (if useModernWorldHeight then -64 else 0)%float in
  let maxY := (if useModernWorldHeight then 320 else 255)%float in
  "  spawn:" ++ nl
    ++ "    min: {x: " ++ num toString_other minX ++ ", y: " ++ num toString_other minY
    ++ ", z: " ++ num toString_other minZ ++ "}" ++ nl
    ++ "    max: {x: " ++ num toString_other maxX ++ ", y: " ++ num toString_other maxY
    ++ ", z: " ++ num toString_other maxZ ++ "}" ++ nl
    ++ "    members: {}" ++ nl
    ++ "    flags:" ++ nl
    ++ "      build: deny" ++ nl
    ++ "      pvp: deny" ++ nl
    ++ "      mob-spawning: deny" ++ nl
    ++ "      creeper-explosion: deny" ++ nl
    ++ "      other-explosion: deny" ++ nl
    ++ "      tnt: deny" ++ nl
    ++ "    owners: {}" ++ nl
    ++ "    type: cuboid" ++ nl
    ++ "    priority: 10" ++ nl.

(** The options [exportRegionsYAML] hands on to [generateRegionYAML]. *)
Variable includeVillages randomMobSpawn includeHeartRegions : bool.
Variable useModernWorldHeight useGreetingsAndFarewells : bool.
Variable greetingSize : GreetingSize.
Variable includeChallengeLevelSubheading : bool.

(** [randomMobs index] is what [generateRandomMobList()] returns in the
    call for the region at [index]. *)
Variable randomMobs : nat -> list string.

(** [regions.forEach((region, index) => ...)] from [index] on; [total] is
    [regions.length]. *)
Fixpoint regions_loop (worldType : option WorldType) (regions : list Region.t)
         (index total : nat) (yamlContent : string) : string :=
  match regions with
  | [] => yamlContent
  | region :: rest =>
      let yamlContent :=
        yamlContent
          ++ generateRegionYAML toString_other region includeVillages randomMobSpawn
               includeHeartRegions worldType useModernWorldHeight useGreetingsAndFarewells
               greetingSize includeChallengeLevelSubheading (randomMobs index) in
      let yamlContent :=
        if (index <? total - 1)%nat then yamlContent ++ nl else yamlContent in
      regions_loop worldType rest (Datatypes.S index) total yamlContent
  end.

Definition exportRegionsYAML (regions : list Region.t) (includeSpawnRegion : bool)
           (spawnCoordinates : option SpawnCoordinates.t) (worldType : option WorldType)
  : Export :=
  if (length regions =? 0)%nat && (negb includeSpawnRegion || is_nether worldType) then
    mkExport None (Some ("No regions to export", error))
  else
    let yamlContent := "regions:" ++ nl in
    let yamlContent :=
      match spawnCoordinates with
      | Some coordinates =>
          match SpawnCoordinates.radius coordinates with
          | Some radius =>
              if includeSpawnRegion && number_truthy (Some radius)
                 && negb (is_nether worldType)
              then
                let spawnRegion :=
                  generateSpawnRegionYAML (SpawnCoordinates.x coordinates)
                    (SpawnCoordinates.z coordinates) radius useModernWorldHeight in
                let yamlContent := yamlContent ++ spawnRegion in
                if (0 <? length regions)%nat then yamlContent ++ nl else yamlContent
              else yamlContent
          | None => yamlContent
          end
      | None => yamlContent
      end in
    let yamlContent := regions_loop worldType regions 0 (length regions) yamlContent in
    mkExport (Some ("regions.yml", yamlContent)) None.

(** For the statements: the blocks of the regions from [index] on, and the
    spawn block when there is one. *)
Fixpoint region_blocks (worldType : option WorldType) (regions : list Region.t)
         (index : nat) : list string :=
  match regions with
  | [] => []
  | region :: rest =>
      generateRegionYAML toString_other region includeVillages randomMobSpawn
        includeHeartRegions worldType useModernWorldHeight useGreetingsAndFarewells
        greetingSize includeChallengeLevelSubheading (randomMobs index)
        :: region_blocks worldType rest (Datatypes.S index)
  end.

Definition spawn_blocks (includeSpawnRegion : bool)
           (spawnCoordinates : option SpawnCoordinates.t) (worldType : option WorldType)
  : list string :=
  match spawnCoordinates with
  | Some coordinates =>
      if includeSpawnRegion && number_truthy (SpawnCoordinates.radius coordinates)
         && negb (is_nether worldType)
      then
        match SpawnCoordinates.radius coordinates with
        | Some radius =>
            [generateSpawnRegionYAML (SpawnCoordinates.x coordinates)
               (SpawnCoordinates.z coordinates) radius useModernWorldHeight]
        | None => []
        end
      else []
  | None => []
  end.

(** ExportPanel: [handleExportYAML], with the spawn point and the spawn
    radius of the spawn state. *)
Definition handleExportYAML (regions : list Region.t) (includeSpawnRegion : bool)
           (coordinates : option (Point float)) (radius : option float)
           (worldType : option WorldType) : Export :=
  let spawnData :=
    match coordinates with
    | Some c => Some (SpawnCoordinates.mk (x c) (z c) radius)
    | None => None
    end in
  let finalIncludeSpawnRegion :=
    if is_nether worldType then false else includeSpawnRegion in
  exportRegionsYAML regions finalIncludeSpawnRegion spawnData worldType.

End RegionsExport.

(** ** villageUtils.ts: the subregion of a village *)

Section VillageSubregion.

Local Open Scope string_scope.

Variable toString_other : float -> string.

(** [existingNames.has(name)] *)
Definition has (existingNames : list string) (name : string) : bool :=
  existsb (String.eqb name) existingNames.

(** The names [generateVillageNameByWorldType(worldType)] returns, call
    after call; the generator is the only use of [worldType]. *)
Variable names : nat -> string.

(** The first [while]: [attempts] counts the calls after the first, and
    the loop ends at the latest when it reaches [maxAttempts]; [fuel] is
    what is left up to there. *)
Fixpoint regenerate (existingNames : list string) (generatedName : string)
         (attempts fuel : nat) : string :=
  match fuel with
  | O => generatedName
  | Datatypes.S fuel' =>
      if has existingNames generatedName && (attempts <? 100)%nat then
        regenerate existingNames (names (Datatypes.S attempts)) (Datatypes.S attempts) fuel'
      else generatedName
  end.

(** The second [while], which tries [baseName 1], [baseName 2], ... *)
Fixpoint renumber (existingNames : list string) (baseName generatedName : string)
         (counter fuel : nat) : string :=
  match fuel with
  | O => generatedName
  | Datatypes.S fuel' =>
      if has existingNames generatedName && (counter <? 1000)%nat then
        renumber existingNames baseName (baseName ++ " " ++ Str.of_nat counter)
                 (Datatypes.S counter) fuel'
      else generatedName
  end.

Definition createVillageSubregion (village : VillageData.t) (index : float)
           (parentRegionId : option string) (existingNames : list string) : Subregion.t :=
  let generatedName := regenerate existingNames (names 0) 0 100 in
  let generatedName :=
    if has existingNames generatedName then
      renumber existingNames generatedName generatedName 1 999
    else generatedName in
  Subregion.mk ("village_" ++ JS.toString toString_other index)
               generatedName
               (VillageData.x village)
               (VillageData.z village)
               64
               "village"
               (VillageData.details village)
               parentRegionId.

End VillageSubregion.

(** A string of ASCII characters.  On these strings [Str.toLowerCase] and
    [Str.replace_spaces] do what [toLowerCase] and the class [\s] of
    JavaScript do. *)
Fixpoint ascii_only (s : string) : bool :=
  match s with
  | EmptyString => true
  | String c t => (nat_of_ascii c <? 128)%nat && ascii_only t
  end.

(** A string without an ASCII blank. *)
Fixpoint no_space (s : string) : bool :=
  match s with
  | EmptyString => true
  | String c t => negb (Str.is_space c) && no_space t
  end.

(** An ASCII string without a blank: a string with no white space at
    all. *)
Definition clean_key (s : string) : bool := ascii_only s && no_space s.

(** The names of a region and of its subregions are ASCII. *)
Definition ascii_names (region : Region.t) : Prop :=
  ascii_only (Region.name region) = true
  /\ forall subregions,
       Region.subregions region = Some subregions ->
       Forall (fun subregion => ascii_only (Subregion.name subregion) = true) subregions.

(** [region.challengeLevel] is set. *)
Definition has_level (region : Region.t) : bool :=
  match Region.challengeLevel region with
  | Some _ => true
  | None => false
  end.

(** ** persistenceUtils.ts: the active tab *)

(** [localStorage]: the items, the latest first. *)
Module Storage.

Definition t : Type := list (string * string).

Fixpoint getItem (key : string) (storage : t) : option string :=
  match storage with
  | [] => None
  | (k, v) :: rest => if String.eqb k key then Some v else getItem key rest
  end.

Definition setItem (key value : string) (storage : t) : t := (key, value) :: storage.

Definition removeItem (key : string) (storage : t) : t :=
  filter (fun item => negb (String.eqb (fst item) key)) storage.

End Storage.

Definition ACTIVE_TAB : string := "mc-region-maker-active-tab".

Definition STORAGE_KEYS : list string :=
  ["mc-region-maker-map-state"; "mc-region-maker-regions";
   "mc-region-maker-selected-region"; "mc-region-maker-image-details";
   ACTIVE_TAB; "mc-region-maker-world-name"; "mc-region-maker-world-type";
   "mc-region-maker-world-seed"; "mc-region-maker-export-settings"]%string.

(** [fits] tells whether [setItem] succeeds; when it throws (the quota is
    exceeded) the [catch] logs the error and the storage is as before. *)
Definition saveActiveTab (fits : bool) (tab : string) (storage : Storage.t) : Storage.t :=
  if fits then Storage.setItem ACTIVE_TAB tab storage else storage.

(** A [getItem] that throws is answered by the [catch] with the default,
    as a missing item is. *)
Definition loadActiveTab (storage : Storage.t) : string :=
  match Storage.getItem ACTIVE_TAB storage with
  | Some saved =>
      if negb (String.eqb saved "")
         && existsb (String.eqb saved) ["map"; "regions"; "export"; "advanced"]%string
      then saved
      else "map"%string
  | None => "map"%string
  end.

Definition clearSavedData (storage : Storage.t) : Storage.t :=
  fold_left (fun storage key => Storage.removeItem key storage) STORAGE_KEYS storage.

(** ** Integers as doubles *)

(** The binary64 arithmetic with [Math.hypot] left open: the standard
    asks of it an approximation only, and engines differ in how they
    round it. *)
Definition JSNumberWith (hypot : float -> float -> float) : Number float := {|
  of_nat := JS.of_nat;
  tiny := 0x1.b7cdfd9d7bdbbp-34%float;
  nadd := PrimFloat.add;
  nsub := PrimFloat.sub;
  nmul := PrimFloat.mul;
  ndiv := PrimFloat.div;
  nopp := PrimFloat.opp;
  nltb := PrimFloat.ltb;
  nleb := PrimFloat.leb;
  neqb := PrimFloat.eqb;
  Math_abs := PrimFloat.abs;
  Math_max := JS.max;
  Math_min := JS.min;
  Math_hypot := hypot
|}.

(** The double of an integer, as [Prim2SF] sees it. *)
Definition SF_of_Z (n : Z) : spec_float := binary_normalize prec emax n 0 false.

(** [m] and [e] are the mantissa and the exponent of the double that is
    the positive integer [n]. *)
Definition int_rep (n m : positive) (e : Z) : Prop :=
  (e <= 0 /\ Zpos m = Zpos n * 2 ^ (- e) /\ Zpos (digits2_pos m) = 53)%Z.

(** A zero of either sign, or the double of the integer. *)
Definition SF_is_Z (z : Z) (f : spec_float) : Prop :=
  f = SF_of_Z z \/ (z = 0%Z /\ f = S754_zero true).

(** The double of the integer, or [-0] for 0. *)
Definition is_Z (z : Z) (f : float) : Prop :=
  f = JS.of_Z z \/ (z = 0%Z /\ f = PrimFloat.neg_zero).

(** A point with integer coordinates, as the point of doubles the program
    holds. *)
Definition point_of_Z (p : Point Z) : Point float :=
  mkPoint (JS.of_Z (x p)) (JS.of_Z (z p)).

(** Both coordinates are below [bound] in magnitude. *)
Definition within (bound : Z) (p : Point Z) : Prop :=
  (Z.abs (x p) < bound /\ Z.abs (z p) < bound)%Z.

(** ** The achievements file, entry by entry

    What section 8 of the specification says the achievements export
    holds: for each region its discovery and the discovery of its heart,
    then one entry for each of its villages. *)

Local Open Scope string_scope.

Definition region_entries (worldType : option WorldType) (region : Region.t)
  : list Achievement :=
  let name := Region.name region in
  let key := Str.replace_spaces "" name in
  let slug := Str.replace_spaces "_" (Str.toLowerCase name) in
  let inNether := match worldType with Some nether => true | _ => false end in
  let discovery :=
    mkAchievement
      ("discover" ++ key)
      ("Discover " ++ name ++ " Region")
      (if inNether then "You discovered the nether region of " ++ name
       else "You discovered the region of " ++ name)
      ("discover_" ++ slug)
      (if inNether then "Nether Region Discovery" else "Region Discovery")
      "normal" in
  let heart :=
    mkAchievement
      ("discoverHeartOf" ++ key)
      ("Discover the Heart of " ++ name)
      (if inNether then "You discovered the nether " ++ slug
       else "You discovered the Heart of " ++ name)
      ("discover_heart_of_" ++ slug)
      (if inNether then "Nether Heart Discovery" else "Heart Discovery")
      "normal" in
  let village_entry village :=
    mkAchievement
      ("discover" ++ Str.replace_spaces "" (Subregion.name village))
      ("Discover " ++ Subregion.name village ++ " Village")
      ("You discovered the village of " ++ Subregion.name village)
      ("discover_" ++ Str.replace_spaces "_" (Str.toLowerCase (Subregion.name village)))
      "Village Discovery"
      "normal" in
  (discovery :: heart :: map village_entry (villages region))%list.

(** The six lines of an entry in the file. *)
Definition entry_lines (a : Achievement) : string :=
  ("  " ++ achievementKey a ++ ":" ++ Str.nl
     ++ "    Goal: " ++ Goal a ++ Str.nl
     ++ "    Message: " ++ Message a ++ Str.nl
     ++ "    Name: " ++ Name a ++ Str.nl
     ++ "    DisplayName: " ++ DisplayName a ++ Str.nl
     ++ "    Type: " ++ Type_ a ++ Str.nl)%string.

Local Close Scope string_scope.

(** * Properties *)

(** ** Array reads and loops *)

Lemma arr_get_lt {A : Type} (a : list A) (i : nat) :
  i < length a -> exists v, arr_get a i = Ok v /\ nth_error a i = Some v.
Proof.
  intros Hi. unfold arr_get.
  destruct (nth_error a i) as [v|] eqn:E.
  - exists v. split; reflexivity.
  - apply nth_error_None in E. lia.
Qed.

Lemma arr_get_middle {A : Type} (pre suf : list A) (v : A) :
  arr_get (pre ++ v :: suf) (length pre) = Ok v.
Proof.
  unfold arr_get. rewrite nth_error_app2 by lia.
  rewrite Nat.sub_diag. reflexivity.
Qed.

Lemma filter_index_app {A : Type} (keep : nat -> bool) (a b : list A) (i : nat) :
  filter_index keep i (a ++ b)
  = filter_index keep i a ++ filter_index keep (i + length a) b.
Proof.
  revert i. induction a as [|h t IH]; intros i; simpl.
  - rewrite Nat.add_0_r. reflexivity.
  - rewrite IH. replace (Datatypes.S i + length t) with (i + Datatypes.S (length t)) by lia.
    destruct (keep i); reflexivity.
Qed.

(** ** The geometry engine on binary64, by computation *)

Example double_square :
  doublePolygonVertices square
  = Ok [mkPoint 0 0; mkPoint 5 0; mkPoint 10 0; mkPoint 10 5;
        mkPoint 10 10; mkPoint 5 10; mkPoint 0 10; mkPoint 0 5]%float.
Proof. vm_compute. reflexivity. Qed.

Example split_square_by_its_diagonal :
  splitPolygon square (mkPoint 0 0)%float (mkPoint 10 10)%float = (square, []).
Proof. vm_compute. reflexivity. Qed.

Example simplify_spike_at_zero : simplifyPolygonVertices spike 0%float = Ok spike.
Proof. vm_compute. reflexivity. Qed.

Example closest_to_the_square :
  findClosestPointOnPolygonEdge (mkPoint 5 (-3))%float square = Ok (mkPoint 5 0)%float
  /\ findClosestPointOnPolygonEdge (mkPoint 12 4)%float square = Ok (mkPoint 10 4)%float
  /\ findClosestPointOnPolygonEdge (mkPoint 5 (-3))%float [] = TypeError.
Proof. repeat split; vm_compute; reflexivity. Qed.

Example centre_of_the_square : calculatePolygonCenter square = mkPoint 5%float 5%float.
Proof. vm_compute. reflexivity. Qed.

(** ** Vertex density: [doublePolygonVertices], [halvePolygonVertices] *)

Section Density.

Context {num : Type} {N : Number num}.

Lemma even_index_SS (i : nat) : even_index (Datatypes.S (Datatypes.S i)) = even_index i.
Proof.
  unfold even_index. replace (Datatypes.S (Datatypes.S i)) with (i + 1 * 2) by lia.
  rewrite Nat.Div0.mod_add. reflexivity.
Qed.

Lemma even_index_S (i : nat) : even_index i = true -> even_index (Datatypes.S i) = false.
Proof.
  unfold even_index. intros H. apply Nat.eqb_eq in H. apply Nat.eqb_neq.
  pose proof (Nat.div_mod_eq i 2). pose proof (Nat.div_mod_eq (Datatypes.S i) 2).
  pose proof (Nat.mod_upper_bound (Datatypes.S i) 2). lia.
Qed.

(** The loop of [doublePolygonVertices] from index [length pre] on: it
    succeeds, appends two points for each remaining vertex, and the
    vertex is the one at the even place. *)
Lemma double_loop_spec (points : list (Point num)) :
  forall (suf pre acc : list (Point num)),
    points = pre ++ suf ->
    1 <= length points ->
    exists res,
      for_loop
        (fun i result =>
           a <- arr_get points i ;;
           b <- arr_get points ((i + 1) mod length points) ;;
           Ok (result ++ [a; mkPoint (nadd (x a) (x b) / of_nat 2)%num
                                      (nadd (z a) (z b) / of_nat 2)%num]))
        (length pre) (length suf) acc = Ok (acc ++ res)
      /\ length res = 2 * length suf
      /\ forall e, even_index e = true -> filter_index even_index e res = suf.
Proof.
  induction suf as [|a suf IH]; intros pre acc Hp Hn.
  - exists []. simpl. rewrite app_nil_r. repeat split; reflexivity.
  - assert (Ha : arr_get points (length pre) = Ok a)
      by (rewrite Hp; apply arr_get_middle).
    destruct (arr_get_lt points (i := (length pre + 1) mod length points))
      as [b [Hb _]].
    { apply Nat.mod_upper_bound. lia. }
    destruct (IH (pre ++ [a])
                (acc ++ [a; mkPoint (nadd (x a) (x b) / of_nat 2)%num
                                    (nadd (z a) (z b) / of_nat 2)%num]))
      as [res [Hres [Hlen Hev]]].
    { rewrite Hp, <- app_assoc. reflexivity. }
    { exact Hn. }
    rewrite length_app in Hres. simpl in Hres.
    replace (length pre + 1) with (Datatypes.S (length pre)) in Hres by lia.
    eexists. split; [|split].
    + cbn [for_loop length]. rewrite Ha. cbn [bind]. rewrite Hb. cbn [bind].
      rewrite Hres. rewrite <- app_assoc. reflexivity.
    + simpl. lia.
    + intros e He. simpl. rewrite He. rewrite (even_index_S e He).
      rewrite Hev; [reflexivity|]. rewrite even_index_SS. exact He.
Qed.

(** The first loop of [halvePolygonVertices]: it keeps the points at the
    even places. *)
Lemma halve_loop_spec (points : list (Point num)) :
  forall (suf pre kept : list (Point num)),
    points = pre ++ suf ->
    for_loop
      (fun i kept =>
         if (i mod 2 =? 0)%nat
         then p <- arr_get points i ;; Ok (kept ++ [p])
         else Ok kept)
      (length pre) (length suf) kept
    = Ok (kept ++ filter_index even_index (length pre) suf).
Proof.
  induction suf as [|a suf IH]; intros pre kept Hp.
  - simpl. rewrite app_nil_r. reflexivity.
  - specialize (IH (pre ++ [a])).
    rewrite length_app in IH. simpl in IH.
    replace (length pre + 1) with (Datatypes.S (length pre)) in IH by lia.
    assert (Hp' : points = (pre ++ [a]) ++ suf) by (rewrite Hp, <- app_assoc; reflexivity).
    assert (Ha : arr_get points (length pre) = Ok a)
      by (rewrite Hp; apply arr_get_middle).
    cbn [for_loop length filter_index]. unfold even_index at 1.
    destruct (length pre mod 2 =? 0)%nat.
    + rewrite Ha. cbn [bind].
      rewrite (IH _ Hp'). rewrite <- app_assoc. reflexivity.
    + cbn [bind]. apply IH. exact Hp'.
Qed.

(** C6.  Doubling the vertices of a polygon with at least three of them
    and then halving the result gives the polygon back: both calls
    return, the doubled polygon has twice the vertices, and the halved one
    has the original number of vertices, each equal to the original vertex at its
    place. *)
Theorem halve_double_roundtrip (P : list (Point num)) :
  3 <= length P ->
  exists D H,
    doublePolygonVertices P = Ok D
    /\ length D = 2 * length P
    /\ halvePolygonVertices D = Ok H
    /\ length H = length P
    /\ (forall i, nth_error H i = nth_error P i)
    /\ H = P.
Proof.
  intros Hn.
  destruct (@double_loop_spec P P [] [] eq_refl ltac:(lia)) as [D [HD [Hlen Hev]]].
  exists D, P. unfold doublePolygonVertices.
  destruct (length P <? 2)%nat eqn:E; [apply Nat.ltb_lt in E; lia|].
  simpl in HD. rewrite HD.
  split; [reflexivity|]. split; [exact Hlen|].
  split; [|split; [reflexivity|split; [reflexivity|reflexivity]]].
  unfold halvePolygonVertices.
  destruct (length D <=? 3)%nat eqn:E3; [apply Nat.leb_le in E3; lia|].
  pose proof (@halve_loop_spec D D [] [] eq_refl) as Hh. cbn [length app] in Hh.
  rewrite Hh. cbn [bind]. rewrite (Hev 0 eq_refl).
  destruct (length P <? 3)%nat eqn:E4; [apply Nat.ltb_lt in E4; lia|reflexivity].
Qed.

End Density.

(** The round trip on the square. *)
Lemma halve_double_roundtrip_witness :
  3 <= length square
  /\ exists D H,
      doublePolygonVertices square = Ok D
      /\ length D = 2 * length square
      /\ halvePolygonVertices D = Ok H
      /\ length H = length square
      /\ (forall i, nth_error H i = nth_error square i)
      /\ H = square.
Proof.
  split; [simpl; lia|].
  apply (halve_double_roundtrip (N := JSNumber) square). simpl. lia.
Defined.

(** ** [splitPolygon] *)

Section Split.

Context {num : Type} {N : Number num}.

(** With a split line that is not vertical, a half of fewer than three
    points rejects the split whole. *)
Lemma splitPolygon_oblique_guard (points : list (Point num)) (p1 p2 : Point num) :
  nltb (Math_abs (nsub (x p2) (x p1))) tiny = false ->
  let a := nsub (z p2) (z p1) in
  let b := nopp (nsub (x p2) (x p1)) in
  let c := nopp (nadd (nmul a (x p1)) (nmul b (z p1))) in
  let halves :=
    fold_left
      (split_push
         (fun point => nleb (nadd (nadd (nmul a (x point)) (nmul b (z point))) c) (of_nat 0)))
      points ([], []) in
  length (fst halves) < 3 \/ length (snd halves) < 3 ->
  splitPolygon points p1 p2 = (points, []).
Proof.
  intros Hv a b c halves H. unfold splitPolygon.
  destruct (length points <? 3)%nat; [reflexivity|].
  rewrite Hv. fold a b c. fold halves.
  destruct halves as [l r]. simpl in H.
  destruct (length l <? 3)%nat eqn:El; [reflexivity|].
  destruct (length r <? 3)%nat eqn:Er; [reflexivity|].
  apply Nat.ltb_ge in El, Er. lia.
Qed.

(** With a vertical split line the two halves are returned as they are,
    whatever their sizes. *)
Lemma splitPolygon_vertical (points : list (Point num)) (p1 p2 : Point num) :
  (length points <? 3)%nat = false ->
  nltb (Math_abs (nsub (x p2) (x p1))) tiny = true ->
  splitPolygon points p1 p2
  = fold_left (split_push (fun point => nleb (x point) (x p1))) points ([], []).
Proof.
  intros Hn Hv. unfold splitPolygon. rewrite Hn, Hv. reflexivity.
Qed.

End Split.

(** C1.  On the square split by its vertical diameter [x = 5] each half has
    two points, and [splitPolygon] returns the two halves: the split is not
    rejected, the first component is not the original polygon and the second
    is not empty. *)
Theorem splitPolygon_vertical_not_rejected :
  splitPolygon square (mkPoint 5 0)%float (mkPoint 5 10)%float
  = ([mkPoint 0 0; mkPoint 0 10]%float, [mkPoint 10 0; mkPoint 10 10]%float).
Proof. vm_compute. reflexivity. Qed.

(** ** Integers on binary64

    A double holds every integer below 2^53 in magnitude, and the sum, the
    difference and the product of two such integers are computed without
    rounding whenever the result is below 2^53 as well.  The lemmas read
    the operations off their specification in [SpecFloat]. *)

Local Open Scope Z_scope.
Lemma digits2_size (p : positive) : digits2_pos p = Pos.size p.
Proof. induction p; cbn; congruence. Qed.

Lemma digits_bounds (p : positive) :
  2 ^ (Zpos (digits2_pos p) - 1) <= Zpos p < 2 ^ Zpos (digits2_pos p).
Proof.
  rewrite digits2_size. split.
  - pose proof (Pos.size_le p) as H.
    assert (H0 : 2 ^ Zpos (Pos.size p) <= 2 * Zpos p).
    { change 2 with (Zpos 2) at 1. rewrite <- Pos2Z.inj_pow.
      change (2 * Zpos p) with (Zpos p~0). apply Pos2Z.pos_le_pos. exact H. }
    replace (Zpos (Pos.size p)) with (Z.succ (Zpos (Pos.size p) - 1)) in H0 by lia.
    rewrite Z.pow_succ_r in H0 by lia. lia.
  - change 2 with (Zpos 2). rewrite <- Pos2Z.inj_pow. apply Pos2Z.pos_lt_pos, Pos.size_gt.
Qed.

Lemma digits_unique (p : positive) (d : Z) :
  2 ^ (d - 1) <= Zpos p < 2 ^ d -> Zpos (digits2_pos p) = d.
Proof.
  intros [Hlo Hhi]. destruct (digits_bounds p) as [Blo Bhi].
  set (s := Zpos (digits2_pos p)) in *.
  assert (Hs : 0 < s) by (unfold s; lia).
  destruct (Z.lt_trichotomy s d) as [Hlt|[Heq|Hgt]]; [|exact Heq|].
  - assert (2 ^ s <= 2 ^ (d - 1)) by (apply Z.pow_le_mono_r; lia). lia.
  - assert (2 ^ d <= 2 ^ (s - 1)) by (apply Z.pow_le_mono_r; lia). lia.
Qed.

Lemma iter_xO (p k : positive) : Zpos (Pos.iter xO p k) = Zpos p * 2 ^ Zpos k.
Proof.
  induction k as [|k IH] using Pos.peano_ind.
  - change (2 ^ 1) with 2. cbn [Pos.iter]. lia.
  - rewrite Pos.iter_succ, Pos2Z.inj_succ, Z.pow_succ_r by lia.
    rewrite Pos2Z.inj_xO, IH. ring.
Qed.

Lemma digits_iter (p k : positive) :
  Zpos (digits2_pos (Pos.iter xO p k)) = Zpos (digits2_pos p) + Zpos k.
Proof.
  apply digits_unique. rewrite iter_xO. destruct (digits_bounds p) as [Blo Bhi].
  assert (Hk : 0 < 2 ^ Zpos k) by (apply Z.pow_pos_nonneg; lia).
  split.
  - replace (Zpos (digits2_pos p) + Zpos k - 1) with ((Zpos (digits2_pos p) - 1) + Zpos k) by lia.
    rewrite Z.pow_add_r by lia. apply Z.mul_le_mono_nonneg_r; lia.
  - rewrite Z.pow_add_r by lia. apply Z.mul_lt_mono_pos_r; lia.
Qed.

Lemma iter_pos_iter {A : Type} (f : A -> A) (k : positive) :
  forall x, SpecFloat.iter_pos f k x = Pos.iter f x k.
Proof.
  induction k as [k IH|k IH|]; intros x; cbn [SpecFloat.iter_pos Pos.iter].
  - rewrite !IH, <- !Pos.iter_swap. reflexivity.
  - rewrite !IH. reflexivity.
  - reflexivity.
Qed.

Lemma shr_exact (q k : positive) :
  SpecFloat.iter_pos shr_1 k {| shr_m := Zpos (Pos.iter xO q k); shr_r := false; shr_s := false |}
  = {| shr_m := Zpos q; shr_r := false; shr_s := false |}.
Proof.
  rewrite iter_pos_iter.
  induction k as [|k IH] using Pos.peano_ind.
  - reflexivity.
  - rewrite !Pos.iter_succ, <- Pos.iter_swap.
    cbn [shr_1 orb]. exact IH.
Qed.

Lemma round_aux_canonical (s : bool) (m : positive) (e : Z) :
  canonical_mantissa prec emax m e = true ->
  e <= emax - prec ->
  binary_round_aux prec emax s (Zpos m) e loc_Exact = S754_finite s m e.
Proof.
  intros Hc He. unfold canonical_mantissa in Hc. apply Z.eqb_eq in Hc.
  unfold binary_round_aux, shr_fexp. cbn [Zdigits2 shr_record_of_loc].
  rewrite Hc, Z.sub_diag.
  cbn [shr shr_m loc_of_shr_record round_nearest_even Zdigits2 shr_record_of_loc].
  rewrite Hc, Z.sub_diag. cbn [shr shr_m].
  apply Z.leb_le in He. rewrite He. reflexivity.
Qed.

Lemma round_aux_shifted (s : bool) (m k : positive) (e : Z) :
  canonical_mantissa prec emax m e = true ->
  e <= emax - prec ->
  binary_round_aux prec emax s (Zpos (Pos.iter xO m k)) (e - Zpos k) loc_Exact
  = S754_finite s m e.
Proof.
  intros Hc He. unfold canonical_mantissa in Hc. apply Z.eqb_eq in Hc.
  unfold binary_round_aux, shr_fexp. cbn [Zdigits2 shr_record_of_loc].
  rewrite digits_iter.
  replace (Zpos (digits2_pos m) + Zpos k + (e - Zpos k)) with (Zpos (digits2_pos m) + e) by lia.
  rewrite Hc. replace (e - (e - Zpos k)) with (Zpos k) by lia.
  cbn [shr]. rewrite shr_exact.
  cbn [shr_m loc_of_shr_record round_nearest_even Zdigits2 shr_record_of_loc].
  replace (e - Zpos k + Zpos k) with e by lia.
  rewrite Hc, Z.sub_diag. cbn [shr shr_m].
  apply Z.leb_le in He. rewrite He. reflexivity.
Qed.

Lemma int_rep_range (n m : positive) (e : Z) : int_rep n m e -> -52 <= e <= 0.
Proof.
  intros [He [Hm Hd]]. split; [|exact He].
  destruct (digits_bounds m) as [_ Bhi]. rewrite Hd in Bhi.
  destruct (Z_lt_le_dec e (-52)) as [Hlt|]; [|lia].
  assert (H : 2 ^ 53 <= 2 ^ (- e)) by (apply Z.pow_le_mono_r; lia).
  assert (Hn : 1 <= Zpos n) by lia. nia.
Qed.

Lemma int_rep_canonical (n m : positive) (e : Z) :
  int_rep n m e -> canonical_mantissa prec emax m e = true /\ e <= emax - prec.
Proof.
  intros H. pose proof (int_rep_range H) as Hr. destruct H as [He [Hm Hd]].
  split.
  - unfold canonical_mantissa, fexp, SpecFloat.emin. rewrite Hd.
    apply Z.eqb_eq. change prec with 53. change emax with 1024. lia.
  - change prec with 53. change emax with 1024. lia.
Qed.

Lemma int_rep_exists (n : positive) : Zpos n < 2 ^ 53 -> exists m e, int_rep n m e.
Proof.
  intros Hn. destruct (digits_bounds n) as [Blo Bhi].
  set (d := Zpos (digits2_pos n)) in *.
  assert (Hd : 0 < d <= 53).
  { split; [unfold d; lia|].
    destruct (Z_lt_le_dec 53 d) as [Hlt|]; [|lia].
    assert (2 ^ 53 <= 2 ^ (d - 1)) by (apply Z.pow_le_mono_r; lia). lia. }
  destruct (Z.eq_dec d 53) as [E|E].
  - exists n, 0. split; [lia|]. split; [change (2 ^ (- 0)) with 1; lia|exact E].
  - exists (Pos.iter xO n (Z.to_pos (53 - d))), (d - 53).
    assert (Hk : Zpos (Z.to_pos (53 - d)) = 53 - d) by (apply Z2Pos.id; lia).
    split; [lia|]. split.
    + rewrite iter_xO, Hk. f_equal. f_equal. lia.
    + rewrite digits_iter, Hk. fold d. lia.
Qed.

(** Rounding a multiple of a power of two that is an integer below 2^53. *)
Lemma round_int (s : bool) (n m S : positive) (e E : Z) :
  int_rep n m e -> E <= 0 -> Zpos S = Zpos n * 2 ^ (- E) ->
  binary_round prec emax s S E = S754_finite s m e.
Proof.
  intros Hrep HE HS. destruct (int_rep_canonical Hrep) as [Hc Hb].
  pose proof (int_rep_range Hrep) as Hr. destruct Hrep as [He [Hm Hd]].
  assert (HdS : Zpos (digits2_pos S) + E = 53 + e).
  { destruct (digits_bounds m) as [Blo Bhi]. rewrite Hd in Blo, Bhi.
    assert (Zpos (digits2_pos S) = 53 + e - E); [|lia].
    apply digits_unique. rewrite HS.
    destruct (Z_le_gt_dec E e) as [Hle|Hgt].
    - (* S = m * 2^(e - E) *)
      assert (HSm : Zpos n * 2 ^ (- E) = Zpos m * 2 ^ (e - E)).
      { rewrite Hm, <- Z.mul_assoc, <- Z.pow_add_r by lia. do 2 f_equal. lia. }
      rewrite HSm.
      assert (Hk : 0 < 2 ^ (e - E)) by (apply Z.pow_pos_nonneg; lia).
      split.
      + replace (53 + e - E - 1) with (52 + (e - E)) by lia.
        rewrite Z.pow_add_r by lia. apply Z.mul_le_mono_nonneg_r; lia.
      + replace (53 + e - E) with (53 + (e - E)) by lia.
        rewrite Z.pow_add_r by lia. apply Z.mul_lt_mono_pos_r; lia.
    - (* m = S * 2^(E - e) *)
      assert (HmS : Zpos m = (Zpos n * 2 ^ (- E)) * 2 ^ (E - e)).
      { rewrite Hm, <- Z.mul_assoc, <- Z.pow_add_r by lia. do 2 f_equal. lia. }
      assert (Hk : 0 < 2 ^ (E - e)) by (apply Z.pow_pos_nonneg; lia).
      set (v := Zpos n * 2 ^ (- E)) in *.
      split.
      + assert (H1 : 2 ^ 52 = 2 ^ (53 + e - E - 1) * 2 ^ (E - e)).
        { rewrite <- Z.pow_add_r by lia. f_equal. lia. }
        destruct (Z_le_gt_dec (2 ^ (53 + e - E - 1)) v) as [|Hlt]; [assumption|].
        exfalso. assert (v * 2 ^ (E - e) < 2 ^ (53 + e - E - 1) * 2 ^ (E - e))
          by (apply Z.mul_lt_mono_pos_r; lia). lia.
      + assert (H1 : 2 ^ 53 = 2 ^ (53 + e - E) * 2 ^ (E - e)).
        { rewrite <- Z.pow_add_r by lia. f_equal. lia. }
        destruct (Z_lt_le_dec v (2 ^ (53 + e - E))) as [|Hge]; [assumption|].
        exfalso. assert (2 ^ (53 + e - E) * 2 ^ (E - e) <= v * 2 ^ (E - e))
          by (apply Z.mul_le_mono_nonneg_r; lia). lia. }
  unfold binary_round. rewrite HdS.
  assert (Hf : fexp prec emax (53 + e) = e).
  { unfold fexp, SpecFloat.emin. change prec with 53. change emax with 1024. lia. }
  rewrite Hf. unfold shl_align.
  destruct (e - E) as [|k|k] eqn:Ek.
  - assert (S = m) as ->.
    { apply Pos2Z.inj. rewrite HS, Hm. do 2 f_equal. lia. }
    assert (E = e) as -> by lia. apply round_aux_canonical; assumption.
  - assert (S = Pos.iter xO m k) as ->.
    { apply Pos2Z.inj. rewrite iter_xO, HS, Hm, <- Z.mul_assoc, <- Z.pow_add_r by lia.
      do 2 f_equal. lia. }
    assert (E = e - Zpos k) as -> by lia. apply round_aux_shifted; assumption.
  - assert (Pos.iter xO S k = m) as ->.
    { apply Pos2Z.inj. rewrite iter_xO, HS, Hm, <- Z.mul_assoc, <- Z.pow_add_r by lia.
      do 2 f_equal. lia. }
    apply round_aux_canonical; assumption.
Qed.

(** The double of an integer below 2^53 in magnitude. *)
Lemma SF_of_Z_pos (n m : positive) (e : Z) :
  int_rep n m e ->
  SF_of_Z (Zpos n) = S754_finite false m e /\ SF_of_Z (Zneg n) = S754_finite true m e.
Proof.
  intros H. unfold SF_of_Z. cbn [binary_normalize].
  split; apply (round_int _ H); try lia; change (2 ^ (- 0)) with 1; lia.
Qed.

(** The sign and the magnitude of a sum of mantissas. *)
Lemma normalize_int (z : Z) (E : Z) (v : Z) :
  Z.abs z < 2 ^ 53 -> E <= 0 -> v = z * 2 ^ (- E) ->
  binary_normalize prec emax v E false = SF_of_Z z.
Proof.
  intros Hz HE ->.
  assert (Hk : 0 < 2 ^ (- E)) by (apply Z.pow_pos_nonneg; lia).
  destruct z as [|n|n].
  - reflexivity.
  - destruct (@int_rep_exists n) as [m [e Hrep]]; [lia|].
    destruct (SF_of_Z_pos Hrep) as [-> _].
    destruct (Zpos n * 2 ^ (- E)) as [|S|S] eqn:ES; try lia.
    cbn [binary_normalize]. apply (round_int _ Hrep); [exact HE|lia].
  - destruct (@int_rep_exists n) as [m [e Hrep]]; [lia|].
    destruct (SF_of_Z_pos Hrep) as [_ ->].
    destruct (Zneg n * 2 ^ (- E)) as [|S|S] eqn:ES; try lia.
    cbn [binary_normalize]. apply (round_int _ Hrep); [exact HE|lia].
Qed.

(** The mantissa of an integer, aligned to a lower exponent. *)
Lemma shl_align_int (n m : positive) (e ez : Z) :
  int_rep n m e -> ez <= e ->
  Zpos (fst (shl_align m e ez)) = Zpos n * 2 ^ (- ez).
Proof.
  intros H Hez. pose proof (int_rep_range H) as Hr. destruct H as [He [Hm Hd]].
  unfold shl_align. destruct (ez - e) as [|k|k] eqn:Ek; cbn [fst]; try lia.
  - rewrite Hm. do 2 f_equal. lia.
  - rewrite iter_xO, Hm, <- Z.mul_assoc, <- Z.pow_add_r by lia. do 2 f_equal. lia.
Qed.

Lemma SF_of_Z_cases (z : Z) :
  Z.abs z < 2 ^ 53 ->
  (z = 0 /\ SF_of_Z z = S754_zero false)
  \/ exists n m e, int_rep n m e
                   /\ ((z = Zpos n /\ SF_of_Z z = S754_finite false m e)
                       \/ (z = Zneg n /\ SF_of_Z z = S754_finite true m e)).
Proof.
  intros Hz. destruct z as [|n|n].
  - left. split; reflexivity.
  - right. destruct (@int_rep_exists n) as [m [e Hrep]]; [lia|].
    exists n, m, e. split; [exact Hrep|]. left. split; [reflexivity|].
    apply (SF_of_Z_pos Hrep).
  - right. destruct (@int_rep_exists n) as [m [e Hrep]]; [lia|].
    exists n, m, e. split; [exact Hrep|]. right. split; [reflexivity|].
    apply (SF_of_Z_pos Hrep).
Qed.

Lemma SF_add_int (a c : Z) (fc : spec_float) :
  Z.abs a < 2 ^ 53 -> Z.abs c < 2 ^ 53 -> Z.abs (a + c) < 2 ^ 53 ->
  SF_is_Z c fc ->
  SF64add (SF_of_Z a) fc = SF_of_Z (a + c).
Proof.
  intros Ha Hc Hac [->|[-> ->]].
  2:{ rewrite Z.add_0_r. destruct (@SF_of_Z_cases a Ha) as [[-> ->]|[n [m [e [_ [[_ ->]|[_ ->]]]]]]];
      reflexivity. }
  destruct (@SF_of_Z_cases a Ha) as [[-> Ea]|[na [ma [ea [Ra [[-> Ea]|[-> Ea]]]]]]];
    destruct (@SF_of_Z_cases c Hc) as [[-> Ec]|[nc [mc [ec [Rc [[-> Ec]|[-> Ec]]]]]]];
    rewrite ?Ea, ?Ec; try reflexivity.
  all: try (rewrite Z.add_0_r; symmetry; exact Ea).
  all: try (rewrite Z.add_0_l; symmetry; exact Ec).
  all: unfold SF64add, SFadd;
    pose proof (int_rep_range Ra) as Hra; pose proof (int_rep_range Rc) as Hrc;
    apply normalize_int; [exact Hac|lia|];
    rewrite (shl_align_int Ra), (shl_align_int Rc) by lia;
    cbn [cond_Zopp]; lia.
Qed.

Lemma SF_sub_int (a c : Z) (fc : spec_float) :
  Z.abs a < 2 ^ 53 -> Z.abs c < 2 ^ 53 -> Z.abs (a - c) < 2 ^ 53 ->
  SF_is_Z c fc ->
  SF64sub (SF_of_Z a) fc = SF_of_Z (a - c).
Proof.
  intros Ha Hc Hac [->|[-> ->]].
  2:{ rewrite Z.sub_0_r. destruct (@SF_of_Z_cases a Ha) as [[-> ->]|[n [m [e [_ [[_ ->]|[_ ->]]]]]]];
      reflexivity. }
  destruct (@SF_of_Z_cases a Ha) as [[-> Ea]|[na [ma [ea [Ra [[-> Ea]|[-> Ea]]]]]]];
    destruct (@SF_of_Z_cases c Hc) as [[-> Ec]|[nc [mc [ec [Rc [[-> Ec]|[-> Ec]]]]]]];
    rewrite ?Ea, ?Ec; try reflexivity.
  all: try (rewrite Z.sub_0_r; symmetry; exact Ea).
  all: try (cbn [SF64sub SFsub negb Z.sub Z.add Z.opp]; symmetry;
            apply (SF_of_Z_pos Rc)).
  all: unfold SF64sub, SFsub;
    pose proof (int_rep_range Ra) as Hra; pose proof (int_rep_range Rc) as Hrc;
    apply normalize_int; [exact Hac|lia|];
    rewrite (shl_align_int Ra), (shl_align_int Rc) by lia;
    cbn [cond_Zopp]; lia.
Qed.

Lemma round_aux_int (s : bool) (n m S : positive) (e E : Z) :
  int_rep n m e -> E <= e -> Zpos S = Zpos n * 2 ^ (- E) ->
  binary_round_aux prec emax s (Zpos S) E loc_Exact = S754_finite s m e.
Proof.
  intros Hrep HE HS. destruct (int_rep_canonical Hrep) as [Hc Hb].
  pose proof (int_rep_range Hrep) as Hr. destruct Hrep as [He [Hm Hd]].
  destruct (e - E) as [|k|k] eqn:Ek; try lia.
  - assert (S = m) as ->.
    { apply Pos2Z.inj. rewrite HS, Hm. do 2 f_equal. lia. }
    assert (E = e) as -> by lia. apply round_aux_canonical; assumption.
  - assert (S = Pos.iter xO m k) as ->.
    { apply Pos2Z.inj. rewrite iter_xO, HS, Hm, <- Z.mul_assoc, <- Z.pow_add_r by lia.
      do 2 f_equal. lia. }
    assert (E = e - Zpos k) as -> by lia. apply round_aux_shifted; assumption.
Qed.

(** The product of the mantissas of two integers is the mantissa of the
    product, at the sum of the exponents. *)
Lemma mul_rep (na nb ma mb m : positive) (ea eb e : Z) :
  int_rep na ma ea -> int_rep nb mb eb -> int_rep (na * nb) m e ->
  ea + eb <= e /\ Zpos (ma * mb) = Zpos (na * nb) * 2 ^ (- (ea + eb)).
Proof.
  intros Ra Rb R.
  pose proof (int_rep_range Ra) as Hra. pose proof (int_rep_range Rb) as Hrb.
  pose proof (int_rep_range R) as Hr.
  destruct Ra as [_ [Hma Hda]]. destruct Rb as [_ [Hmb Hdb]]. destruct R as [_ [Hm Hd]].
  assert (Hprod : Zpos (ma * mb) = Zpos (na * nb) * 2 ^ (- (ea + eb))).
  { rewrite !Pos2Z.inj_mul, Hma, Hmb.
    replace (- (ea + eb)) with (- ea + - eb) by lia. rewrite Z.pow_add_r by lia. ring. }
  split; [|exact Hprod].
  destruct (Z_le_gt_dec (ea + eb) e) as [|Hgt]; [assumption|exfalso].
  destruct (digits_bounds ma) as [La _]. destruct (digits_bounds mb) as [Lb _].
  destruct (digits_bounds m) as [_ Um]. rewrite Hda in La. rewrite Hdb in Lb. rewrite Hd in Um.
  change (2 ^ (53 - 1)) with (2 ^ 52) in La, Lb.
  assert (H104 : 2 ^ 52 * 2 ^ 52 <= Zpos (ma * mb)).
  { rewrite Pos2Z.inj_mul. apply Z.mul_le_mono_nonneg; lia. }
  assert (Hle : 2 ^ (- (ea + eb)) <= 2 ^ (- e)) by (apply Z.pow_le_mono_r; lia).
  assert (Zpos (ma * mb) <= Zpos m).
  { rewrite Hprod, Hm. apply Z.mul_le_mono_nonneg_l; lia. }
  assert (2 ^ 53 <= 2 ^ 52 * 2 ^ 52) by (vm_compute; discriminate).
  lia.
Qed.

Lemma SF_mul_int (a b : Z) :
  Z.abs a < 2 ^ 53 -> Z.abs b < 2 ^ 53 -> Z.abs (a * b) < 2 ^ 53 ->
  SF_is_Z (a * b) (SF64mul (SF_of_Z a) (SF_of_Z b))
  /\ (0 < b -> SF64mul (SF_of_Z a) (SF_of_Z b) = SF_of_Z (a * b)).
Proof.
  intros Ha Hb Hab.
  destruct (@SF_of_Z_cases a Ha) as [[-> Ea]|[na [ma [ea [Ra [[-> Ea]|[-> Ea]]]]]]];
    destruct (@SF_of_Z_cases b Hb) as [[-> Eb]|[nb [mb [eb [Rb [[-> Eb]|[-> Eb]]]]]]];
    rewrite ?Ea, ?Eb.
  1-3: split; [|intros Hpos; try lia; reflexivity];
       cbn [SF64mul SFmul xorb Z.mul]; unfold SF_is_Z; auto.
  1,4: split; [|intros Hpos; lia];
       cbn [SF64mul SFmul xorb]; rewrite Z.mul_0_r; unfold SF_is_Z; auto.
  all: assert (Hn : Zpos (na * nb) < 2 ^ 53) by (cbn [Z.mul Z.abs] in Hab; lia);
    destruct (@int_rep_exists (na * nb) Hn) as [m [e R]];
    destruct (mul_rep Ra Rb R) as [Hle Hprod];
    assert (E : forall s, binary_round_aux prec emax s (Zpos (ma * mb)) (ea + eb) loc_Exact
                          = S754_finite s m e)
      by (intros s; apply (round_aux_int s R Hle Hprod));
    cbn [SF64mul SFmul xorb Z.mul]; rewrite E;
    destruct (SF_of_Z_pos R) as [Ep En];
    (split; [left|intros _]; symmetry; assumption) || (split; [left; symmetry; assumption|intros Hpos; lia]).
Qed.

(** *** Integers as doubles: the primitive operations *)

Lemma two_pow_53 : 2 ^ 53 = 9007199254740992.
Proof. reflexivity. Qed.

Lemma JS_of_Z_spec (z : Z) : Z.abs z < 2 ^ 53 -> Prim2SF (JS.of_Z z) = SF_of_Z z.
Proof.
  intros Hz. rewrite two_pow_53 in Hz.
  assert (Hpos : forall n : positive, Zpos n < 9007199254740992 ->
                   Prim2SF (PrimFloat.of_uint63 (Uint63.of_Z (Zpos n))) = SF_of_Z (Zpos n)).
  { intros n Hn. rewrite FloatAxioms.of_uint63_spec, Uint63.of_Z_spec, Z.mod_small; [reflexivity|].
    change wB with 9223372036854775808. lia. }
  destruct z as [|n|n]; cbn [JS.of_Z].
  - reflexivity.
  - apply Hpos. lia.
  - rewrite FloatAxioms.opp_spec, Hpos by lia.
    destruct (@int_rep_exists n) as [m [e R]]; [rewrite two_pow_53; lia|].
    destruct (SF_of_Z_pos R) as [-> ->]. reflexivity.
Qed.

Lemma is_Z_SF (z : Z) (f : float) :
  Z.abs z < 2 ^ 53 -> (is_Z z f <-> SF_is_Z z (Prim2SF f)).
Proof.
  intros Hz. unfold is_Z, SF_is_Z. rewrite <- (@JS_of_Z_spec z Hz). split.
  - intros [->|[-> ->]]; [left; reflexivity|right; split; reflexivity].
  - intros [H|[-> H]]; [left; apply Prim2SF_inj; exact H|right; split; [reflexivity|]].
    apply Prim2SF_inj. exact H.
Qed.

Lemma JS_of_Z_add (a c : Z) (fc : float) :
  Z.abs a < 2 ^ 53 -> Z.abs c < 2 ^ 53 -> Z.abs (a + c) < 2 ^ 53 ->
  is_Z c fc -> (JS.of_Z a + fc)%float = JS.of_Z (a + c).
Proof.
  intros Ha Hc Hac H. apply Prim2SF_inj.
  rewrite FloatAxioms.add_spec, (@JS_of_Z_spec _ Ha), (@JS_of_Z_spec _ Hac).
  apply SF_add_int; try assumption. apply is_Z_SF; assumption.
Qed.

Lemma JS_of_Z_sub (a c : Z) (fc : float) :
  Z.abs a < 2 ^ 53 -> Z.abs c < 2 ^ 53 -> Z.abs (a - c) < 2 ^ 53 ->
  is_Z c fc -> (JS.of_Z a - fc)%float = JS.of_Z (a - c).
Proof.
  intros Ha Hc Hac H. apply Prim2SF_inj.
  rewrite FloatAxioms.sub_spec, (@JS_of_Z_spec _ Ha), (@JS_of_Z_spec _ Hac).
  apply SF_sub_int; try assumption. apply is_Z_SF; assumption.
Qed.

Lemma JS_of_Z_mul (a b : Z) :
  Z.abs a < 2 ^ 53 -> Z.abs b < 2 ^ 53 -> Z.abs (a * b) < 2 ^ 53 ->
  is_Z (a * b) (JS.of_Z a * JS.of_Z b)%float
  /\ (0 < b -> (JS.of_Z a * JS.of_Z b)%float = JS.of_Z (a * b)).
Proof.
  intros Ha Hb Hab. destruct (@SF_mul_int a b Ha Hb Hab) as [Hw Hs]. split.
  - apply (@is_Z_SF (a * b) _ Hab). rewrite FloatAxioms.mul_spec, (@JS_of_Z_spec _ Ha), (@JS_of_Z_spec _ Hb). exact Hw.
  - intros Hpos. apply Prim2SF_inj.
    rewrite FloatAxioms.mul_spec, (@JS_of_Z_spec _ Ha), (@JS_of_Z_spec _ Hb), (@JS_of_Z_spec _ Hab). apply Hs, Hpos.
Qed.

(** Multiplying by 1 changes no double. *)
Lemma float_mul_one (f : float) : (f * 1)%float = f.
Proof.
  apply Prim2SF_inj. rewrite FloatAxioms.mul_spec.
  assert (H1 : Prim2SF 1 = S754_finite false 4503599627370496 (-52))
    by (vm_compute; reflexivity).
  rewrite H1. pose proof (Prim2SF_valid f) as Hv.
  destruct (Prim2SF f) as [s|s| |s m e]; cbn [SF64mul SFmul];
    rewrite ?xorb_false_r; try reflexivity.
  cbn [SpecFloat.valid_binary] in Hv. unfold bounded in Hv.
  apply andb_prop in Hv. destruct Hv as [Hc Hb]. apply Z.leb_le in Hb.
  assert (Hm : (m * 4503599627370496)%positive = Pos.iter xO m 52).
  { apply Pos2Z.inj. rewrite iter_xO, Pos2Z.inj_mul. reflexivity. }
  rewrite Hm. change (e + -52) with (e + - Zpos 52). rewrite Z.add_opp_r.
  apply round_aux_shifted; assumption.
Qed.

Local Close Scope Z_scope.

(** ** [resizeRegionPoints] *)

Section Resize.

Context {num : Type} {N : Number num}.

Lemma resize_guard (P : list (Point num)) (cx cz s : num) :
  nleb s (of_nat 0) = true -> resizeRegionPoints P cx cz s = P.
Proof.
  intros H. unfold resizeRegionPoints. rewrite H, orb_true_r. reflexivity.
Qed.

Lemma resize_length (P : list (Point num)) (cx cz s : num) :
  length (resizeRegionPoints P cx cz s) = length P.
Proof.
  unfold resizeRegionPoints.
  destruct ((length P =? 0)%nat || nleb s (of_nat 0)); [reflexivity|apply length_map].
Qed.

End Resize.

Lemma resize_identity_exact (P : list (Point R)) (cx cz : R) :
  resizeRegionPoints P cx cz 1%R = P.
Proof.
  unfold resizeRegionPoints.
  destruct ((length P =? 0)%nat || nleb 1%R (of_nat 0)); [reflexivity|].
  transitivity (map (fun p : Point R => p) P); [|apply map_id].
  apply map_ext. intros [px pz]. simpl. f_equal; ring.
Qed.

(** C9, as stated, fails on binary64.  Around the centre [(1e17, 1e17)] the
    point [(1, 1)] scaled by 1 becomes [(0, 0)]: the doubles next to 1e17
    are 16 apart, so [1 - 1e17] is rounded to [-1e17].  With everyday
    sizes, the point [(0.1, 1)] scaled by 1 around [(1, 1)] gets
    [x = 0.09999999999999998], which is not [0.1]. *)
Lemma resize_identity_inexact :
  resizeRegionPoints [mkPoint 1 1]%float 1e17%float 1e17%float 1%float
  = [mkPoint 0 0]%float
  /\ resizeRegionPoints [mkPoint 0x1.999999999999ap-4 1]%float 1%float 1%float 1%float
     = [mkPoint 0x1.9999999999998p-4 1]%float
  /\ PrimFloat.eqb 0x1.9999999999998p-4 0x1.999999999999ap-4 = false
  /\ PrimFloat.eqb 0 1 = false.
Proof. repeat split; vm_compute; reflexivity. Qed.

(** At scale 1 the multiplication changes nothing, on any doubles. *)
Lemma resize_at_one (P : list (Point float)) (cx cz : float) :
  resizeRegionPoints P cx cz 1%float
  = map (fun p => mkPoint (cx + (x p - cx))%float (cz + (z p - cz))%float) P.
Proof.
  unfold resizeRegionPoints. destruct P as [|p P]; [reflexivity|].
  change ((length (p :: P) =? 0)%nat || nleb 1%float (of_nat 0)) with false. cbv iota.
  apply map_ext. intros q. cbv zeta. cbn [nadd nsub nmul JSNumber].
  rewrite !float_mul_one. reflexivity.
Qed.

(** Around an integer centre an integer coordinate comes back as it is. *)
Lemma resize_coordinate_int (a c : Z) :
  (Z.abs a < 2 ^ 52)%Z -> (Z.abs c < 2 ^ 52)%Z ->
  (JS.of_Z c + (JS.of_Z a - JS.of_Z c))%float = JS.of_Z a.
Proof.
  intros Ha Hc.
  assert (H52 : (2 ^ 52 = 4503599627370496)%Z) by reflexivity.
  pose proof two_pow_53 as H53.
  rewrite (@JS_of_Z_sub a c (JS.of_Z c)); [|lia|lia|lia|left; reflexivity].
  rewrite (@JS_of_Z_add c (a - c) (JS.of_Z (a - c))); [|lia|lia|lia|left; reflexivity].
  f_equal. lia.
Qed.

(** C9, amended.  [resizeRegionPoints] returns its input unchanged at a
    scale factor [s <= 0] (on binary64 as in exact arithmetic).  At scale 1
    it returns on binary64, for each point of the input, the point
    [(cx + (x - cx), cz + (z - cz))]: the multiplication by 1 is exact.
    That is the point of the input whenever the coordinates of the points
    and of the centre are integers below 2^52 in magnitude, and always when
    the arithmetic is exact. *)
Theorem resizeRegionPoints_identity_and_guard :
  (forall (P : list (Point float)) (cx cz s : float),
      PrimFloat.leb s 0 = true -> resizeRegionPoints P cx cz s = P)
  /\ (forall (P : list (Point float)) (cx cz : float),
         resizeRegionPoints P cx cz 1%float
         = map (fun p => mkPoint (cx + (x p - cx))%float (cz + (z p - cz))%float) P)
  /\ (forall (P : list (Point Z)) (cx cz : Z),
         (Z.abs cx < 2 ^ 52)%Z -> (Z.abs cz < 2 ^ 52)%Z ->
         Forall (within (2 ^ 52)) P ->
         resizeRegionPoints (map point_of_Z P) (JS.of_Z cx) (JS.of_Z cz) 1%float
         = map point_of_Z P)
  /\ (forall (P : list (Point R)) (cx cz s : R),
         (s <= 0)%R -> resizeRegionPoints P cx cz s = P)
  /\ (forall (P : list (Point R)) (cx cz : R),
         resizeRegionPoints P cx cz 1%R = P).
Proof.
  split; [|split; [|split; [|split]]].
  - intros P cx cz s H. apply resize_guard. exact H.
  - apply resize_at_one.
  - intros P cx cz Hcx Hcz HP. rewrite resize_at_one, map_map.
    apply map_ext_in. intros p Hp.
    destruct (proj1 (Forall_forall _ _) HP p Hp) as [Hx Hz].
    unfold point_of_Z. cbn [x z].
    rewrite (@resize_coordinate_int _ _ Hx Hcx), (@resize_coordinate_int _ _ Hz Hcz).
    reflexivity.
  - intros P cx cz s H. apply resize_guard. simpl. unfold Exact.leb.
    destruct (Rle_dec s 0); [reflexivity|contradiction].
  - apply resize_identity_exact.
Qed.

(** ** The WorldGuard export of the sample region *)

(** C7.  The region "Test Vale" over the square, without a centre override,
    exported with heart regions, the modern world height and no greetings
    (and no random mob list), whatever the other options: the text is the
    polygon block [test_vale] with [min-y: -64], [max-y: 320],
    [priority: 0] and the flags [{passthrough: allow}], then the cuboid
    block [heart_of_test_vale] from [(2, 2)] to [(8, 8)], seven blocks a
    side around the centre [(5, 5)]. *)
Theorem generateRegionYAML_test_vale :
  forall (toString_other : float -> string) (id : string)
         (challengeLevel : option ChallengeLevel) (hasSpawn : option bool)
         (includeVillages : bool) (worldType : option WorldType)
         (greetingSize : GreetingSize) (includeChallengeLevelSubheading : bool)
         (randomMobs : list string),
    generateRegionYAML toString_other (TestVale id challengeLevel hasSpawn)
      includeVillages false true worldType true false greetingSize
      includeChallengeLevelSubheading randomMobs
    = ("  test_vale:" ++ Str.nl
         ++ "    type: poly2d" ++ Str.nl
         ++ "    min-y: -64" ++ Str.nl
         ++ "    max-y: 320" ++ Str.nl
         ++ "    priority: 0" ++ Str.nl
         ++ "    flags:" ++ Str.nl
         ++ "      {passthrough: allow}" ++ Str.nl
         ++ "    points:" ++ Str.nl
         ++ "      - {x: 0, z: 0}" ++ Str.nl
         ++ "      - {x: 10, z: 0}" ++ Str.nl
         ++ "      - {x: 10, z: 10}" ++ Str.nl
         ++ "      - {x: 0, z: 10}" ++ Str.nl
         ++ Str.nl
         ++ "  heart_of_test_vale:" ++ Str.nl
         ++ "    type: cuboid" ++ Str.nl
         ++ "    min: {x: 2, y: -64, z: 2}" ++ Str.nl
         ++ "    max: {x: 8, y: 320, z: 8}" ++ Str.nl
         ++ "    members: {}" ++ Str.nl
         ++ "    owners: {}" ++ Str.nl
         ++ "    flags: {build: deny, interact: allow, creeper-explosion: deny, other-explosion: deny, tnt: deny}" ++ Str.nl
         ++ "    priority: 10")%string
    /\ calculateRegionCenter (TestVale id challengeLevel hasSpawn) = mkPoint 5%float 5%float.
Proof.
  intros. split; vm_compute; reflexivity.
Qed.

(** ** The achievements export *)

Lemma village_step_cases (st : Achievements.state) (s : Subregion.t) :
  (is_village s = true /\ exists a, Achievements.village_step st s = Achievements.emit a st)
  \/ (is_village s = false /\ Achievements.village_step st s = st).
Proof.
  unfold Achievements.village_step, is_village.
  destruct (String.eqb (Subregion.type s) "village").
  - left. split; [reflexivity|]. eexists. reflexivity.
  - right. split; reflexivity.
Qed.

Lemma achievements_villages (subregions : list Subregion.t) :
  forall st : Achievements.state,
    let st' := fold_left Achievements.village_step subregions st in
    length (fst st') = length (fst st) + length (filter is_village subregions)
    /\ snd st' = snd st + length (filter is_village subregions).
Proof.
  induction subregions as [|s subregions IH]; intros st; cbn [fold_left filter].
  - cbv zeta. cbn [length]. lia.
  - destruct (village_step_cases st s) as [[E [a Ha]]|[E Hs]]; rewrite E.
    + rewrite Ha. specialize (IH (Achievements.emit a st)). cbv zeta in IH |- *.
      unfold Achievements.emit in IH at 2 4. cbn [fst snd] in IH.
      rewrite length_app in IH. cbn [length] in IH |- *. lia.
    + rewrite Hs. apply IH.
Qed.

Lemma achievements_region (worldType : option WorldType) (st : Achievements.state)
      (region : Region.t) :
  let st' := Achievements.region_step worldType st region in
  length (fst st') = length (fst st) + 2 + length (villages region)
  /\ snd st' = snd st + 2 + length (villages region).
Proof.
  unfold Achievements.region_step, villages.
  match goal with
  | |- context [match Region.subregions region with _ => _ end] =>
      destruct (Region.subregions region) as [[|s subregions]|]
  end.
  - cbv zeta. unfold Achievements.emit. cbn [fst snd filter length].
    rewrite !length_app. cbn [length]. lia.
  - match goal with
    | |- context [fold_left Achievements.village_step ?l ?st0] =>
        pose proof (achievements_villages l st0) as H
    end.
    cbv zeta in H |- *. fold is_village.
    destruct H as [H1 H2]. rewrite H1, H2.
    unfold Achievements.emit. cbn [fst snd].
    rewrite !length_app. cbn [length]. lia.
  - cbv zeta. unfold Achievements.emit. cbn [fst snd filter length].
    rewrite !length_app. cbn [length]. lia.
Qed.

Lemma achievements_run (worldType : option WorldType) (regions : list Region.t) :
  forall st : Achievements.state,
    let st' := fold_left (Achievements.region_step worldType) regions st in
    length (fst st')
    = length (fst st) + 2 * length regions + length (flat_map villages regions)
    /\ snd st' = snd st + 2 * length regions + length (flat_map villages regions).
Proof.
  induction regions as [|region regions IH]; intros st; cbn [fold_left flat_map].
  - cbv zeta. cbn [length]. lia.
  - specialize (IH (Achievements.region_step worldType st region)).
    pose proof (achievements_region worldType st region) as H.
    cbv zeta in IH, H |- *. rewrite length_app. cbn [length]. lia.
Qed.

Lemma achievements_villages_exact (subregions : list Subregion.t) :
  forall st : Achievements.state,
    fold_left Achievements.village_step subregions st
    = (fst st
         ++ map (fun village =>
                   mkAchievement
                     ("discover" ++ Str.replace_spaces "" (Subregion.name village))
                     ("Discover " ++ Subregion.name village ++ " Village")
                     ("You discovered the village of " ++ Subregion.name village)
                     ("discover_"
                        ++ Str.replace_spaces "_"
                             (Str.toLowerCase (Subregion.name village)))
                     "Village Discovery"
                     "normal")%string
                (filter is_village subregions),
       snd st + length (filter is_village subregions)).
Proof.
  induction subregions as [|s subregions IH]; intros [entries n]; cbn [fold_left filter].
  - cbn [map length fst snd]. rewrite app_nil_r, Nat.add_0_r. reflexivity.
  - rewrite IH. unfold Achievements.village_step, is_village.
    destruct (String.eqb (Subregion.type s) "village").
    + cbv zeta. cbn [Achievements.emit fst snd map length].
      rewrite <- app_assoc. cbn [app]. f_equal. lia.
    + reflexivity.
Qed.

Lemma achievements_region_exact (worldType : option WorldType) (st : Achievements.state)
      (region : Region.t) :
  Achievements.region_step worldType st region
  = (fst st ++ region_entries worldType region, snd st + length (region_entries worldType region)).
Proof.
  unfold Achievements.region_step, region_entries, villages. cbv zeta.
  destruct st as [entries n].
  destruct (Region.subregions region) as [[|s subregions]|].
  - unfold Achievements.emit. cbn [fst snd filter map length].
    rewrite <- app_assoc. cbn [app]. f_equal. lia.
  - rewrite achievements_villages_exact. unfold Achievements.emit. cbn [fst snd length].
    rewrite <- !app_assoc. cbn [app]. rewrite !length_map. f_equal. lia.
  - unfold Achievements.emit. cbn [fst snd map length].
    rewrite <- app_assoc. cbn [app]. f_equal. lia.
Qed.

Lemma achievements_run_exact (worldType : option WorldType) (regions : list Region.t) :
  forall st : Achievements.state,
    fold_left (Achievements.region_step worldType) regions st
    = (fst st ++ flat_map (region_entries worldType) regions,
       snd st + length (flat_map (region_entries worldType) regions)).
Proof.
  induction regions as [|region regions IH]; intros st; cbn [fold_left flat_map].
  - cbn [length]. rewrite app_nil_r, Nat.add_0_r. destruct st; reflexivity.
  - rewrite IH, achievements_region_exact. cbn [fst snd].
    rewrite <- app_assoc, length_app. f_equal. lia.
Qed.

Lemma region_entries_length (worldType : option WorldType) (regions : list Region.t) :
  length (flat_map (region_entries worldType) regions)
  = 2 * length regions + length (flat_map villages regions).
Proof.
  induction regions as [|region regions IH]; [reflexivity|].
  cbn [flat_map]. rewrite !length_app, IH. unfold region_entries. cbv zeta.
  cbn [length]. rewrite length_map. lia.
Qed.

(** C8.  For a non-empty collection the achievements export offers
    [achievements.yml]: after the header, for each region in turn, the
    entry of its discovery, the entry of the discovery of its heart, and
    one entry for each of its village subregions, each entry on its six
    lines.  The count it reports is the number of these entries, two for
    each region and one for each village: four for two regions without
    villages, five for two regions with one village. *)
Theorem generateAchievementsYAML_count (regions : list Region.t)
        (worldType : option WorldType) :
  regions <> [] ->
  let entries := flat_map (region_entries worldType) regions in
  generateAchievementsYAML regions worldType
  = mkExport
      (Some ("achievements.yml",
             "Commands:" ++ Str.nl ++ String.concat "" (map entry_lines entries)))%string
      (Some ("Generated " ++ Str.of_nat (length entries) ++ " achievements", success))%string
  /\ length entries = 2 * length regions + length (flat_map villages regions)
  /\ (length regions = 2 -> length (flat_map villages regions) = 0 -> length entries = 4)
  /\ (length regions = 2 -> length (flat_map villages regions) = 1 -> length entries = 5).
Proof.
  intros Hne entries.
  assert (Hlen : length entries = 2 * length regions + length (flat_map villages regions))
    by apply region_entries_length.
  split; [|split; [exact Hlen|split; intros; lia]].
  unfold generateAchievementsYAML.
  destruct regions as [|r regions]; [contradiction|].
  change ((length (r :: regions) =? 0)%nat) with false. cbv iota.
  unfold Achievements.run. rewrite achievements_run_exact. cbn [fst snd app Nat.add].
  fold entries. reflexivity.
Qed.

(** The export of two regions, one of them with a village. *)
Lemma generateAchievementsYAML_count_witness :
  twoRegions <> []
  /\ generateAchievementsYAML twoRegions None
     = mkExport
         (Some ("achievements.yml",
                "Commands:" ++ Str.nl
                  ++ "  discoverNorthVale:" ++ Str.nl
                  ++ "    Goal: Discover North Vale Region" ++ Str.nl
                  ++ "    Message: You discovered the region of North Vale" ++ Str.nl
                  ++ "    Name: discover_north_vale" ++ Str.nl
                  ++ "    DisplayName: Region Discovery" ++ Str.nl
                  ++ "    Type: normal" ++ Str.nl
                  ++ "  discoverHeartOfNorthVale:" ++ Str.nl
                  ++ "    Goal: Discover the Heart of North Vale" ++ Str.nl
                  ++ "    Message: You discovered the Heart of North Vale" ++ Str.nl
                  ++ "    Name: discover_heart_of_north_vale" ++ Str.nl
                  ++ "    DisplayName: Heart Discovery" ++ Str.nl
                  ++ "    Type: normal" ++ Str.nl
                  ++ "  discoverOakham:" ++ Str.nl
                  ++ "    Goal: Discover Oakham Village" ++ Str.nl
                  ++ "    Message: You discovered the village of Oakham" ++ Str.nl
                  ++ "    Name: discover_oakham" ++ Str.nl
                  ++ "    DisplayName: Village Discovery" ++ Str.nl
                  ++ "    Type: normal" ++ Str.nl
                  ++ "  discoverSouthVale:" ++ Str.nl
                  ++ "    Goal: Discover South Vale Region" ++ Str.nl
                  ++ "    Message: You discovered the region of South Vale" ++ Str.nl
                  ++ "    Name: discover_south_vale" ++ Str.nl
                  ++ "    DisplayName: Region Discovery" ++ Str.nl
                  ++ "    Type: normal" ++ Str.nl
                  ++ "  discoverHeartOfSouthVale:" ++ Str.nl
                  ++ "    Goal: Discover the Heart of South Vale" ++ Str.nl
                  ++ "    Message: You discovered the Heart of South Vale" ++ Str.nl
                  ++ "    Name: discover_heart_of_south_vale" ++ Str.nl
                  ++ "    DisplayName: Heart Discovery" ++ Str.nl
                  ++ "    Type: normal" ++ Str.nl))%string
         (Some ("Generated 5 achievements", success))%string.
Proof.
  assert (H : twoRegions <> []) by (unfold twoRegions; discriminate).
  split; [exact H|].
  exact (proj1 (@generateAchievementsYAML_count twoRegions None H)).
Defined.

(** ** The LevelledMobs rules export *)

(** The rule the loop over the regions emits for a region of the given
    challenge level. *)
Lemma challenge_step_set (st : LevelledMobs.state) (region : Region.t) (level : ChallengeLevel) :
  Region.challengeLevel region = Some level ->
  LevelledMobs.challenge_step st region
  = LevelledMobs.emit
      (mkRule None
         (Region.name region ++ " - " ++ ChallengeLevel_string level ++ " Challenge")
         ("challenge-" ++ Str.toLowerCase (ChallengeLevel_string level))
         (OneRegion (Str.replace_spaces "_" (Str.toLowerCase (Region.name region)))))%string
      st.
Proof.
  intros H. unfold LevelledMobs.challenge_step. rewrite H. reflexivity.
Qed.

Lemma challenge_step_unset (st : LevelledMobs.state) (region : Region.t) :
  Region.challengeLevel region = None ->
  LevelledMobs.challenge_step st region = st.
Proof.
  intros H. unfold LevelledMobs.challenge_step. rewrite H. reflexivity.
Qed.

Lemma challenge_rules_fold (regions : list Region.t) :
  forall st : LevelledMobs.state,
    fold_left LevelledMobs.challenge_step regions st
    = ((fst st
          ++ flat_map
               (fun region =>
                  match Region.challengeLevel region with
                  | Some level =>
                      [mkRule None
                         (Region.name region ++ " - " ++ ChallengeLevel_string level
                            ++ " Challenge")
                         ("challenge-" ++ Str.toLowerCase (ChallengeLevel_string level))
                         (OneRegion
                            (Str.replace_spaces "_" (Str.toLowerCase (Region.name region))))]%string
                  | None => []
                  end)
               regions)%list,
       snd st
       + length (filter (fun region =>
                           match Region.challengeLevel region with
                           | Some _ => true
                           | None => false
                           end) regions)).
Proof.
  induction regions as [|region regions IH]; intros [rules n]; cbn [fold_left flat_map filter].
  - cbn [fst snd length]. rewrite app_nil_r, Nat.add_0_r. reflexivity.
  - destruct (Region.challengeLevel region) as [level|] eqn:E.
    + rewrite (challenge_step_set _ _ E). rewrite IH.
      unfold LevelledMobs.emit. cbn [fst snd length].
      rewrite <- app_assoc. f_equal. lia.
    + rewrite (challenge_step_unset _ _ E). rewrite IH. reflexivity.
Qed.

(** C2, as stated, fails: a region whose challenge level is Vanilla gets a
    challenge-preset rule, with the preset [challenge-vanilla]. *)
Lemma vanilla_region_gets_a_rule :
  LevelledMobs.challenge_rules [TestVale "r1" (Some Vanilla) None] 0
  = ([mkRule None "Test Vale - Vanilla Challenge" "challenge-vanilla"
        (OneRegion "test_vale")], 1)%string
  /\ generateLevelledMobsRulesYAML [TestVale "r1" (Some Vanilla) None] "world" false None
       "2025-01-01T00:00:00.000Z"
     = mkExport
         (Some ("world-rules.yml",
                "# LevelledMobs Rules Configuration" ++ Str.nl
                  ++ "# Generated for world: world" ++ Str.nl
                  ++ "# Generated on: 2025-01-01T00:00:00.000Z" ++ Str.nl ++ Str.nl
                  ++ "# Heart regions rule" ++ Str.nl
                  ++ "- custom-rule: 'Disable Leveling in Heart Regions'" ++ Str.nl
                  ++ "  is-enabled: true" ++ Str.nl
                  ++ "  use-preset: challenge-vanilla" ++ Str.nl
                  ++ "  conditions:" ++ Str.nl
                  ++ "    worlds: 'world'" ++ Str.nl
                  ++ "    worldguard-regions:" ++ Str.nl
                  ++ "      - 'heart_of_test_vale'" ++ Str.nl ++ Str.nl
                  ++ "# Region-specific challenge presets" ++ Str.nl
                  ++ "- custom-rule: 'Test Vale - Vanilla Challenge'" ++ Str.nl
                  ++ "  is-enabled: true" ++ Str.nl
                  ++ "  use-preset: challenge-vanilla" ++ Str.nl
                  ++ "  conditions:" ++ Str.nl
                  ++ "    worlds: 'world'" ++ Str.nl
                  ++ "    worldguard-regions: 'test_vale'" ++ Str.nl ++ Str.nl))%string
         (Some ("Generated 2 LevelledMobs rules", success))%string.
Proof. split; vm_compute; reflexivity. Qed.

(** C2, amended.  The challenge-preset rules of the export are, in the
    order of the regions, one rule for each region that has a challenge
    level set, whichever level it is, Vanilla included: the rule is named
    after the region and the level, uses the preset [challenge-<level>] and
    names the region's WorldGuard key.  A region with no challenge level set
    contributes no rule, and the rule count grows by one for each rule. *)
Theorem challenge_rules_for_set_levels :
  forall (regions : list Region.t) (worldName : string) (hasSpawnCoordinates : bool)
         (worldType : option WorldType) (now : string),
    let presets :=
      flat_map
        (fun region =>
           match Region.challengeLevel region with
           | Some level =>
               [mkRule None
                  (Region.name region ++ " - " ++ ChallengeLevel_string level ++ " Challenge")
                  ("challenge-" ++ Str.toLowerCase (ChallengeLevel_string level))
                  (OneRegion
                     (Str.replace_spaces "_" (Str.toLowerCase (Region.name region))))]%string
           | None => []
           end)
        regions in
    (forall n, LevelledMobs.challenge_rules regions n = (presets, n + length presets))
    /\ length presets
       = length (filter (fun region =>
                           match Region.challengeLevel region with
                           | Some _ => true
                           | None => false
                           end) regions)
    /\ ((length regions =? 0)%nat && negb hasSpawnCoordinates = false ->
        generateLevelledMobsRulesYAML regions worldName hasSpawnCoordinates worldType now
        = mkExport
            (Some (worldName ++ "-rules.yml",
                   "# LevelledMobs Rules Configuration" ++ Str.nl
                     ++ "# Generated for world: " ++ worldName ++ Str.nl
                     ++ "# Generated on: " ++ now ++ Str.nl ++ Str.nl
                     ++ String.concat ""
                          (map LevelledMobs.render
                             (fst (LevelledMobs.fixed_rules regions hasSpawnCoordinates)))
                     ++ "# Region-specific challenge presets" ++ Str.nl
                     ++ String.concat "" (map LevelledMobs.render presets)))%string
            (Some ("Generated "
                     ++ Str.of_nat
                          (snd (LevelledMobs.fixed_rules regions hasSpawnCoordinates)
                           + length presets)
                     ++ " LevelledMobs rules", success))%string).
Proof.
  intros regions worldName hasSpawnCoordinates worldType now presets.
  assert (Hlen : length presets
                 = length (filter (fun region =>
                                     match Region.challengeLevel region with
                                     | Some _ => true
                                     | None => false
                                     end) regions)).
  { subst presets. induction regions as [|region regions IH]; [reflexivity|].
    cbn [flat_map filter]. rewrite length_app, IH.
    destruct (Region.challengeLevel region); reflexivity. }
  assert (Hrules : forall n, LevelledMobs.challenge_rules regions n
                             = (presets, n + length presets)).
  { intros n. unfold LevelledMobs.challenge_rules. rewrite challenge_rules_fold.
    cbn [fst snd app]. rewrite Hlen. reflexivity. }
  split; [exact Hrules|]. split; [exact Hlen|].
  intros Hne. unfold generateLevelledMobsRulesYAML. rewrite Hne.
  destruct (LevelledMobs.fixed_rules regions hasSpawnCoordinates) as [fixed n].
  rewrite Hrules. reflexivity.
Qed.

(** ** The project import *)

Lemma lookup_assign (key : string) (v : json) (fields : list (string * json)) :
  Json.lookup key (Json.assign key v fields) = Some v.
Proof.
  induction fields as [|[k w] fields IH]; simpl.
  - rewrite String.eqb_refl. reflexivity.
  - destruct (String.eqb k key) eqn:E; simpl; rewrite E; [reflexivity|exact IH].
Qed.

(** The import rejects a document exactly when one of [version], [regions]
    and [mapState] is missing or falsy. *)
Lemma importMapData_parsed_rejects (data : json) :
  Json.truthy (Json.field data "version")
  && Json.truthy (Json.field data "regions")
  && Json.truthy (Json.field data "mapState") = false ->
  importMapData_parsed data = Rejected "Failed to parse import file".
Proof.
  intros H. unfold importMapData_parsed, importMapData_checks.
  destruct data as [| b | n | s | items | fields]; try reflexivity.
  cbn [Json.get Json.field bind] in *.
  destruct (Json.truthy (Json.lookup "version" fields)),
           (Json.truthy (Json.lookup "regions" fields)),
           (Json.truthy (Json.lookup "mapState" fields));
    try discriminate; reflexivity.
Qed.

Lemma importMapData_parsed_accepts (fields : list (string * json)) :
  Json.truthy (Json.lookup "version" fields)
  && Json.truthy (Json.lookup "regions" fields)
  && Json.truthy (Json.lookup "mapState" fields) = true ->
  importMapData_parsed (JObject fields)
  = Resolved
      (JObject
         (if Json.truthy (Json.lookup "worldName" fields) then fields
          else Json.assign "worldName" (JString "world") fields)).
Proof.
  intros H. unfold importMapData_parsed, importMapData_checks.
  cbn [Json.get Json.field bind].
  apply andb_prop in H. destruct H as [H H3]. apply andb_prop in H. destruct H as [H1 H2].
  rewrite H1, H2, H3. cbn [negb orb].
  destruct (Json.truthy (Json.lookup "worldName" fields)); reflexivity.
Qed.

(** C3, as stated, fails: a document whose [regions] is a string, whose
    [mapState] is a number and which has no [exportDate] is accepted. *)
Lemma importMapData_accepts_loose_document :
  importMapData_parsed looseDocument
  = Resolved
      (JObject [("version", JString "1.0.0"); ("regions", JString "none");
                ("mapState", JNumber 1); ("worldName", JString "world")])%string
  /\ validateImportData looseDocument = false.
Proof. split; vm_compute; reflexivity. Qed.

(** C3, amended.  The import is rejected when the file cannot be read or
    parsed, and when the parsed document lacks [version], [regions] or
    [mapState] (a falsy value counts as lacking).  Every other document is
    accepted, whatever the types of [regions] and [mapState] and whether or
    not there is an [exportDate]: the document is returned as it is, except
    that [worldName], when it is lacking, is set to "world". *)
Theorem importMapData_presence_checks :
  (forall JSON_parse, importMapData JSON_parse ReadError = Rejected "Failed to read import file")
  /\ (forall JSON_parse content,
         JSON_parse content = None ->
         importMapData JSON_parse (Loaded content) = Rejected "Failed to parse import file")
  /\ (forall JSON_parse content data,
         JSON_parse content = Some data ->
         Json.truthy (Json.field data "version")
         && Json.truthy (Json.field data "regions")
         && Json.truthy (Json.field data "mapState") = false ->
         importMapData JSON_parse (Loaded content) = Rejected "Failed to parse import file")
  /\ (forall JSON_parse content data,
         JSON_parse content = Some data ->
         Json.truthy (Json.field data "version")
         && Json.truthy (Json.field data "regions")
         && Json.truthy (Json.field data "mapState") = true ->
         exists fields,
           data = JObject fields
           /\ importMapData JSON_parse (Loaded content)
              = Resolved
                  (JObject
                     (if Json.truthy (Json.lookup "worldName" fields) then fields
                      else Json.assign "worldName" (JString "world") fields))
           /\ (Json.truthy (Json.lookup "worldName" fields) = false ->
               Json.lookup "worldName"
                 (Json.assign "worldName" (JString "world") fields)
               = Some (JString "world"))).
Proof.
  split; [|split; [|split]].
  - reflexivity.
  - intros JSON_parse content H. simpl. rewrite H. reflexivity.
  - intros JSON_parse content data Hp H. simpl. rewrite Hp.
    apply importMapData_parsed_rejects. exact H.
  - intros JSON_parse content data Hp H.
    destruct data as [| b | n | s | items | fields]; try discriminate H.
    exists fields. split; [reflexivity|]. split.
    + simpl. rewrite Hp. apply importMapData_parsed_accepts. exact H.
    + intros _. apply lookup_assign.
Qed.

(** ** The spawn check box *)

Lemma set_hasSpawn_id (v : bool) (region : Region.t) :
  Region.id (set_hasSpawn v region) = Region.id region.
Proof. reflexivity. Qed.

Lemma set_hasSpawn_twice (v w : bool) (region : Region.t) :
  set_hasSpawn v (set_hasSpawn w region) = set_hasSpawn v region.
Proof. reflexivity. Qed.

Lemma cleared_id (regionId : string) (seen : list Region.t) (region : Region.t) :
  Region.id (cleared regionId seen region) = Region.id region.
Proof. unfold cleared. destruct (existsb _ seen); reflexivity. Qed.

Lemma cleared_set_false (regionId : string) (seen : list Region.t) (region : Region.t) :
  cleared regionId seen (set_hasSpawn false region) = set_hasSpawn false region.
Proof. unfold cleared. destruct (existsb _ seen); reflexivity. Qed.

(** The loop of the handler clears, in the store, the regions that share
    their id with a region walked that had the spawn and is not the selected
    one. *)
Lemma clear_loop (regionId : string) (seen : list Region.t) :
  forall store : list Region.t,
    fold_left
      (fun store region =>
         if negb (String.eqb (Region.id region) regionId) && truthy (Region.hasSpawn region)
         then updateRegion (Region.id region) (set_hasSpawn false) store
         else store)
      seen store
    = map (cleared regionId seen) store.
Proof.
  induction seen as [|s seen IH]; intros store; cbn [fold_left].
  - unfold cleared. cbn [existsb]. symmetry. apply map_id.
  - rewrite IH.
    destruct (negb (String.eqb (Region.id s) regionId) && truthy (Region.hasSpawn s)) eqn:E.
    + unfold updateRegion. rewrite map_map. apply map_ext. intros r.
      unfold cleared at 2. cbn [existsb]. rewrite E, andb_true_r.
      rewrite (String.eqb_sym (Region.id s) (Region.id r)).
      destruct (String.eqb (Region.id r) (Region.id s)); cbn [orb].
      * apply cleared_set_false.
      * reflexivity.
    + apply map_ext. intros r. unfold cleared. cbn [existsb].
      rewrite E, andb_false_r. reflexivity.
Qed.

(** Where the handler leaves each region when the box is checked. *)
Lemma onChangeHasSpawn_checked (regionId : string) (regions : list Region.t) :
  onChangeHasSpawn true regionId regions
  = map (fun r =>
           if String.eqb (Region.id r) regionId
           then set_hasSpawn true r
           else cleared regionId regions r)
        regions.
Proof.
  unfold onChangeHasSpawn. rewrite clear_loop. unfold updateRegion.
  rewrite map_map. apply map_ext. intros r. rewrite cleared_id.
  destruct (String.eqb (Region.id r) regionId); [|reflexivity].
  unfold cleared. destruct (existsb _ regions); reflexivity.
Qed.

Lemma cleared_has_no_spawn (regionId : string) (regions : list Region.t) (r : Region.t) :
  In r regions ->
  String.eqb (Region.id r) regionId = false ->
  has_spawn (cleared regionId regions r) = false.
Proof.
  intros Hin Hid. unfold cleared.
  destruct (existsb _ regions) eqn:E; [reflexivity|].
  destruct (has_spawn r) eqn:Hs; [|reflexivity].
  exfalso. assert (Hex : existsb
                           (fun r0 => String.eqb (Region.id r0) (Region.id r)
                                      && (negb (String.eqb (Region.id r0) regionId)
                                          && truthy (Region.hasSpawn r0)))
                           regions = true).
  { apply existsb_exists. exists r. split; [exact Hin|].
    rewrite String.eqb_refl, Hid. exact Hs. }
  rewrite Hex in E. discriminate.
Qed.

Lemma filter_none {A : Type} (p : A -> bool) (l : list A) :
  (forall a, In a l -> p a = false) -> filter p l = [].
Proof.
  induction l as [|a l IH]; intros H; [reflexivity|].
  cbn [filter]. rewrite (H a (or_introl eq_refl)).
  apply IH. intros b Hb. apply H. right. exact Hb.
Qed.

Lemma filter_unique_id (regions : list Region.t) (B : Region.t) :
  NoDup (map Region.id regions) -> In B regions ->
  filter (fun r => String.eqb (Region.id r) (Region.id B)) regions = [B].
Proof.
  induction regions as [|r regions IH]; intros Hnd Hin; [contradiction|].
  cbn [map] in Hnd. inversion Hnd as [|i ids Hni Hnd']; subst.
  cbn [filter]. destruct Hin as [Heq|Hin].
  - subst r. rewrite String.eqb_refl. f_equal.
    apply filter_none. intros r Hr.
    destruct (String.eqb (Region.id r) (Region.id B)) eqn:E; [|reflexivity].
    apply String.eqb_eq in E. exfalso. apply Hni. rewrite <- E.
    apply in_map. exact Hr.
  - destruct (String.eqb (Region.id r) (Region.id B)) eqn:E.
    + apply String.eqb_eq in E. exfalso. apply Hni. rewrite E.
      apply in_map. exact Hin.
    + apply IH; assumption.
Qed.

Lemma filter_map_pointwise {A B : Type} (p : B -> bool) (q : A -> bool) (f : A -> B)
      (l : list A) :
  (forall a, In a l -> p (f a) = q a) ->
  filter p (map f l) = map f (filter q l).
Proof.
  induction l as [|a l IH]; intros H; [reflexivity|].
  cbn [map filter]. rewrite (H a (or_introl eq_refl)).
  rewrite IH by (intros b Hb; apply H; right; exact Hb).
  destruct (q a); reflexivity.
Qed.

Lemma filter_map_le {A B : Type} (p : B -> bool) (q : A -> bool) (f : A -> B)
      (l : list A) :
  (forall a, p (f a) = true -> q a = true) ->
  length (filter p (map f l)) <= length (filter q l).
Proof.
  intros H. induction l as [|a l IH]; [apply Nat.le_refl|].
  cbn [map filter]. destruct (p (f a)) eqn:E.
  - rewrite (H a E). cbn [length]. lia.
  - destruct (q a); cbn [length]; lia.
Qed.

(** C5.  In a collection with unique ids where a region [A] has the spawn,
    checking the box for another region [B] leaves exactly one region with
    the spawn, namely [B]; the ids are as before and [A] has lost the spawn.
    So a collection with at most one spawn region has at most one after the
    handler, whether the box was checked or unchecked. *)
Theorem spawn_checkbox_exclusive (regions : list Region.t) (A B : Region.t) :
  NoDup (map Region.id regions) ->
  In A regions -> In B regions ->
  Region.id A <> Region.id B ->
  has_spawn A = true ->
  let after := onChangeHasSpawn true (Region.id B) regions in
  filter has_spawn after = [set_hasSpawn true B]
  /\ length (filter has_spawn after) = 1
  /\ map Region.id after = map Region.id regions
  /\ (exists A', In A' after /\ Region.id A' = Region.id A /\ has_spawn A' = false)
  /\ (forall checked,
        length (filter has_spawn regions) <= 1 ->
        length (filter has_spawn (onChangeHasSpawn checked (Region.id B) regions)) <= 1).
Proof.
  intros Hnd HA HB Hne HsA after.
  assert (Hafter : filter has_spawn after = [set_hasSpawn true B]).
  { subst after. rewrite onChangeHasSpawn_checked.
    rewrite (filter_map_pointwise has_spawn
               (fun r => String.eqb (Region.id r) (Region.id B))).
    - rewrite (filter_unique_id regions B Hnd HB). cbn [map].
      rewrite String.eqb_refl. reflexivity.
    - intros r Hr. destruct (String.eqb (Region.id r) (Region.id B)) eqn:E.
      + reflexivity.
      + apply cleared_has_no_spawn; assumption. }
  split; [exact Hafter|]. split; [rewrite Hafter; reflexivity|]. split; [|split].
  - subst after. rewrite onChangeHasSpawn_checked. rewrite map_map.
    apply map_ext. intros r.
    destruct (String.eqb (Region.id r) (Region.id B)); [reflexivity|apply cleared_id].
  - assert (E : String.eqb (Region.id A) (Region.id B) = false)
      by (apply String.eqb_neq; exact Hne).
    exists (cleared (Region.id B) regions A). split; [|split].
    + subst after. rewrite onChangeHasSpawn_checked. apply in_map_iff.
      exists A. rewrite E. split; [reflexivity|exact HA].
    + apply cleared_id.
    + apply cleared_has_no_spawn; assumption.
  - intros [|] Hone.
    + fold after. rewrite Hafter. cbn [length]. lia.
    + unfold onChangeHasSpawn, updateRegion.
      eapply Nat.le_trans; [|exact Hone].
      apply filter_map_le. intros r.
      destruct (String.eqb (Region.id r) (Region.id B)); [discriminate|auto].
Qed.

(** Two regions, the first with the spawn: checking the box of the second. *)
Lemma spawn_checkbox_exclusive_witness :
  let A := nth 0 twoRegions (TestVale "" None None) in
  let B := nth 1 twoRegions (TestVale "" None None) in
  let after := onChangeHasSpawn true (Region.id B) twoRegions in
  filter has_spawn after = [set_hasSpawn true B]
  /\ length (filter has_spawn after) = 1
  /\ map Region.id after = map Region.id twoRegions
  /\ (exists A', In A' after /\ Region.id A' = Region.id A /\ has_spawn A' = false)
  /\ (forall checked,
        length (filter has_spawn twoRegions) <= 1 ->
        length (filter has_spawn (onChangeHasSpawn checked (Region.id B) twoRegions)) <= 1).
Proof.
  apply (@spawn_checkbox_exclusive twoRegions
           (nth 0 twoRegions (TestVale "" None None))
           (nth 1 twoRegions (TestVale "" None None))).
  - repeat constructor; simpl; intuition discriminate.
  - simpl. left. reflexivity.
  - simpl. right. left. reflexivity.
  - simpl. discriminate.
  - reflexivity.
Defined.

(** ** [simplifyPolygonVertices] *)

Lemma arr_set_nth (keep : list bool) (j i : nat) (v : bool) :
  nth i (arr_set false keep j v) false = if (i =? j)%nat then v else nth i keep false.
Proof.
  revert j i. induction keep as [|h t IH]; intros j i.
  - revert i. induction j as [|j IHj]; intros i; simpl.
    + destruct i as [|[|i]]; reflexivity.
    + destruct i as [|i]; [reflexivity|]. simpl. rewrite IHj.
      destruct (i =? j)%nat; [reflexivity|]. destruct i; reflexivity.
  - destruct j as [|j]; destruct i as [|i]; simpl; try reflexivity. apply IH.
Qed.

Lemma flags_le_refl (a : list bool) : flags_le a a.
Proof. intros i H. exact H. Qed.

Lemma flags_le_trans (a b c : list bool) : flags_le a b -> flags_le b c -> flags_le a c.
Proof. intros H1 H2 i H. apply H2, H1, H. Qed.

Lemma flags_le_set (a b : list bool) (j : nat) :
  flags_le a b -> flags_le (arr_set false a j true) (arr_set false b j true).
Proof.
  intros H i. rewrite !arr_set_nth. destruct (i =? j)%nat; [auto|apply H].
Qed.

Lemma flags_le_set_r (a : list bool) (j : nat) : flags_le a (arr_set false a j true).
Proof.
  intros i H. rewrite arr_set_nth. destruct (i =? j)%nat; [reflexivity|exact H].
Qed.

Lemma filter_index_length_le {A : Type} (f g : nat -> bool) (a : list A) :
  forall i,
    (forall k, f k = true -> g k = true) ->
    length (filter_index f i a) <= length (filter_index g i a).
Proof.
  induction a as [|h t IH]; intros i H; simpl; [lia|].
  specialize (IH (Datatypes.S i) H).
  destruct (f i) eqn:E.
  - rewrite (H i E). simpl. lia.
  - destruct (g i); simpl; lia.
Qed.

Section Simplify.

Context {num : Type} {N : Number num}.

Variable pts : list (Point num).

(** The scan of [rdp] between two vertices of the polygon returns, and the
    index it returns lies strictly between them. *)
Lemma rdp_scan_loop (first last : nat) :
  first < length pts -> last < length pts ->
  forall count start st,
    start + count <= last ->
    exists st',
      for_loop
        (fun i st =>
           let '(maxDist, index) := st in
           p <- arr_get pts i ;;
           a <- arr_get pts first ;;
           b <- arr_get pts last ;;
           let d := perpendicularDistance p a b in
           if nltb maxDist d then Ok (d, Some i) else Ok (maxDist, index))
        start count st = Ok st'
      /\ (snd st' = snd st \/ exists i, snd st' = Some i /\ start <= i < start + count).
Proof.
  intros Hf Hl. induction count as [|count IH]; intros start [maxDist index] Hc.
  - exists (maxDist, index). split; [reflexivity|left; reflexivity].
  - cbn [for_loop]. set (loop := for_loop _) in *.
    destruct (arr_get_lt pts (i := start)) as [p [Hp _]]; [lia|].
    destruct (arr_get_lt pts Hf) as [a [Ha _]].
    destruct (arr_get_lt pts Hl) as [b [Hb _]].
    rewrite Hp, Ha, Hb. cbn [bind]. cbv zeta.
    destruct (nltb maxDist (perpendicularDistance p a b)).
    + cbn [bind].
      destruct (IH (Datatypes.S start) (perpendicularDistance p a b, Some start))
        as [st' [Hst' Hidx]]; [lia|].
      exists st'. split; [exact Hst'|]. right.
      destruct Hidx as [Hsame|[i [Hi Hr]]].
      * exists start. split; [exact Hsame|lia].
      * exists i. split; [exact Hi|lia].
    + cbn [bind].
      destruct (IH (Datatypes.S start) (maxDist, index)) as [st' [Hst' Hidx]]; [lia|].
      exists st'. split; [exact Hst'|].
      destruct Hidx as [Hsame|[i [Hi Hr]]].
      * left. exact Hsame.
      * right. exists i. split; [exact Hi|lia].
Qed.

Lemma rdp_scan_ok (first last : nat) :
  first <= last -> last < length pts ->
  exists maxDist index,
    rdp_scan pts first last = Ok (maxDist, index)
    /\ forall i, index = Some i -> first < i < last.
Proof.
  intros Hfl Hl. unfold rdp_scan.
  assert (Hf : first < length pts) by lia.
  destruct (Nat.eq_dec first last) as [->|Hne].
  { exists (of_nat 0), None. replace (last - (last + 1)) with 0 by lia.
    split; [reflexivity|discriminate]. }
  destruct (@rdp_scan_loop first last Hf Hl (last - (first + 1)) (first + 1)
              (of_nat 0, None)) as [[maxDist index] [Hst Hidx]]; [lia|].
  exists maxDist, index. split; [exact Hst|].
  intros i Hi. cbn [snd] in Hidx. destruct Hidx as [Hnone|[j [Hj Hr]]].
  - congruence.
  - assert (i = j) by congruence. lia.
Qed.

(** [rdp] returns within a budget above the distance of its two ends. *)
Lemma rdp_total (eps : num) :
  forall fuel first last keep,
    first <= last -> last < length pts -> last - first < fuel ->
    exists keep', rdp fuel eps pts first last keep = Ok keep'.
Proof.
  induction fuel as [|fuel IH]; intros first last keep Hfl Hl Hfuel; [lia|].
  cbn [rdp].
  destruct (rdp_scan_ok Hfl Hl) as [maxDist [index [Hscan Hidx]]].
  rewrite Hscan. cbn [bind].
  destruct index as [index|]; [|eexists; reflexivity].
  destruct (nltb eps maxDist); [|eexists; reflexivity].
  pose proof (Hidx index eq_refl) as Hi.
  destruct (IH first index (arr_set false keep index true)) as [keep1 H1]; [lia|lia|lia|].
  rewrite H1. cbn [bind].
  apply IH; lia.
Qed.

(** [rdp] only sets flags. *)
Lemma rdp_extensive (eps : num) :
  forall fuel first last keep keep',
    rdp fuel eps pts first last keep = Ok keep' -> flags_le keep keep'.
Proof.
  induction fuel as [|fuel IH]; intros first last keep keep' H; [discriminate|].
  cbn [rdp] in H.
  destruct (rdp_scan pts first last) as [[maxDist [index|]]| |]; cbn [bind] in H;
    try discriminate.
  - destruct (nltb eps maxDist).
    + destruct (rdp fuel eps pts first index (arr_set false keep index true))
        as [keep1| |] eqn:E1; cbn [bind] in H; try discriminate.
      apply (flags_le_trans (flags_le_set_r keep index)).
      apply (flags_le_trans (IH _ _ _ _ E1)). apply (IH _ _ _ _ H).
    + injection H as <-. apply flags_le_refl.
  - injection H as <-. apply flags_le_refl.
Qed.

(** A larger tolerance sets fewer flags: where the distance exceeds the
    larger tolerance it exceeds the smaller one. *)
Lemma rdp_monotone (eps1 eps2 : num) :
  (forall d, nltb eps2 d = true -> nltb eps1 d = true) ->
  forall fuel first last keep1 keep2 keep1' keep2',
    flags_le keep2 keep1 ->
    rdp fuel eps1 pts first last keep1 = Ok keep1' ->
    rdp fuel eps2 pts first last keep2 = Ok keep2' ->
    flags_le keep2' keep1'.
Proof.
  intros Heps. induction fuel as [|fuel IH];
    intros first last keep1 keep2 keep1' keep2' Hle H1 H2; [discriminate|].
  pose proof (rdp_extensive _ _ _ _ _ H1) as Hext.
  cbn [rdp] in H1, H2.
  destruct (rdp_scan pts first last) as [[maxDist [index|]]| |]; cbn [bind] in H1, H2;
    try discriminate.
  - destruct (nltb eps2 maxDist) eqn:E2.
    + rewrite (Heps _ E2) in H1.
      destruct (rdp fuel eps1 pts first index (arr_set false keep1 index true))
        as [k1| |] eqn:F1; cbn [bind] in H1; try discriminate.
      destruct (rdp fuel eps2 pts first index (arr_set false keep2 index true))
        as [k2| |] eqn:F2; cbn [bind] in H2; try discriminate.
      apply (IH _ _ _ _ _ _ (IH _ _ _ _ _ _ (flags_le_set index Hle) F1 F2) H1 H2).
    + injection H2 as <-. apply (flags_le_trans Hle Hext).
  - injection H1 as <-. injection H2 as <-. exact Hle.
Qed.

End Simplify.

(** *** The order of binary64 *)

Ltac compare_cases :=
  repeat match goal with
  | H : context [Z.compare ?a ?b] |- _ => destruct (Z.compare_spec a b); subst
  | |- context [Z.compare ?a ?b] => destruct (Z.compare_spec a b); subst
  | H : context [Pos.compare_cont Eq ?a ?b] |- _ =>
      change (Pos.compare_cont Eq a b) with (Pos.compare a b) in H
  | |- context [Pos.compare_cont Eq ?a ?b] =>
      change (Pos.compare_cont Eq a b) with (Pos.compare a b)
  | H : context [Pos.compare ?a ?b] |- _ => destruct (Pos.compare_spec a b); subst
  | |- context [Pos.compare ?a ?b] => destruct (Pos.compare_spec a b); subst
  end.

Lemma SFcompare_trans (a b c : spec_float) (o1 o2 : comparison) :
  SFcompare a b = Some o1 -> SFcompare b c = Some o2 ->
  o1 <> Gt -> o2 <> Gt ->
  SFcompare a c = Some (match o1, o2 with Eq, Eq => Eq | _, _ => Lt end).
Proof.
  destruct a as [sa|sa| |sa ma ea], b as [sb|sb| |sb mb eb], c as [sc|sc| |sc mc ec];
    cbn [SFcompare]; intros H1 H2 N1 N2; try discriminate;
    try destruct sa; try destruct sb; try destruct sc;
    cbn [CompOpp] in *;
    try (injection H1 as <-); try (injection H2 as <-); try congruence;
    compare_cases; cbn [CompOpp] in *; try congruence; try lia.
Qed.

Lemma SFcompare_refl_of (a b : spec_float) (o : comparison) :
  SFcompare a b = Some o -> SFcompare a a = Some Eq /\ SFcompare b b = Some Eq.
Proof.
  destruct a as [sa|sa| |sa ma ea], b as [sb|sb| |sb mb eb];
    cbn [SFcompare]; intros H; try discriminate;
    try destruct sa; try destruct sb;
    rewrite ?Z.compare_refl;
    change (Pos.compare_cont Eq) with Pos.compare; rewrite ?Pos.compare_refl;
    split; reflexivity.
Qed.

Lemma float_ltb_Some (a b : float) :
  PrimFloat.ltb a b = true <-> SFcompare (Prim2SF a) (Prim2SF b) = Some Lt.
Proof.
  rewrite FloatAxioms.ltb_spec. unfold SFltb.
  destruct (SFcompare (Prim2SF a) (Prim2SF b)) as [[| |]|]; split; congruence.
Qed.

Lemma float_leb_Some (a b : float) :
  PrimFloat.leb a b = true
  <-> SFcompare (Prim2SF a) (Prim2SF b) = Some Lt
      \/ SFcompare (Prim2SF a) (Prim2SF b) = Some Eq.
Proof.
  rewrite FloatAxioms.leb_spec. unfold SFleb.
  destruct (SFcompare (Prim2SF a) (Prim2SF b)) as [[| |]|]; split;
    try congruence; auto; intros [H|H]; congruence.
Qed.

Lemma float_le_lt_trans (a b c : float) :
  PrimFloat.leb a b = true -> PrimFloat.ltb b c = true -> PrimFloat.ltb a c = true.
Proof.
  rewrite float_leb_Some, !float_ltb_Some. intros [H1|H1] H2.
  - apply (SFcompare_trans _ _ _ H1 H2); discriminate.
  - apply (SFcompare_trans _ _ _ H1 H2); discriminate.
Qed.

Lemma float_lt_le_trans (a b c : float) :
  PrimFloat.ltb a b = true -> PrimFloat.leb b c = true -> PrimFloat.ltb a c = true.
Proof.
  rewrite float_leb_Some, !float_ltb_Some. intros H1 [H2|H2].
  - apply (SFcompare_trans _ _ _ H1 H2); discriminate.
  - apply (SFcompare_trans _ _ _ H1 H2); discriminate.
Qed.

Lemma float_lt_trans (a b c : float) :
  PrimFloat.ltb a b = true -> PrimFloat.ltb b c = true -> PrimFloat.ltb a c = true.
Proof.
  rewrite !float_ltb_Some. intros H1 H2.
  apply (SFcompare_trans _ _ _ H1 H2); discriminate.
Qed.

Lemma float_leb_not_nan (a b : float) :
  PrimFloat.leb a b = true -> PrimFloat.is_nan a = false /\ PrimFloat.is_nan b = false.
Proof.
  rewrite float_leb_Some. unfold PrimFloat.is_nan. rewrite !FloatAxioms.eqb_spec. unfold SFeqb.
  intros [H|H]; destruct (SFcompare_refl_of _ _ H) as [Ha Hb]; rewrite Ha, Hb;
    split; reflexivity.
Qed.

(** [Math.max(0, t)] for a tolerance that is a number. *)
Lemma JS_max_zero (t : float) :
  PrimFloat.is_nan t = false ->
  JS.max 0 t = if PrimFloat.ltb 0 t then t else 0%float.
Proof.
  intros H. unfold JS.max. rewrite H.
  change (PrimFloat.is_nan 0) with false. cbn [orb].
  destruct (PrimFloat.ltb 0 t); [reflexivity|].
  destruct (PrimFloat.ltb t 0); reflexivity.
Qed.

#[export] Instance JS_ToleranceOrder : ToleranceOrder float.
Proof.
  intros t1 t2 d Hle. cbn [nltb nleb Math_max of_nat JSNumber] in *.
  change (JS.of_nat 0) with 0%float.
  destruct (float_leb_not_nan Hle) as [Hn1 Hn2].
  rewrite (@JS_max_zero t1 Hn1), (@JS_max_zero t2 Hn2).
  destruct (PrimFloat.ltb 0 t2) eqn:E2; destruct (PrimFloat.ltb 0 t1) eqn:E1; intros H.
  - exact (float_le_lt_trans Hle H).
  - exact (float_lt_trans E2 H).
  - rewrite (float_lt_le_trans E1 Hle) in E2. discriminate.
  - exact H.
Qed.

#[export] Instance R_ToleranceOrder : ToleranceOrder R.
Proof.
  intros t1 t2 d. cbn [nltb nleb Math_max of_nat RNumber]. unfold Exact.leb, Exact.ltb.
  cbn [INR].
  destruct (Rle_dec t1 t2) as [Hle|]; [|discriminate].
  destruct (Rlt_dec (Rmax 0 t2) d) as [H2|]; [|discriminate].
  destruct (Rlt_dec (Rmax 0 t1) d) as [|H1]; [reflexivity|].
  exfalso. apply H1. revert H2. unfold Rmax.
  destruct (Rle_dec 0 t2), (Rle_dec 0 t1); lra.
Qed.

(** *** The simplification as a whole *)

Lemma filter_index_ends {A : Type} (keep : nat -> bool) (a b : A) (mid : list A) :
  keep 0 = true -> keep (Datatypes.S (length mid)) = true ->
  exists inner, filter_index keep 0 (a :: mid ++ [b]) = a :: inner ++ [b].
Proof.
  intros H0 Hl. exists (filter_index keep 1 mid).
  cbn [filter_index]. rewrite H0. rewrite filter_index_app.
  cbn [filter_index]. replace (1 + length mid) with (Datatypes.S (length mid)) by lia.
  rewrite Hl. reflexivity.
Qed.

Lemma list_ends {A : Type} (l : list A) :
  2 <= length l -> exists a mid b, l = a :: mid ++ [b].
Proof.
  intros H. destruct l as [|a t]; [simpl in H; lia|].
  destruct (exists_last (l := t)) as [mid [b Hb]].
  - intros ->. simpl in H. lia.
  - exists a, mid, b. rewrite Hb. reflexivity.
Qed.

Section SimplifyWhole.

Context {num : Type} {N : Number num}.

(** The flags [rdp] starts from, and those it ends with. *)
Lemma simplify_run (P : list (Point num)) (tolerance : num) :
  3 < length P ->
  exists K,
    rdp (length P) (Math_max (of_nat 0) tolerance) P 0 (length P - 1)
      (arr_set false (arr_set false (repeat false (length P)) 0 true) (length P - 1) true)
    = Ok K
    /\ nth 0 K false = true
    /\ nth (length P - 1) K false = true
    /\ simplifyPolygonVertices P tolerance
       = Ok (if (length (filter_index (fun i => nth i K false) 0 P) <? 3)%nat
             then P
             else filter_index (fun i => nth i K false) 0 P).
Proof.
  intros Hn.
  destruct (@rdp_total num N P (Math_max (of_nat 0) tolerance) (length P) 0 (length P - 1)
              (arr_set false (arr_set false (repeat false (length P)) 0 true)
                 (length P - 1) true))
    as [K HK]; [lia|lia|lia|].
  exists K. split; [exact HK|].
  pose proof (rdp_extensive _ _ _ _ _ _ HK) as Hext.
  split; [|split].
  - apply Hext. rewrite !arr_set_nth.
    destruct (0 =? length P - 1)%nat; reflexivity.
  - apply Hext. rewrite arr_set_nth. rewrite Nat.eqb_refl. reflexivity.
  - unfold simplifyPolygonVertices.
    destruct (length P <=? 3)%nat eqn:E; [apply Nat.leb_le in E; lia|].
    cbv zeta. rewrite HK. cbn [bind].
    destruct (length (filter_index (fun i => nth i K false) 0 P) <? 3)%nat; reflexivity.
Qed.

(** The simplification returns; its result has at least three points or is
    the input; and it begins and ends as the input does. *)
Lemma simplify_shape (P : list (Point num)) (tolerance : num) :
  exists Q,
    simplifyPolygonVertices P tolerance = Ok Q
    /\ (3 <= length Q \/ Q = P)
    /\ hd_error Q = hd_error P
    /\ hd_error (rev Q) = hd_error (rev P).
Proof.
  destruct (Nat.le_gt_cases (length P) 3) as [Hs|Hn].
  - exists P. unfold simplifyPolygonVertices.
    apply Nat.leb_le in Hs. rewrite Hs. repeat split. right. reflexivity.
  - destruct (simplify_run P tolerance Hn) as [K [_ [H0 [Hl Hr]]]].
    rewrite Hr. eexists. split; [reflexivity|].
    destruct (length (filter_index (fun i => nth i K false) 0 P) <? 3)%nat eqn:E.
    + repeat split. right. reflexivity.
    + apply Nat.ltb_ge in E. split; [left; exact E|].
      destruct (list_ends P) as [a [mid [b HP]]]; [lia|].
      assert (Hlen : length P - 1 = Datatypes.S (length mid)).
      { rewrite HP. cbn [length]. rewrite length_app. cbn [length]. lia. }
      rewrite Hlen in Hl.
      destruct (filter_index_ends (fun i => nth i K false) a b mid H0 Hl)
        as [inner Hin].
      rewrite HP at 1 3. rewrite Hin. rewrite HP.
      split; [reflexivity|].
      cbn [rev]. rewrite !rev_app_distr. reflexivity.
Qed.

(** With tolerances in order, the larger one leaves at most as many
    vertices as the smaller one, unless it falls back to the input. *)
Lemma simplify_monotone {T : ToleranceOrder num} (P : list (Point num)) (t1 t2 : num)
      (Q1 Q2 : list (Point num)) :
  nleb t1 t2 = true ->
  simplifyPolygonVertices P t1 = Ok Q1 ->
  simplifyPolygonVertices P t2 = Ok Q2 ->
  length Q2 <= length Q1 \/ Q2 = P.
Proof.
  intros Hle H1 H2.
  destruct (Nat.le_gt_cases (length P) 3) as [Hs|Hn].
  - right. unfold simplifyPolygonVertices in H2.
    apply Nat.leb_le in Hs. rewrite Hs in H2. congruence.
  - destruct (simplify_run P t1 Hn) as [K1 [HK1 [_ [_ Hr1]]]].
    destruct (simplify_run P t2 Hn) as [K2 [HK2 [_ [_ Hr2]]]].
    rewrite Hr1 in H1. rewrite Hr2 in H2.
    injection H1 as <-. injection H2 as <-.
    assert (Hflags : flags_le K2 K1).
    { apply (@rdp_monotone num N P (Math_max (of_nat 0) t1) (Math_max (of_nat 0) t2)
               (fun d => tolerance_order t1 t2 d Hle)
               _ _ _ _ _ _ _ (flags_le_refl _) HK1 HK2). }
    pose proof (filter_index_length_le
                  (fun i => nth i K2 false) (fun i => nth i K1 false) P 0 Hflags) as Hcount.
    destruct (length (filter_index (fun i => nth i K2 false) 0 P) <? 3)%nat eqn:E2;
      [right; reflexivity|].
    apply Nat.ltb_ge in E2. left.
    destruct (length (filter_index (fun i => nth i K1 false) 0 P) <? 3)%nat eqn:E1;
      [apply Nat.ltb_lt in E1; lia|exact Hcount].
Qed.

End SimplifyWhole.

(** C4, as stated, fails on the polygon [(0,0), (1,5), (2,0), (3,0)]: the
    tolerance 1 leaves three vertices, the larger tolerance 10 leaves two
    after the pass, so the input comes back with its four vertices. *)
Lemma simplify_not_monotone :
  PrimFloat.leb 1 10 = true
  /\ simplifyPolygonVertices spike 1%float
     = Ok [mkPoint 0 0; mkPoint 1 5; mkPoint 3 0]%float
  /\ simplifyPolygonVertices spike 10%float = Ok spike
  /\ (length spike <=? 3)%nat = false.
Proof. repeat split; vm_compute; reflexivity. Qed.

(** C4, amended.  On binary64, and on exact arithmetic as well:
    [simplifyPolygonVertices] returns for every input and every tolerance;
    the result has at least three points or is the input itself, and its
    first and last points are those of the input (for every tolerance, 0
    included); and for tolerances [t1 <= t2] the result for [t2] has at most
    as many vertices as the result for [t1], unless the result for [t2] is
    the input itself, which is what the function falls back to when the
    pass leaves fewer than three vertices. *)
Theorem simplifyPolygonVertices_shape_and_order :
  (forall (P : list (Point float)) (tolerance : float),
      exists Q,
        simplifyPolygonVertices P tolerance = Ok Q
        /\ (3 <= length Q \/ Q = P)
        /\ hd_error Q = hd_error P
        /\ hd_error (rev Q) = hd_error (rev P))
  /\ (forall (P : list (Point float)) (t1 t2 : float) (Q1 Q2 : list (Point float)),
         PrimFloat.leb t1 t2 = true ->
         simplifyPolygonVertices P t1 = Ok Q1 ->
         simplifyPolygonVertices P t2 = Ok Q2 ->
         length Q2 <= length Q1 \/ Q2 = P)
  /\ (forall (P : list (Point R)) (tolerance : R),
         exists Q,
           simplifyPolygonVertices P tolerance = Ok Q
           /\ (3 <= length Q \/ Q = P)
           /\ hd_error Q = hd_error P
           /\ hd_error (rev Q) = hd_error (rev P))
  /\ (forall (P : list (Point R)) (t1 t2 : R) (Q1 Q2 : list (Point R)),
         (t1 <= t2)%R ->
         simplifyPolygonVertices P t1 = Ok Q1 ->
         simplifyPolygonVertices P t2 = Ok Q2 ->
         length Q2 <= length Q1 \/ Q2 = P).
Proof.
  split; [|split; [|split]].
  - intros P tolerance. apply simplify_shape.
  - intros P t1 t2 Q1 Q2 Hle. apply (simplify_monotone (T := JS_ToleranceOrder)). exact Hle.
  - intros P tolerance. apply simplify_shape.
  - intros P t1 t2 Q1 Q2 Hle. apply (simplify_monotone (T := R_ToleranceOrder)).
    cbn [nleb RNumber]. unfold Exact.leb.
    destruct (Rle_dec t1 t2); [reflexivity|contradiction].
Qed.

(** ** [findClosestPointOnPolygonEdge] *)

(** A loop whose body returns while an invariant holds returns, and the
    invariant holds at the end. *)
Lemma for_loop_invariant {S : Type} (body : nat -> S -> Exc S) (I : nat -> S -> Prop) :
  forall count start s,
    (forall i s, start <= i < start + count -> I i s ->
                 exists s', body i s = Ok s' /\ I (Datatypes.S i) s') ->
    I start s ->
    exists s', for_loop body start count s = Ok s' /\ I (start + count) s'.
Proof.
  induction count as [|count IH]; intros start s Hbody Hs.
  - exists s. rewrite Nat.add_0_r. split; [reflexivity|exact Hs].
  - destruct (Hbody start s) as [s1 [H1 Hs1]]; [lia|exact Hs|].
    destruct (IH (Datatypes.S start) s1) as [s' [H' Hs']].
    + intros i s0 Hi. apply Hbody. lia.
    + exact Hs1.
    + exists s'. cbn [for_loop]. rewrite H1. cbn [bind].
      split; [exact H'|]. replace (start + Datatypes.S count) with (Datatypes.S start + count) by lia.
      exact Hs'.
Qed.

Section Closest.

Context {num : Type} {N : Number num}.

Lemma closest_step_returns (point : Point num) (polygon : list (Point num)) (i : nat)
      (st : Point num * num) :
  i < length polygon -> exists st', closest_step point polygon i st = Ok st'.
Proof.
  intros Hi. destruct st as [closestPoint minDistance]. unfold closest_step.
  destruct (arr_get_lt polygon Hi) as [p1 [Hp1 _]].
  destruct (arr_get_lt polygon (i := (i + 1) mod length polygon)) as [p2 [Hp2 _]].
  { apply Nat.mod_upper_bound. lia. }
  rewrite Hp1, Hp2. cbn [bind]. cbv zeta.
  repeat match goal with
         | |- context [if ?c then _ else _] => destruct c
         end; eexists; reflexivity.
Qed.

(** The function raises the [TypeError] on the empty polygon and returns a
    point on every other one. *)
Lemma findClosest_domain (point : Point num) (polygon : list (Point num)) :
  (polygon = [] -> findClosestPointOnPolygonEdge point polygon = TypeError)
  /\ (polygon <> [] -> exists r, findClosestPointOnPolygonEdge point polygon = Ok r).
Proof.
  split.
  - intros ->. reflexivity.
  - intros Hne. unfold findClosestPointOnPolygonEdge.
    destruct polygon as [|p0 rest]; [contradiction|].
    change (arr_get (p0 :: rest) 0) with (Ok p0). cbn [bind]. cbv zeta.
    destruct (@for_loop_invariant _ (closest_step point (p0 :: rest)) (fun _ _ => True)
                (length (p0 :: rest)) 0
                (p0, Math_hypot (nsub (x point) (x p0)) (nsub (z point) (z p0))))
      as [st [Hst _]].
    + intros i st Hi _. destruct (@closest_step_returns point (p0 :: rest) i st) as [st' H].
      * lia.
      * exists st'. split; [exact H|exact I].
    + exact I.
    + rewrite Hst. cbn [bind]. eexists. reflexivity.
Qed.

End Closest.

(** *** The closest of the candidates, on any strict order *)

Section ClosestCandidate.

Context {num : Type} {N : Number num} {T : StrictLess num}.

(** One turn of the loop keeps the closest point so far unless the
    candidate of the edge is closer. *)
Lemma closest_step_candidate (point : Point num) (polygon : list (Point num)) (i : nat)
      (cp p1 p2 : Point num) (md : num) :
  edge polygon i p1 p2 ->
  closest_step point polygon i (cp, md)
  = Ok (if nltb (dist_to point (edge_closest point p1 p2)) md
        then (edge_closest point p1 p2, dist_to point (edge_closest point p1 p2))
        else (cp, md)).
Proof.
  intros [H1 H2]. unfold closest_step, arr_get, edge_closest, dist_to.
  rewrite H1, H2. cbn [bind]. cbv zeta.
  destruct (neqb _ (of_nat 0)); cbn [x z];
    match goal with
    | |- context [if ?c then _ else _] => destruct c
    end; reflexivity.
Qed.

Lemma not_less_after (a d m : num) :
  nltb a m = false -> nltb d m = true -> nltb a d = false.
Proof.
  intros Ham Hdm. destruct (nltb a d) eqn:E; [|reflexivity].
  rewrite (@nltb_trans _ _ _ a d m E Hdm) in Ham. discriminate.
Qed.

(** The point returned is the first vertex or the candidate of an edge,
    and neither the first vertex nor the candidate of any edge is closer
    to the query, by the distances the code computes. *)
Lemma findClosest_candidate (point : Point num) (polygon : list (Point num)) :
  polygon <> [] ->
  exists r,
    findClosestPointOnPolygonEdge point polygon = Ok r
    /\ (hd_error polygon = Some r
        \/ exists i p1 p2, edge polygon i p1 p2 /\ r = edge_closest point p1 p2)
    /\ (forall p0, hd_error polygon = Some p0 ->
                   nltb (dist_to point p0) (dist_to point r) = false)
    /\ (forall i p1 p2,
          edge polygon i p1 p2 ->
          nltb (dist_to point (edge_closest point p1 p2)) (dist_to point r) = false).
Proof.
  intros Hne. unfold findClosestPointOnPolygonEdge.
  destruct polygon as [|p0 rest]; [contradiction|].
  set (polygon := p0 :: rest).
  change (arr_get polygon 0) with (Ok p0). cbn [bind]. cbv zeta.
  fold (dist_to point p0).
  destruct (@for_loop_invariant _ (closest_step point polygon)
              (fun i st =>
                 snd st = dist_to point (fst st)
                 /\ (fst st = p0
                     \/ exists j p1 p2, edge polygon j p1 p2
                                        /\ fst st = edge_closest point p1 p2)
                 /\ nltb (dist_to point p0) (snd st) = false
                 /\ forall j p1 p2, j < i -> edge polygon j p1 p2 ->
                      nltb (dist_to point (edge_closest point p1 p2)) (snd st) = false)
              (length polygon) 0 (p0, dist_to point p0))
    as [[r md] [Hloop [Hmd [Hwhere [Hfirst Hmin]]]]].
  - intros i [cp md] Hi [Hmd [Hwhere [Hfirst Hmin]]]. cbn [fst snd] in *.
    destruct (nth_error polygon i) as [p1|] eqn:E1;
      [|apply nth_error_None in E1; lia].
    destruct (nth_error polygon ((i + 1) mod length polygon)) as [p2|] eqn:E2.
    2:{ apply nth_error_None in E2.
        pose proof (Nat.mod_upper_bound (i + 1) (length polygon)). lia. }
    assert (He : edge polygon i p1 p2) by (split; assumption).
    rewrite (@closest_step_candidate point polygon i cp p1 p2 md He).
    eexists. split; [reflexivity|].
    destruct (nltb (dist_to point (edge_closest point p1 p2)) md) eqn:E; cbn [fst snd].
    + split; [reflexivity|]. split; [right; exists i, p1, p2; split; [exact He|reflexivity]|].
      split; [exact (@not_less_after _ _ _ Hfirst E)|].
      intros j q1 q2 Hj [Hq1 Hq2]. destruct (Nat.eq_dec j i) as [->|Hji].
      * assert (q1 = p1) by congruence. assert (q2 = p2) by congruence. subst q1 q2.
        apply nltb_irrefl.
      * apply (@not_less_after _ _ md); [|exact E].
        apply (Hmin j q1 q2); [lia|split; assumption].
    + split; [exact Hmd|]. split; [exact Hwhere|]. split; [exact Hfirst|].
      intros j q1 q2 Hj [Hq1 Hq2]. destruct (Nat.eq_dec j i) as [->|Hji].
      * assert (q1 = p1) by congruence. assert (q2 = p2) by congruence. subst q1 q2.
        exact E.
      * apply (Hmin j q1 q2); [lia|split; assumption].
  - cbn [fst snd]. split; [reflexivity|]. split; [left; reflexivity|].
    split; [apply nltb_irrefl|]. intros j p1 p2 Hj. lia.
  - rewrite Hloop. cbn [bind fst]. exists r. cbn [fst snd] in *.
    split; [reflexivity|]. rewrite <- Hmd. split.
    + destruct Hwhere as [->|Hc]; [left; reflexivity|right; exact Hc].
    + split.
      * intros q Hq. cbn [hd_error polygon] in Hq. injection Hq as <-. exact Hfirst.
      * intros i p1 p2 He. apply (Hmin i p1 p2); [|exact He].
        destruct He as [He _]. cbn [Nat.add]. apply nth_error_Some. rewrite He. discriminate.
Qed.

End ClosestCandidate.

#[export] Instance JS_StrictLess : StrictLess float.
Proof.
  split.
  - intros a. cbn [nltb JSNumber]. destruct (PrimFloat.ltb a a) eqn:E; [|reflexivity].
    apply float_ltb_Some in E. destruct (SFcompare_refl_of _ _ E) as [H _]. congruence.
  - intros a b c. cbn [nltb JSNumber]. apply float_lt_trans.
Qed.

(** *** The closest point in exact arithmetic *)

Local Open Scope R_scope.

Lemma clamp_unit (r : R) : 0 <= Rmax 0 (Rmin 1 r) <= 1.
Proof.
  unfold Rmax, Rmin. destruct (Rle_dec 1 r); destruct (Rle_dec 0 _); lra.
Qed.

(** On a segment that is not a point, the clamped projection is at least as
    close to the query as every point of the segment. *)
Lemma projection_minimal (ux uz dx dz t : R) :
  dx * dx + dz * dz <> 0 ->
  0 <= t <= 1 ->
  let ts := Rmax 0 (Rmin 1 ((ux * dx + uz * dz) / (dx * dx + dz * dz))) in
  (ux - ts * dx) * (ux - ts * dx) + (uz - ts * dz) * (uz - ts * dz)
  <= (ux - t * dx) * (ux - t * dx) + (uz - t * dz) * (uz - t * dz).
Proof.
  intros HL Ht. cbv zeta.
  assert (Hid : forall s1 s2,
             (ux - s1 * dx) * (ux - s1 * dx) + (uz - s1 * dz) * (uz - s1 * dz)
             - ((ux - s2 * dx) * (ux - s2 * dx) + (uz - s2 * dz) * (uz - s2 * dz))
             = (s1 - s2) * ((s1 + s2) * (dx * dx + dz * dz) - 2 * (ux * dx + uz * dz)))
    by (intros; ring).
  set (L := dx * dx + dz * dz) in *. set (c := ux * dx + uz * dz) in *.
  assert (HLpos : 0 < L).
  { destruct (Rle_lt_or_eq_dec 0 L) as [Hlt|Heq];
      [unfold L; nra|exact Hlt|exfalso; apply HL; symmetry; exact Heq]. }
  set (r := c / L).
  assert (Hc : c = r * L) by (unfold r; field; exact HL).
  clearbody r. clearbody c. clearbody L.
  unfold Rmax, Rmin. destruct (Rle_dec 1 r) as [H1|H1].
  - destruct (Rle_dec 0 1); [|lra].
    pose proof (Hid t 1) as H. clear Hid.
    assert (0 <= (1 - t) * (L * (2 * r - t - 1))).
    { apply Rmult_le_pos; [lra|]. apply Rmult_le_pos; lra. }
    nra.
  - destruct (Rle_dec 0 r) as [H0|H0].
    + pose proof (Hid t r) as H. clear Hid.
      assert (0 <= L * ((t - r) * (t - r))).
      { apply Rmult_le_pos; [lra|]. apply Rle_0_sqr. }
      nra.
    + pose proof (Hid t 0) as H. clear Hid.
      assert (0 <= t * (L * t + 2 * (- r) * L)).
      { apply Rmult_le_pos; [lra|]. nra. }
      nra.
Qed.

Lemma sum_squares_zero (a b : R) : a * a + b * b = 0 -> a = 0 /\ b = 0.
Proof. intros H. split; nra. Qed.

Lemma on_edge_at_start (polygon : list (Point R)) (i : nat) (p1 p2 : Point R) :
  nth_error polygon i = Some p1 ->
  nth_error polygon ((i + 1) mod length polygon) = Some p2 ->
  on_edge_at polygon i p1.
Proof.
  intros H1 H2. exists p1, p2, 0. repeat split; try assumption; try lra.
  destruct p1 as [a b]. cbn [x z]. f_equal; ring.
Qed.

(** One edge of the loop: the state stays a point with its distance, the
    distance does not grow, the point is the old one or lies on the edge,
    and no point of the edge is closer. *)
Lemma closest_step_exact (point : Point R) (polygon : list (Point R)) (i : nat)
      (cp p1 p2 : Point R) :
  nth_error polygon i = Some p1 ->
  nth_error polygon ((i + 1) mod length polygon) = Some p2 ->
  exists cp',
    closest_step point polygon i (cp, distance point cp) = Ok (cp', distance point cp')
    /\ distance point cp' <= distance point cp
    /\ (cp' = cp \/ on_edge_at polygon i cp')
    /\ forall q, on_edge_at polygon i q -> distance point cp' <= distance point q.
Proof.
  intros H1 H2. unfold closest_step, arr_get. rewrite H1, H2. cbn [bind]. cbv zeta.
  cbn [nsub nadd nmul ndiv neqb nltb Math_hypot Math_max Math_min of_nat RNumber INR].
  unfold Exact.eqb, Exact.ltb.
  set (dx := x p2 - x p1). set (dz := z p2 - z p1).
  destruct (Req_dec_T (dx * dx + dz * dz) 0) as [HL|HL].
  - destruct (@sum_squares_zero dx dz HL) as [Hdx Hdz].
    assert (Hedge : forall q, on_edge_at polygon i q -> q = p1).
    { intros q [q1 [q2 [t [Hq1 [Hq2 [Ht ->]]]]]].
      assert (q1 = p1) by congruence. assert (q2 = p2) by congruence. subst q1 q2.
      fold dx dz. rewrite Hdx, Hdz. destruct p1 as [a b]. cbn [x z]. f_equal; ring. }
    change (Exact.hypot (x point - x p1) (z point - z p1)) with (distance point p1).
    destruct (Rlt_dec (distance point p1) (distance point cp)) as [Hlt|Hge].
    + exists p1. split; [reflexivity|]. split; [lra|].
      split; [right; exact (@on_edge_at_start polygon i p1 p2 H1 H2)|].
      intros q Hq. rewrite (Hedge q Hq). lra.
    + exists cp. split; [reflexivity|]. split; [lra|]. split; [left; reflexivity|].
      intros q Hq. rewrite (Hedge q Hq). lra.
  - set (ts := Rmax 0 (Rmin 1 (((x point - x p1) * dx + (z point - z p1) * dz)
                                / (dx * dx + dz * dz)))).
    set (closest := mkPoint (x p1 + ts * dx) (z p1 + ts * dz)).
    change (Exact.hypot (x point - x closest) (z point - z closest))
      with (distance point closest).
    assert (Hts : 0 <= ts <= 1) by apply clamp_unit.
    assert (Hmin : forall q, on_edge_at polygon i q ->
                             distance point closest <= distance point q).
    { intros q [q1 [q2 [t [Hq1 [Hq2 [Ht ->]]]]]].
      assert (q1 = p1) by congruence. assert (q2 = p2) by congruence. subst q1 q2.
      fold dx dz. unfold distance, Exact.hypot, closest. cbn [x z].
      apply sqrt_le_1_alt.
      pose proof (@projection_minimal (x point - x p1) (z point - z p1) dx dz t HL Ht) as Hm.
      cbv zeta in Hm. fold ts in Hm.
      match goal with
      | |- ?a <= ?b =>
          replace a with ((x point - x p1 - ts * dx) * (x point - x p1 - ts * dx)
                          + (z point - z p1 - ts * dz) * (z point - z p1 - ts * dz))
            by ring;
          replace b with ((x point - x p1 - t * dx) * (x point - x p1 - t * dx)
                          + (z point - z p1 - t * dz) * (z point - z p1 - t * dz))
            by ring
      end.
      exact Hm. }
    assert (Hon : on_edge_at polygon i closest).
    { exists p1, p2, ts. repeat split; try assumption; lra. }
    destruct (Rlt_dec (distance point closest) (distance point cp)) as [Hlt|Hge].
    + exists closest. split; [reflexivity|]. split; [lra|]. split; [right; exact Hon|].
      exact Hmin.
    + exists cp. split; [reflexivity|]. split; [lra|]. split; [left; reflexivity|].
      intros q Hq. specialize (Hmin q Hq). lra.
Qed.

(** In exact arithmetic the point returned for a polygon with a vertex
    lies on the boundary, and no point of the boundary is closer to the
    query. *)
Lemma findClosest_exact (point : Point R) (polygon : list (Point R)) :
  polygon <> [] ->
  exists r,
    findClosestPointOnPolygonEdge point polygon = Ok r
    /\ on_edge polygon r
    /\ forall q, on_edge polygon q -> distance point r <= distance point q.
Proof.
  intros Hne. unfold findClosestPointOnPolygonEdge.
  destruct polygon as [|p0 rest]; [contradiction|].
  set (polygon := p0 :: rest).
  change (arr_get polygon 0) with (Ok p0). cbn [bind]. cbv zeta.
  change (Math_hypot (nsub (x point) (x p0)) (nsub (z point) (z p0)))
    with (distance point p0).
  destruct (@for_loop_invariant _ (closest_step point polygon)
              (fun i st =>
                 snd st = distance point (fst st)
                 /\ on_edge polygon (fst st)
                 /\ forall j q, (j < i)%nat -> on_edge_at polygon j q ->
                                distance point (fst st) <= distance point q)
              (length polygon) 0%nat (p0, distance point p0))
    as [[r md] [Hloop [Hmd [Hon Hmin]]]].
  - intros i [cp md] Hi [Hmd [Hon Hmin]]. cbn [fst snd] in *. subst md.
    destruct (nth_error polygon i) as [p1|] eqn:E1;
      [|apply nth_error_None in E1; lia].
    destruct (nth_error polygon ((i + 1) mod length polygon)) as [p2|] eqn:E2.
    2:{ apply nth_error_None in E2.
        pose proof (Nat.mod_upper_bound (i + 1) (length polygon)). lia. }
    destruct (@closest_step_exact point polygon i cp p1 p2 E1 E2)
      as [cp' [Hstep [Hle [Hwhere Hedge]]]].
    exists (cp', distance point cp'). split; [exact Hstep|]. cbn [fst snd].
    split; [reflexivity|]. split.
    + destruct Hwhere as [->|Hat]; [exact Hon|exists i; exact Hat].
    + intros j q Hj Hq. destruct (Nat.eq_dec j i) as [->|Hji].
      * apply Hedge. exact Hq.
      * apply Rle_trans with (distance point cp); [exact Hle|].
        apply (Hmin j q); [lia|exact Hq].
  - cbn [fst snd]. split; [reflexivity|]. split.
    + exists 0%nat.
      destruct (nth_error polygon ((0 + 1) mod length polygon)) as [p2|] eqn:E2.
      * exact (@on_edge_at_start polygon 0 p0 p2 eq_refl E2).
      * apply nth_error_None in E2.
        pose proof (Nat.mod_upper_bound (0 + 1) (length polygon)).
        unfold polygon in *. cbn [length] in *. lia.
    + intros j q Hj. lia.
  - rewrite Hloop. cbn [bind fst]. exists r. cbn [fst snd] in *.
    split; [reflexivity|]. split; [exact Hon|].
    intros q [j Hq]. apply (Hmin j q); [|exact Hq].
    destruct Hq as [q1 [_ [_ [Hq1 _]]]].
    cbn [Nat.add]. apply nth_error_Some. rewrite Hq1. discriminate.
Qed.

Local Close Scope R_scope.

#[export] Instance JSWith_StrictLess (hypot : float -> float -> float) :
  @StrictLess float (JSNumberWith hypot).
Proof.
  split.
  - intros a. cbn [nltb JSNumberWith]. destruct (PrimFloat.ltb a a) eqn:E; [|reflexivity].
    apply float_ltb_Some in E. destruct (SFcompare_refl_of _ _ E) as [H _]. congruence.
  - intros a b c. cbn [nltb JSNumberWith]. apply float_lt_trans.
Qed.

(** C10, as stated, fails on binary64.  On the segment from [(-1e200, 1)]
    to [(1e200, 1)] (1e200 is the double [0x1.4e718d7d7625ap+664]) the
    squared length overflows, the projection of the
    query [(0, 0)] is [NaN], and so is its distance, which is below
    nothing: the first vertex is returned, although the midpoint [(0, 1)]
    of the segment is at distance 1 from the query.  The distances compared
    along the way are [NaN] however [Math.hypot] rounds. *)
Lemma closest_point_overflow :
  findClosestPointOnPolygonEdge (mkPoint 0 0)%float
    [mkPoint (-0x1.4e718d7d7625ap+664) 1; mkPoint 0x1.4e718d7d7625ap+664 1]%float
  = Ok (mkPoint (-0x1.4e718d7d7625ap+664) 1)%float
  /\ edge_closest (mkPoint 0 0)%float (mkPoint (-0x1.4e718d7d7625ap+664) 1)%float (mkPoint 0x1.4e718d7d7625ap+664 1)%float
     = mkPoint PrimFloat.nan PrimFloat.nan
  /\ mkPoint (-0x1.4e718d7d7625ap+664 + 0.5 * (0x1.4e718d7d7625ap+664 - -0x1.4e718d7d7625ap+664))%float (1 + 0.5 * (1 - 1))%float
     = mkPoint 0%float 1%float
  /\ dist_to (mkPoint 0 0)%float (mkPoint 0 1)%float = 1%float
  /\ PrimFloat.ltb (dist_to (mkPoint 0 0)%float (mkPoint 0 1)%float)
                   (dist_to (mkPoint 0 0)%float (mkPoint (-0x1.4e718d7d7625ap+664) 1)%float) = true.
Proof. repeat split; vm_compute; reflexivity. Qed.

(** C10, amended.  [findClosestPointOnPolygonEdge] needs a polygon with a
    vertex: whatever the arithmetic, it raises the [TypeError] of reading
    the first vertex exactly on the empty polygon and returns a point on
    every other one.  On binary64, however [Math.hypot] rounds, the point
    returned is the first vertex or the point of an edge the code computes
    (the start of an edge of length zero, the clamped projection
    otherwise), and none of these points is closer to the query by the
    distances the code computes.  In exact arithmetic the point returned
    lies on the boundary of the polygon (on an edge, its ends included),
    and no point of any edge is closer to the query. *)
Theorem findClosestPointOnPolygonEdge_nonempty :
  (forall (num : Type) (N : Number num) (point : Point num) (polygon : list (Point num)),
      (polygon = [] -> findClosestPointOnPolygonEdge point polygon = TypeError)
      /\ (polygon <> [] -> exists r, findClosestPointOnPolygonEdge point polygon = Ok r))
  /\ (forall (hypot : float -> float -> float)
             (point : Point float) (polygon : list (Point float)),
         let N := JSNumberWith hypot in
         polygon <> [] ->
         exists r,
           @findClosestPointOnPolygonEdge float N point polygon = Ok r
           /\ (hd_error polygon = Some r
               \/ exists i p1 p2,
                    edge polygon i p1 p2 /\ r = @edge_closest float N point p1 p2)
           /\ (forall p0, hd_error polygon = Some p0 ->
                          PrimFloat.ltb (@dist_to float N point p0) (@dist_to float N point r)
                          = false)
           /\ (forall i p1 p2,
                 edge polygon i p1 p2 ->
                 PrimFloat.ltb (@dist_to float N point (@edge_closest float N point p1 p2))
                               (@dist_to float N point r)
                 = false))
  /\ (forall (point : Point R) (polygon : list (Point R)),
         polygon <> [] ->
         exists r,
           findClosestPointOnPolygonEdge point polygon = Ok r
           /\ on_edge polygon r
           /\ forall q, on_edge polygon q -> (distance point r <= distance point q)%R).
Proof.
  split; [|split].
  - intros num N point polygon. apply findClosest_domain.
  - intros hypot point polygon N.
    apply (@findClosest_candidate float N (JSWith_StrictLess hypot)).
  - intros point polygon. apply findClosest_exact.
Qed.

(** * Further properties of the code *)

(** ** [splitPolygon] keeps every point *)

Section SplitPartition.

Context {num : Type} {N : Number num}.

Lemma split_push_fold (isLeft : Point num -> bool) (points : list (Point num)) :
  forall leftPoints rightPoints,
    fold_left (split_push isLeft) points (leftPoints, rightPoints)
    = (leftPoints ++ filter isLeft points,
       rightPoints ++ filter (fun q => negb (isLeft q)) points).
Proof.
  induction points as [|q points IH]; intros leftPoints rightPoints; cbn [fold_left filter].
  - rewrite !app_nil_r. reflexivity.
  - unfold split_push at 2. destruct (isLeft q); cbn [negb]; rewrite IH, <- app_assoc;
      reflexivity.
Qed.

Lemma filter_split_length {A : Type} (f : A -> bool) (l : list A) :
  length (filter f l) + length (filter (fun a => negb (f a)) l) = length l.
Proof.
  induction l as [|a l IH]; [reflexivity|].
  cbn [filter]. destruct (f a); cbn [negb length]; lia.
Qed.

(** Whatever the split line, the result is the input with an empty second
    half, or the points of the input sorted into two halves by one test on
    the point, each half in the order of the input: no point is lost,
    none is added, none is in both halves. *)
Theorem splitPolygon_partition (points : list (Point num)) (p1 p2 : Point num) :
  exists isLeft : Point num -> bool,
    (splitPolygon points p1 p2 = (points, [])
     \/ splitPolygon points p1 p2
        = (filter isLeft points, filter (fun q => negb (isLeft q)) points))
    /\ length (fst (splitPolygon points p1 p2)) + length (snd (splitPolygon points p1 p2))
       = length points
    /\ forall q, In q points <->
                 In q (fst (splitPolygon points p1 p2))
                 \/ In q (snd (splitPolygon points p1 p2)).
Proof.
  assert (Hfilter : forall (f : Point num -> bool) q,
             In q points <-> In q (filter f points)
                             \/ In q (filter (fun a => negb (f a)) points)).
  { intros f q. rewrite !filter_In. destruct (f q); cbn [negb]; intuition discriminate. }
  unfold splitPolygon. destruct (length points <? 3)%nat.
  - exists (fun _ => true). cbn [fst snd length]. split; [left; reflexivity|].
    split; [lia|]. intros q. cbn [In]. tauto.
  - cbv zeta. destruct (nltb (Math_abs (nsub (x p2) (x p1))) tiny).
    + exists (fun point => nleb (x point) (x p1)).
      rewrite split_push_fold. cbn [app fst snd].
      split; [right; reflexivity|]. split; [apply filter_split_length|apply Hfilter].
    + match goal with
      | |- context [fold_left (split_push ?f) points ([], [])] =>
          exists f; rewrite (split_push_fold f points [] [])
      end.
      cbn [app].
      match goal with
      | |- context [if ?c then _ else _] => destruct c
      end; cbn [fst snd length].
      * split; [left; reflexivity|]. split; [lia|]. intros q. cbn [In]. tauto.
      * split; [right; reflexivity|]. split; [apply filter_split_length|apply Hfilter].
Qed.

End SplitPartition.

(** ** [halvePolygonVertices] keeps a polygon *)

Lemma even_index_S_odd (i : nat) : even_index i = false -> even_index (Datatypes.S i) = true.
Proof.
  unfold even_index. intros H. apply Nat.eqb_neq in H. apply Nat.eqb_eq.
  pose proof (Nat.div_mod_eq i 2). pose proof (Nat.div_mod_eq (Datatypes.S i) 2).
  pose proof (Nat.mod_upper_bound i 2). pose proof (Nat.mod_upper_bound (Datatypes.S i) 2).
  lia.
Qed.

Lemma filter_index_even_length {A : Type} (l : list A) :
  forall i,
    length (filter_index even_index i l)
    = if even_index i then (length l + 1) / 2 else length l / 2.
Proof.
  induction l as [|h t IH]; intros i.
  - cbn [filter_index length]. destruct (even_index i); reflexivity.
  - cbn [filter_index length]. destruct (even_index i) eqn:E.
    + cbn [length]. rewrite IH, (even_index_S i E).
      replace (Datatypes.S (length t) + 1) with (length t + 1 * 2) by lia.
      rewrite Nat.div_add by lia. lia.
    + rewrite IH, (even_index_S_odd i E).
      replace (length t + 1) with (Datatypes.S (length t)) by lia. reflexivity.
Qed.

Lemma filter_index_In {A : Type} (keep : nat -> bool) (l : list A) (q : A) :
  forall i, In q (filter_index keep i l) -> In q l.
Proof.
  induction l as [|h t IH]; intros i H; [exact H|].
  cbn [filter_index] in H. destruct (keep i).
  - destruct H as [->|H]; [left; reflexivity|right; exact (IH _ H)].
  - right. exact (IH _ H).
Qed.

Section HalveBounds.

Context {num : Type} {N : Number num}.

(** The second loop of [halvePolygonVertices] appends [needed] points of
    the input. *)
Lemma halve_backfill (points : list (Point num)) :
  1 <= length points ->
  forall needed start kept,
    exists extra,
      for_loop
        (fun i kept =>
           p <- arr_get points ((2 * i + 1) mod length points) ;; Ok (kept ++ [p]))
        start needed kept = Ok (kept ++ extra)
      /\ length extra = needed
      /\ forall q, In q extra -> In q points.
Proof.
  intros Hn. induction needed as [|needed IH]; intros start kept.
  - exists []. cbn [for_loop]. rewrite app_nil_r. repeat split. intros q [].
  - destruct (arr_get_lt points (i := (2 * start + 1) mod length points))
      as [p [Hp Hnth]].
    { apply Nat.mod_upper_bound. lia. }
    destruct (IH (Datatypes.S start) (kept ++ [p])) as [extra [He [Hl Hin]]].
    exists (p :: extra). cbn [for_loop]. rewrite Hp. cbn [bind]. rewrite He.
    split; [rewrite <- app_assoc; reflexivity|]. split; [cbn [length]; lia|].
    intros q [<-|Hq]; [exact (nth_error_In _ _ Hnth)|exact (Hin q Hq)].
Qed.

(** [halvePolygonVertices] returns on every input.  Up to three points come
    back as they are; from three points on the result has at least three
    points and no more than the input, all of them points of the input; from
    five points on the result is the points at the even places, half of
    them rounded up. *)
Theorem halvePolygonVertices_bounds (points : list (Point num)) :
  exists kept,
    halvePolygonVertices points = Ok kept
    /\ (length points <= 3 -> kept = points)
    /\ (3 <= length points -> 3 <= length kept <= length points)
    /\ (forall q, In q kept -> In q points)
    /\ (5 <= length points ->
        kept = filter_index even_index 0 points
        /\ length kept = (length points + 1) / 2).
Proof.
  unfold halvePolygonVertices.
  destruct (length points <=? 3)%nat eqn:E3.
  - apply Nat.leb_le in E3. exists points. split; [reflexivity|].
    split; [reflexivity|]. split; [lia|]. split; [auto|lia].
  - apply Nat.leb_gt in E3.
    pose proof (@halve_loop_spec num points points [] [] eq_refl) as Hloop.
    cbn [length app] in Hloop. rewrite Hloop. cbn [bind].
    pose proof (filter_index_even_length points 0) as Hlen.
    change (even_index 0) with true in Hlen. cbv iota in Hlen.
    assert (Hhalf : 2 <= (length points + 1) / 2 <= length points).
    { pose proof (Nat.div_mod_eq (length points + 1) 2).
      pose proof (Nat.mod_upper_bound (length points + 1) 2). lia. }
    destruct (length (filter_index even_index 0 points) <? 3)%nat eqn:Ek.
    + apply Nat.ltb_lt in Ek.
      destruct (@halve_backfill points ltac:(lia)
                  (3 - length (filter_index even_index 0 points)) 0
                  (filter_index even_index 0 points)) as [extra [He [Hl Hin]]].
      rewrite He. eexists. split; [reflexivity|].
      split; [lia|]. split; [rewrite length_app; lia|].
      split.
      * intros q Hq. apply in_app_or in Hq. destruct Hq as [Hq|Hq].
        -- exact (filter_index_In _ _ _ _ Hq).
        -- exact (Hin q Hq).
      * intros H5. exfalso.
        pose proof (Nat.div_mod_eq (length points + 1) 2).
        pose proof (Nat.mod_upper_bound (length points + 1) 2). lia.
    + apply Nat.ltb_ge in Ek. eexists. split; [reflexivity|].
      split; [lia|]. split; [lia|].
      split; [intros q Hq; exact (filter_index_In _ _ _ _ Hq)|].
      intros _. split; [reflexivity|exact Hlen].
Qed.

End HalveBounds.

(** ** [simplifyPolygonVertices] only drops vertices *)

Lemma float_lt_irrefl (a : float) : PrimFloat.ltb a a = false.
Proof.
  destruct (PrimFloat.ltb a a) eqn:E; [|reflexivity].
  apply float_ltb_Some in E. destruct (SFcompare_refl_of _ _ E) as [H _]. congruence.
Qed.

(** [Math.max(0, t)] is [0] for a tolerance [t <= 0]. *)
Lemma JS_max_nonpositive (t : float) : PrimFloat.leb t 0 = true -> JS.max 0 t = 0%float.
Proof.
  intros H. destruct (float_leb_not_nan H) as [Hn _].
  rewrite (@JS_max_zero t Hn).
  destruct (PrimFloat.ltb 0 t) eqn:E; [|reflexivity].
  pose proof (float_lt_le_trans E H) as H0. rewrite float_lt_irrefl in H0. discriminate.
Qed.

Section SimplifyDrops.

Context {num : Type} {N : Number num}.

(** The result is the input with some vertices left out, in the order of
    the input. *)
Lemma simplify_filter (points : list (Point num)) (tolerance : num) :
  exists (keep : nat -> bool) (simplified : list (Point num)),
    simplifyPolygonVertices points tolerance = Ok simplified
    /\ simplified = filter_index keep 0 points.
Proof.
  assert (Hall : forall (l : list (Point num)) i, filter_index (fun _ => true) i l = l).
  { induction l as [|h t IH]; intros i; [reflexivity|]. cbn [filter_index]. rewrite IH.
    reflexivity. }
  destruct (Nat.le_gt_cases (length points) 3) as [Hs|Hn].
  - exists (fun _ => true), points. unfold simplifyPolygonVertices.
    apply Nat.leb_le in Hs. rewrite Hs. split; [reflexivity|]. symmetry. apply Hall.
  - destruct (simplify_run points tolerance Hn) as [K [_ [_ [_ Hr]]]].
    rewrite Hr.
    destruct (length (filter_index (fun i => nth i K false) 0 points) <? 3)%nat.
    + exists (fun _ => true), points. split; [reflexivity|]. symmetry. apply Hall.
    + exists (fun i => nth i K false). eexists. split; reflexivity.
Qed.

End SimplifyDrops.

(** The simplification never adds, moves or reorders a vertex: its result
    is the input with some vertices left out (binary64 and exact
    arithmetic).  A tolerance [t <= 0] simplifies as the tolerance 0 does. *)
Theorem simplifyPolygonVertices_drops_only :
  (forall (points : list (Point float)) (tolerance : float),
      exists (keep : nat -> bool) (simplified : list (Point float)),
        simplifyPolygonVertices points tolerance = Ok simplified
        /\ simplified = filter_index keep 0 points
        /\ forall q, In q simplified -> In q points)
  /\ (forall (points : list (Point float)) (tolerance : float),
         PrimFloat.leb tolerance 0 = true ->
         simplifyPolygonVertices points tolerance = simplifyPolygonVertices points 0%float)
  /\ (forall (points : list (Point R)) (tolerance : R),
         exists (keep : nat -> bool) (simplified : list (Point R)),
           simplifyPolygonVertices points tolerance = Ok simplified
           /\ simplified = filter_index keep 0 points
           /\ forall q, In q simplified -> In q points)
  /\ (forall (points : list (Point R)) (tolerance : R),
         (tolerance <= 0)%R ->
         simplifyPolygonVertices points tolerance = simplifyPolygonVertices points 0%R).
Proof.
  split; [|split; [|split]].
  - intros points tolerance.
    destruct (simplify_filter points tolerance) as [keep [simplified [H1 H2]]].
    exists keep, simplified. split; [exact H1|]. split; [exact H2|].
    intros q Hq. rewrite H2 in Hq. exact (filter_index_In _ _ _ _ Hq).
  - intros points tolerance H. unfold simplifyPolygonVertices.
    cbn [Math_max of_nat JSNumber]. change (JS.of_nat 0) with 0%float.
    rewrite (@JS_max_nonpositive tolerance H).
    change (JS.max 0 0) with 0%float. reflexivity.
  - intros points tolerance.
    destruct (simplify_filter points tolerance) as [keep [simplified [H1 H2]]].
    exists keep, simplified. split; [exact H1|]. split; [exact H2|].
    intros q Hq. rewrite H2 in Hq. exact (filter_index_In _ _ _ _ Hq).
  - intros points tolerance H. unfold simplifyPolygonVertices.
    cbn [Math_max of_nat RNumber INR].
    rewrite (Rmax_left 0 tolerance H), (Rmax_left 0 0 (Rle_refl 0)). reflexivity.
Qed.

(** ** [isPointInPolygon] and [findParentRegion] *)

Section Containment.

Context {num : Type} {N : Number num}.

(** The test returns on every polygon, and a query whose [z] has all the
    vertices on one side (none above it, or all above it) is outside. *)
Lemma isPointInPolygon_loop (point : Point num) (polygon : list (Point num)) :
  exists st,
    for_loop (inside_step point polygon) 0 (length polygon) (false, length polygon - 1)
    = Ok st
    /\ ((forall v, In v polygon -> nltb (z point) (z v) = false) -> fst st = false)
    /\ ((forall v, In v polygon -> nltb (z point) (z v) = true) -> fst st = false).
Proof.
  destruct (@for_loop_invariant _ (inside_step point polygon)
              (fun i st =>
                 snd st = (if (i =? 0)%nat then length polygon - 1 else i - 1)
                 /\ ((forall v, In v polygon -> nltb (z point) (z v) = false)
                     -> fst st = false)
                 /\ ((forall v, In v polygon -> nltb (z point) (z v) = true)
                     -> fst st = false))
              (length polygon) 0 (false, length polygon - 1))
    as [st [Hst [_ [H1 H2]]]].
  - intros i [inside j] Hi [Hj [H1 H2]]. cbn [fst snd] in *.
    destruct (arr_get_lt polygon (i := i)) as [pi [Hpi Hni]]; [lia|].
    destruct (arr_get_lt polygon (i := j)) as [pj [Hpj Hnj]].
    { subst j. destruct (i =? 0)%nat; lia. }
    unfold inside_step. rewrite Hpi, Hpj. cbn [bind].
    pose proof (nth_error_In _ _ Hni) as Hini. pose proof (nth_error_In _ _ Hnj) as Hinj.
    assert (Hnext : i = (if (Datatypes.S i =? 0)%nat then length polygon - 1
                         else Datatypes.S i - 1)) by (cbn [Nat.eqb]; lia).
    destruct (xorb (nltb (z point) (z pi)) (nltb (z point) (z pj))) eqn:Ex; cbn [andb].
    + match goal with
      | |- context [if ?c then _ else _] => destruct c
      end; eexists; (split; [reflexivity|]); cbn [fst snd];
        (split; [exact Hnext|]); split; intros Hall;
        rewrite (Hall pi Hini), (Hall pj Hinj) in Ex; discriminate.
    + eexists. split; [reflexivity|]. cbn [fst snd]. split; [exact Hnext|].
      split; assumption.
  - cbn [fst snd Nat.eqb]. repeat split.
  - exists st. split; [exact Hst|]. split; assumption.
Qed.

End Containment.

(** Whatever the arithmetic, [isPointInPolygon] returns on every polygon
    (the empty one included), and a query whose [z] has no vertex above it,
    or every vertex above it, is outside. *)
Theorem isPointInPolygon_outside_z_range :
  forall (num : Type) (N : Number num) (point : Point num) (polygon : list (Point num)),
  exists inside,
    isPointInPolygon point polygon = Ok inside
    /\ ((forall v, In v polygon -> nltb (z point) (z v) = false) -> inside = false)
    /\ ((forall v, In v polygon -> nltb (z point) (z v) = true) -> inside = false).
Proof.
  intros num N point polygon.
  destruct (@isPointInPolygon_loop num N point polygon) as [st [Hst [H1 H2]]].
  exists (fst st). unfold isPointInPolygon. rewrite Hst. cbn [bind].
  split; [reflexivity|]. split; assumption.
Qed.

(** On binary64 the two roundings of one crossing can differ, and a
    segment then contains a point. *)
Example sliver_contains_a_point : isPointInPolygon sliver_point sliver = Ok true.
Proof. vm_compute. reflexivity. Qed.

(** [findParentRegion] returns on every input, and what it returns is the
    first region of the list that has at least three points and contains
    the village: the regions before it do not, and [null] means that none
    does. *)
Theorem findParentRegion_first_match (village : VillageData.t) (regions : list Region.t) :
  exists res,
    findParentRegion village regions = Ok res
    /\ match res with
       | Some region =>
           exists before after,
             regions = before ++ region :: after
             /\ contains_village village region
             /\ forall b, In b before -> ~ contains_village village b
       | None => forall region, In region regions -> ~ contains_village village region
       end.
Proof.
  induction regions as [|region rest IH].
  - exists None. split; [reflexivity|]. intros region [].
  - cbn [findParentRegion].
    destruct IH as [res [Hres Hspec]].
    assert (Hskip : ~ contains_village village region ->
                    findParentRegion village rest = Ok res ->
                    exists res',
                      findParentRegion village rest = Ok res'
                      /\ match res' with
                         | Some r =>
                             exists before after,
                               region :: rest = before ++ r :: after
                               /\ contains_village village r
                               /\ forall b, In b before -> ~ contains_village village b
                         | None => forall r, In r (region :: rest)
                                             -> ~ contains_village village r
                         end).
    { intros Hno _. exists res. split; [exact Hres|].
      destruct res as [r|].
      - destruct Hspec as [before [after [Heq [Hc Hb]]]].
        exists (region :: before), after. split; [rewrite Heq; reflexivity|].
        split; [exact Hc|]. intros b [<-|Hin]; [exact Hno|exact (Hb b Hin)].
      - intros r [<-|Hin]; [exact Hno|exact (Hspec r Hin)]. }
    destruct (3 <=? length (Region.points region))%nat eqn:E3.
    + destruct (@isPointInPolygon_loop float JSNumber
                  (mkPoint (VillageData.x village) (VillageData.z village))
                  (Region.points region)) as [st [Hst _]].
      assert (Hin : isPointInPolygon
                      (mkPoint (VillageData.x village) (VillageData.z village))
                      (Region.points region) = Ok (fst st)).
      { unfold isPointInPolygon. rewrite Hst. reflexivity. }
      rewrite Hin. cbn [bind]. destruct (fst st) eqn:Ef.
      * exists (Some region). split; [reflexivity|].
        exists [], rest. split; [reflexivity|]. split.
        -- split; [apply Nat.leb_le; exact E3|exact Hin].
        -- intros b [].
      * apply Hskip; [|exact Hres]. intros [_ Hc]. rewrite Hin in Hc. discriminate.
    + apply Hskip; [|exact Hres]. intros [Hc _]. apply Nat.leb_gt in E3. lia.
Qed.

(** ** Polygons with integer coordinates, on binary64

    Block coordinates are integers.  As long as the integers the code
    computes stay below 2^53 in magnitude no operation rounds, and the
    relations of the plane hold for the doubles of the program. *)

Local Open Scope Z_scope.

Lemma last_default {A : Type} (l : list A) :
  forall a b c : A, last (a :: l) b = last (a :: l) c.
Proof.
  induction l as [|d l IH]; intros a b c; [reflexivity|].
  change (last (d :: l) b = last (d :: l) c). apply IH.
Qed.

Lemma last_cons {A : Type} (a b : A) (l : list A) : last (a :: l) b = last l a.
Proof.
  destruct l as [|c l]; [reflexivity|].
  change (last (c :: l) b = last (c :: l) a). apply last_default.
Qed.

Lemma chain_sum_cons2 (a b : Point Z) (chain : list (Point Z)) :
  chain_sum (a :: b :: chain) = cross a b + chain_sum (b :: chain).
Proof. reflexivity. Qed.

(** What an affine map [p -> s p + (a, b)] does to the sum along a chain. *)
Lemma chain_sum_affine (s a b : Z) (chain : list (Point Z)) :
  forall p : Point Z,
    chain_sum (map (fun q => mkPoint (s * x q + a) (s * z q + b)) (p :: chain))
    = s * s * chain_sum (p :: chain)
      + s * a * (z (last chain p) - z p) + s * b * (x p - x (last chain p)).
Proof.
  induction chain as [|q chain IH]; intros p'.
  - cbn [map chain_sum last]. ring.
  - specialize (IH q). cbn [map] in IH |- *.
    change (chain_sum (?u :: ?v :: ?w)) with (cross u v + chain_sum (v :: w)).
    rewrite IH. rewrite (last_cons q p' chain). unfold cross. cbn [x z]. ring.
Qed.

Lemma chain_sum_closed_affine (s a b : Z) (points : list (Point Z)) :
  chain_sum (closed (map (fun q => mkPoint (s * x q + a) (s * z q + b)) points))
  = s * s * chain_sum (closed points).
Proof.
  destruct points as [|p0 rest]; [cbn; ring|].
  cbn [map closed].
  change ((mkPoint (s * x p0 + a) (s * z p0 + b)
             :: map (fun q => mkPoint (s * x q + a) (s * z q + b)) rest)
            ++ [mkPoint (s * x p0 + a) (s * z p0 + b)])
    with (map (fun q => mkPoint (s * x q + a) (s * z q + b)) (p0 :: rest)
            ++ map (fun q => mkPoint (s * x q + a) (s * z q + b)) [p0]).
  rewrite <- map_app. cbn [app].
  rewrite (chain_sum_affine s a b (rest ++ [p0]) p0).
  rewrite last_last. ring.
Qed.

Lemma chain_sum_snoc (q : Point Z) (chain : list (Point Z)) :
  forall p : Point Z,
    chain_sum ((p :: chain) ++ [q]) = chain_sum (p :: chain) + cross (last chain p) q.
Proof.
  induction chain as [|c chain IH]; intros p.
  - cbn [app chain_sum last]. ring.
  - specialize (IH c). cbn [app] in IH |- *.
    rewrite (chain_sum_cons2 p c (chain ++ [q])), (chain_sum_cons2 p c chain).
    rewrite IH, last_cons. ring.
Qed.

Lemma chain_sum_rev (chain : list (Point Z)) :
  chain_sum (rev chain) = - chain_sum chain.
Proof.
  induction chain as [|p chain IH]; [reflexivity|].
  destruct chain as [|q chain]; [reflexivity|].
  change (rev (p :: q :: chain)) with (rev (q :: chain) ++ [p]).
  assert (Hlast : forall d, last (rev (q :: chain)) d = q)
    by (intros d; cbn [rev]; apply last_last).
  destruct (rev (q :: chain)) as [|h t] eqn:E.
  - apply (f_equal (@length _)) in E. rewrite length_rev in E. discriminate.
  - rewrite chain_sum_snoc, IH.
    rewrite <- (last_cons h p t), Hlast, chain_sum_cons2.
    unfold cross. ring.
Qed.

Lemma chain_sum_closed_rev (points : list (Point Z)) :
  chain_sum (closed (rev points)) = - chain_sum (closed points).
Proof.
  destruct points as [|p0 rest]; [reflexivity|].
  rewrite <- chain_sum_rev.
  destruct rest as [|q rest]; [reflexivity|].
  change (closed (p0 :: q :: rest)) with ((p0 :: q :: rest) ++ [p0]).
  rewrite rev_app_distr.
  change (rev (p0 :: q :: rest)) with (rev (q :: rest) ++ [p0]).
  destruct (rev (q :: rest)) as [|h t] eqn:E.
  - apply (f_equal (@length _)) in E. rewrite length_rev in E. discriminate.
  - cbn [rev app closed].
    change (h :: (t ++ [p0]) ++ [h]) with ((h :: t ++ [p0]) ++ [h]).
    rewrite chain_sum_snoc, last_last, chain_sum_cons2.
    unfold cross. ring.
Qed.

(** *** The bounds that keep the arithmetic exact *)

Lemma abs_mul_lt (a b B : Z) : Z.abs a < B -> Z.abs b < B -> Z.abs (a * b) < B * B.
Proof.
  intros Ha Hb. rewrite Z.abs_mul.
  pose proof (Z.abs_nonneg a). pose proof (Z.abs_nonneg b). nia.
Qed.

Lemma within_le (B B' : Z) (p : Point Z) : B <= B' -> within B p -> within B' p.
Proof. intros HB [Hx Hz]. split; lia. Qed.

Lemma cross_lt (a b : Point Z) (B : Z) :
  within B a -> within B b -> Z.abs (cross a b) < 2 * (B * B).
Proof.
  intros [Hxa Hza] [Hxb Hzb]. unfold cross.
  pose proof (@abs_mul_lt _ _ _ Hxa Hzb). pose proof (@abs_mul_lt _ _ _ Hxb Hza). lia.
Qed.

(** One turn of the loop of [calculatePolygonArea] on integers. *)
Lemma area_step_int (P : list (Point Z)) (i : nat) (pi pj : Point Z) (acc B : Z) :
  nth_error P i = Some pi ->
  nth_error P ((i + 1) mod length P) = Some pj ->
  within B pi -> within B pj ->
  Z.abs acc + 2 * (B * B) < 2 ^ 53 ->
  area_step (map point_of_Z P) i (JS.of_Z acc) = Ok (JS.of_Z (acc + cross pi pj)).
Proof.
  intros Hi Hj [Hxi Hzi] [Hxj Hzj] Hacc.
  unfold area_step, arr_get. rewrite length_map, !nth_error_map, Hi, Hj.
  cbn [option_map bind]. cbv zeta. cbn [x z point_of_Z nadd nsub nmul JSNumber].
  pose proof (@abs_mul_lt _ _ _ Hxi Hzj) as H1. pose proof (@abs_mul_lt _ _ _ Hxj Hzi) as H2.
  pose proof (Z.abs_nonneg acc) as H0.
  pose proof (Z.abs_nonneg (x pi)) as H3.
  assert (HB : B <= B * B) by nia.
  destruct (@JS_of_Z_mul (x pi) (z pj)) as [Hw1 _]; [lia..|].
  destruct (@JS_of_Z_mul (x pj) (z pi)) as [Hw2 _]; [lia..|].
  rewrite (@JS_of_Z_add acc (x pi * z pj) _); [|lia..|exact Hw1].
  rewrite (@JS_of_Z_sub (acc + x pi * z pj) (x pj * z pi) _); [|lia..|exact Hw2].
  do 2 f_equal. unfold cross. ring.
Qed.

Lemma area_loop_int (P : list (Point Z)) (p0 : Point Z) (B : Z) :
  hd_error P = Some p0 ->
  Forall (within B) P ->
  forall (suf pre : list (Point Z)) (acc : Z),
    P = (pre ++ suf)%list ->
    Z.abs acc + 2 * Z.of_nat (length suf) * (B * B) < 2 ^ 53 ->
    for_loop (area_step (map point_of_Z P)) (length pre) (length suf) (JS.of_Z acc)
    = Ok (JS.of_Z (acc + chain_sum (suf ++ [p0]))).
Proof.
  intros Hp0 HP.
  assert (Hin : forall q, In q P -> within B q) by (apply Forall_forall; exact HP).
  assert (H0 : nth_error P 0 = Some p0).
  { destruct P as [|q l]; [discriminate|]. cbn [hd_error] in Hp0. exact Hp0. }
  assert (Hw0 : within B p0) by (apply Hin; apply (nth_error_In _ _ H0)).
  induction suf as [|a suf IH]; intros pre acc Hp Hacc.
  - cbn [for_loop length app chain_sum]. rewrite Z.add_0_r. reflexivity.
  - assert (Ha : nth_error P (length pre) = Some a).
    { rewrite Hp, nth_error_app2, Nat.sub_diag by lia. reflexivity. }
    assert (Hwa : within B a) by (apply Hin; apply (nth_error_In _ _ Ha)).
    assert (Hlen : length P = (length pre + Datatypes.S (length suf))%nat)
      by (rewrite Hp, length_app; reflexivity).
    assert (Hp' : P = ((pre ++ [a]) ++ suf)%list)
      by (rewrite Hp, <- app_assoc; reflexivity).
    specialize (IH (pre ++ [a])%list). rewrite length_app in IH. cbn [length] in IH.
    replace (length pre + 1)%nat with (Datatypes.S (length pre)) in IH by lia.
    assert (HBB : 0 <= B * B) by nia.
    cbn [for_loop length]. cbn [length] in Hacc.
    destruct suf as [|b suf].
    + assert (Hj : nth_error P ((length pre + 1) mod length P) = Some p0).
      { replace ((length pre + 1) mod length P)%nat with 0%nat; [exact H0|].
        rewrite Hlen. cbn [length].
        replace (length pre + 1)%nat with (1 * (length pre + 1))%nat at 1 by lia.
        rewrite Nat.Div0.mod_mul. reflexivity. }
      rewrite (@area_step_int P (length pre) a p0 acc B Ha Hj Hwa Hw0); [|lia].
      cbn [bind]. rewrite (IH _ Hp').
      * cbn [app chain_sum]. do 2 f_equal. ring.
      * cbn [length]. pose proof (@cross_lt _ _ _ Hwa Hw0). lia.
    + assert (Hb : nth_error P (length pre + 1) = Some b).
      { rewrite Hp'. replace (length pre + 1)%nat with (length (pre ++ [a]))
          by (rewrite length_app; reflexivity).
        rewrite nth_error_app2, Nat.sub_diag by lia. reflexivity. }
      assert (Hj : nth_error P ((length pre + 1) mod length P) = Some b).
      { rewrite Nat.mod_small by (rewrite Hlen; cbn [length]; lia). exact Hb. }
      assert (Hwb : within B b) by (apply Hin; apply (nth_error_In _ _ Hb)).
      rewrite (@area_step_int P (length pre) a b acc B Ha Hj Hwa Hwb); [|lia].
      cbn [bind]. rewrite (IH _ Hp').
      * cbn [app chain_sum]. do 2 f_equal. ring.
      * pose proof (@cross_lt _ _ _ Hwa Hwb). cbn [length] in *. lia.
Qed.

Lemma chain_sum_lt (B : Z) (chain : list (Point Z)) :
  forall p0 : Point Z,
    within B p0 -> Forall (within B) chain ->
    Z.abs (chain_sum (p0 :: chain)) <= 2 * Z.of_nat (length chain) * (B * B).
Proof.
  induction chain as [|q chain IH]; intros p0 Hw0 HP'.
  - cbn. lia.
  - inversion HP' as [|q' chain' Hq Hchain]. subst.
    rewrite chain_sum_cons2. specialize (IH q Hq Hchain).
    pose proof (@cross_lt _ _ _ Hw0 Hq). cbn [length]. rewrite Nat2Z.inj_succ.
    assert (0 <= B * B) by nia. lia.
Qed.

Lemma chain_sum_closed_lt (P : list (Point Z)) (B : Z) :
  Forall (within B) P -> Z.abs (chain_sum (closed P)) <= 2 * Z.of_nat (length P) * (B * B).
Proof.
  intros HP. destruct P as [|p0 rest]; [cbn; lia|].
  assert (Hw0 : within B p0) by (inversion HP; assumption).
  cbn [closed]. change ((p0 :: rest) ++ [p0])%list with (p0 :: (rest ++ [p0]))%list.
  assert (HP' : Forall (within B) (rest ++ [p0])).
  { apply Forall_app. split; [inversion HP; assumption|constructor; [exact Hw0|constructor]]. }
  replace (length (p0 :: rest)) with (length (rest ++ [p0]))
    by (rewrite length_app; cbn [length]; lia).
  apply (@chain_sum_lt B _ p0 Hw0 HP').
Qed.

Lemma abs_of_Z (n : Z) :
  Z.abs n < 2 ^ 53 -> PrimFloat.abs (JS.of_Z n) = JS.of_Z (Z.abs n).
Proof.
  intros Hn. apply Prim2SF_inj. rewrite abs_spec.
  rewrite (@JS_of_Z_spec n Hn), (@JS_of_Z_spec (Z.abs n)) by lia.
  destruct n as [|m|m]; [reflexivity| |];
    (destruct (@int_rep_exists m) as [mm [e R]]; [lia|]);
    cbn [Z.abs]; destruct (@SF_of_Z_pos _ _ _ R) as [E1 E2];
    rewrite ?E1, ?E2; reflexivity.
Qed.

(** The area of a polygon with integer coordinates is half the absolute
    value of the integer the sum along its closed chain is. *)
Lemma area_int (P : list (Point Z)) (B : Z) :
  Forall (within B) P ->
  2 * Z.of_nat (length P) * (B * B) < 2 ^ 53 ->
  calculatePolygonArea (map point_of_Z P)
  = Ok (JS.of_Z (Z.abs (chain_sum (closed P))) / 2)%float.
Proof.
  intros HP HB. unfold calculatePolygonArea. rewrite length_map.
  destruct (length P <? 3)%nat eqn:E.
  - apply Nat.ltb_lt in E.
    assert (H0 : chain_sum (closed P) = 0).
    { destruct P as [|a [|b [|c rest]]]; [| | |cbn [length] in E; lia];
        cbn [closed app chain_sum]; unfold cross; ring. }
    rewrite H0. vm_compute. reflexivity.
  - destruct P as [|p0 rest]; [discriminate|].
    pose proof (@area_loop_int (p0 :: rest) p0 B eq_refl HP (p0 :: rest) [] 0 eq_refl) as H.
    cbn [length app] in H. change (Z.abs 0) with 0 in H.
    change (@of_nat float JSNumber 0) with (JS.of_Z 0).
    cbn [length]. rewrite H by (cbn [length] in HB; lia).
    cbn [bind]. rewrite Z.add_0_l.
    change ((p0 :: rest) ++ [p0])%list with (closed (p0 :: rest)).
    rewrite <- abs_of_Z; [reflexivity|].
    pose proof (@chain_sum_closed_lt (p0 :: rest) B HP). lia.
Qed.

(** *** Moves and resizings of integer polygons *)

Lemma move_int (P : list (Point Z)) (a b : Z) :
  Z.abs a < 2 ^ 53 -> Z.abs b < 2 ^ 53 ->
  Forall (within (2 ^ 53)) P ->
  Forall (within (2 ^ 53)) (map (translate a b) P) ->
  moveRegionPoints (map point_of_Z P) (JS.of_Z a) (JS.of_Z b)
  = map point_of_Z (map (translate a b) P).
Proof.
  intros Ha Hb HP HP'. unfold moveRegionPoints. rewrite length_map.
  destruct P as [|p0 rest]; [reflexivity|]. cbn [length Nat.eqb].
  rewrite !map_map. apply map_ext_in. intros p Hp.
  destruct (proj1 (Forall_forall _ _) HP p Hp) as [Hx Hz].
  destruct (proj1 (Forall_forall _ _) HP' (translate a b p) (in_map _ _ _ Hp)) as [Hx' Hz'].
  unfold translate in *. cbn [x z point_of_Z nadd JSNumber] in *.
  rewrite (@JS_of_Z_add (x p) a (JS.of_Z a)), (@JS_of_Z_add (z p) b (JS.of_Z b));
    try lia; try (left; reflexivity).
  reflexivity.
Qed.

Lemma of_Z_pos_not_le (s : Z) : 0 < s < 2 ^ 53 -> PrimFloat.leb (JS.of_Z s) 0 = false.
Proof.
  intros Hs. rewrite FloatAxioms.leb_spec, (@JS_of_Z_spec s) by lia.
  destruct s as [|m|m]; try lia.
  destruct (@int_rep_exists m) as [mm [e R]]; [lia|].
  destruct (@SF_of_Z_pos _ _ _ R) as [-> _]. reflexivity.
Qed.

Lemma resize_int (P : list (Point Z)) (cx cz s : Z) :
  0 < s < 2 ^ 53 ->
  Z.abs cx < 2 ^ 52 -> Z.abs cz < 2 ^ 52 ->
  Forall (within (2 ^ 52)) P ->
  Forall (within (2 ^ 52)) (map (scale_about cx cz s) P) ->
  resizeRegionPoints (map point_of_Z P) (JS.of_Z cx) (JS.of_Z cz) (JS.of_Z s)
  = map point_of_Z (map (scale_about cx cz s) P).
Proof.
  intros Hs Hcx Hcz HP HP'. unfold resizeRegionPoints. rewrite length_map.
  destruct P as [|p0 rest]; [reflexivity|]. cbn [length Nat.eqb orb].
  change (nleb (JS.of_Z s) (of_nat 0)) with (PrimFloat.leb (JS.of_Z s) 0).
  rewrite (@of_Z_pos_not_le _ Hs).
  rewrite !map_map. apply map_ext_in. intros p Hp.
  destruct (proj1 (Forall_forall _ _) HP p Hp) as [Hx Hz].
  destruct (proj1 (Forall_forall _ _) HP' (scale_about cx cz s p) (in_map _ _ _ Hp))
    as [Hx' Hz'].
  unfold scale_about in *. cbn [x z point_of_Z nadd nsub nmul JSNumber] in *. cbv zeta.
  assert (H52 : 2 ^ 52 = 4503599627370496) by reflexivity.
  pose proof two_pow_53 as H53.
  assert (Hcoord : forall v c : Z,
             Z.abs v < 2 ^ 52 -> Z.abs c < 2 ^ 52 -> Z.abs (c + (v - c) * s) < 2 ^ 52 ->
             (JS.of_Z c + (JS.of_Z v - JS.of_Z c) * JS.of_Z s)%float
             = JS.of_Z (c + (v - c) * s)).
  { intros v c Hv Hc Hr.
    rewrite (@JS_of_Z_sub v c (JS.of_Z c)); [|lia..|left; reflexivity].
    destruct (@JS_of_Z_mul (v - c) s) as [_ Hm]; [lia..|].
    rewrite (Hm (proj1 Hs)).
    rewrite (@JS_of_Z_add c ((v - c) * s) _); [reflexivity|lia..|left; reflexivity]. }
  rewrite (Hcoord _ _ Hx Hcx Hx'), (Hcoord _ _ Hz Hcz Hz'). reflexivity.
Qed.

(** *** Comparisons and squares of integers *)

Lemma rep_compare (n1 m1 n2 m2 : positive) (e1 e2 : Z) :
  int_rep n1 m1 e1 -> int_rep n2 m2 e2 ->
  match e1 ?= e2 with
  | Lt => Lt
  | Gt => Gt
  | Eq => Pos.compare_cont Eq m1 m2
  end = (Zpos n1 ?= Zpos n2).
Proof.
  intros [He1 [Hm1 Hd1]] [He2 [Hm2 Hd2]].
  destruct (digits_bounds m1) as [Lo1 Hi1]. rewrite Hd1 in Lo1, Hi1.
  destruct (digits_bounds m2) as [Lo2 Hi2]. rewrite Hd2 in Lo2, Hi2.
  change (2 ^ (53 - 1)) with 4503599627370496 in Lo1, Lo2.
  change (2 ^ 53) with 9007199254740992 in Hi1, Hi2.
  destruct (e1 ?= e2) eqn:E.
  - apply Z.compare_eq in E. subst e2.
    change (Pos.compare_cont Eq m1 m2) with (Zpos m1 ?= Zpos m2).
    rewrite Hm1, Hm2.
    assert (H0 : 0 < 2 ^ (- e1)) by (apply Z.pow_pos_nonneg; lia).
    destruct (Z.compare_spec (Zpos n1) (Zpos n2)) as [E|E|E];
      [apply Z.compare_eq_iff|apply Z.compare_lt_iff|apply Z.compare_gt_iff]; nia.
  - rewrite Z.compare_lt_iff in E. symmetry. apply Z.compare_lt_iff.
    assert (Hp : 2 ^ (- e1) = 2 ^ (- e2) * 2 ^ (e2 - e1))
      by (rewrite <- Z.pow_add_r by lia; f_equal; lia).
    assert (H2 : 2 <= 2 ^ (e2 - e1))
      by (change 2 with (2 ^ 1) at 1; apply Z.pow_le_mono_r; lia).
    assert (H0 : 0 < 2 ^ (- e2)) by (apply Z.pow_pos_nonneg; lia).
    rewrite Hp in Hm1. nia.
  - rewrite Z.compare_gt_iff in E. symmetry. apply Z.compare_gt_iff.
    assert (Hp : 2 ^ (- e2) = 2 ^ (- e1) * 2 ^ (e1 - e2))
      by (rewrite <- Z.pow_add_r by lia; f_equal; lia).
    assert (H2 : 2 <= 2 ^ (e1 - e2))
      by (change 2 with (2 ^ 1) at 1; apply Z.pow_le_mono_r; lia).
    assert (H0 : 0 < 2 ^ (- e1)) by (apply Z.pow_pos_nonneg; lia).
    rewrite Hp in Hm2. nia.
Qed.

(** Doubles of integers compare as the integers do. *)
Lemma SF_of_Z_compare (a b : Z) :
  Z.abs a < 2 ^ 53 -> Z.abs b < 2 ^ 53 ->
  SFcompare (SF_of_Z a) (SF_of_Z b) = Some (a ?= b).
Proof.
  intros Ha Hb.
  destruct a as [|n1|n1]; destruct b as [|n2|n2]; try reflexivity;
    try (destruct (@int_rep_exists n1) as [m1 [e1 R1]]; [lia|];
         destruct (@SF_of_Z_pos _ _ _ R1) as [P1 N1]);
    try (destruct (@int_rep_exists n2) as [m2 [e2 R2]]; [lia|];
         destruct (@SF_of_Z_pos _ _ _ R2) as [P2 N2]);
    rewrite ?P1, ?N1, ?P2, ?N2; try reflexivity.
  - cbn [SFcompare]. rewrite (rep_compare R1 R2). reflexivity.
  - cbn [SFcompare]. f_equal.
    change (Zneg n1 ?= Zneg n2) with (CompOpp (Zpos n1 ?= Zpos n2)).
    rewrite <- (rep_compare R1 R2). destruct (e1 ?= e2); reflexivity.
Qed.

Lemma JS_of_Z_leb (a b : Z) :
  Z.abs a < 2 ^ 53 -> Z.abs b < 2 ^ 53 ->
  PrimFloat.leb (JS.of_Z a) (JS.of_Z b) = (a <=? b).
Proof.
  intros Ha Hb.
  rewrite FloatAxioms.leb_spec, (@JS_of_Z_spec a Ha), (@JS_of_Z_spec b Hb).
  unfold SFleb. rewrite (@SF_of_Z_compare a b Ha Hb). unfold Z.leb.
  destruct (a ?= b); reflexivity.
Qed.

Lemma JS_of_Z_square (a : Z) :
  Z.abs a < 2 ^ 26 -> (JS.of_Z a * JS.of_Z a)%float = JS.of_Z (a * a).
Proof.
  intros Ha. pose proof (@abs_mul_lt a a (2 ^ 26) Ha Ha) as Haa.
  change (2 ^ 26 * 2 ^ 26) with 4503599627370496 in Haa.
  change (2 ^ 26) with 67108864 in Ha. pose proof two_pow_53 as H53.
  destruct (@JS_of_Z_mul a a) as [[H|[H0 _]] _]; [lia..|exact H|].
  assert (a = 0) by nia. subst a. reflexivity.
Qed.

(** *** The theorems on integer polygons *)

Lemma bound_of_point (P : list (Point Z)) (B : Z) (p : Point Z) :
  In p P -> within B p ->
  2 * Z.of_nat (length P) * (B * B) < 2 ^ 53 ->
  0 < B /\ B < 2 ^ 26.
Proof.
  intros Hin [Hx _] HB.
  assert (1 <= Z.of_nat (length P)) by (destruct P; [destruct Hin|cbn [length]; lia]).
  pose proof (Z.abs_nonneg (x p)). rewrite two_pow_53 in HB.
  change (2 ^ 26) with 67108864. split; [lia|nia].
Qed.

Lemma translate_affine (a b : Z) (P : list (Point Z)) :
  map (translate a b) P = map (fun q => mkPoint (1 * x q + a) (1 * z q + b)) P.
Proof.
  apply map_ext. intros q. unfold translate. rewrite !Z.mul_1_l. reflexivity.
Qed.

Lemma scale_about_affine (cx cz s : Z) (P : list (Point Z)) :
  map (scale_about cx cz s) P
  = map (fun q => mkPoint (s * x q + (cx - cx * s)) (s * z q + (cz - cz * s))) P.
Proof.
  apply map_ext. intros q. unfold scale_about. f_equal; ring.
Qed.

Lemma area_moved_int (P : list (Point Z)) (a b B : Z) :
  Forall (within B) P ->
  Forall (within B) (map (translate a b) P) ->
  2 * Z.of_nat (length P) * (B * B) < 2 ^ 53 ->
  calculatePolygonArea (moveRegionPoints (map point_of_Z P) (JS.of_Z a) (JS.of_Z b))
  = Ok (JS.of_Z (Z.abs (chain_sum (closed P))) / 2)%float.
Proof.
  intros HP HP' HB.
  destruct P as [|p0 rest] eqn:EP; [reflexivity|]. rewrite <- EP in *.
  assert (Hin : In p0 P) by (rewrite EP; left; reflexivity).
  pose proof (proj1 (Forall_forall _ _) HP p0 Hin) as Hw.
  pose proof (proj1 (Forall_forall _ _) HP' _ (in_map (translate a b) _ _ Hin)) as Hw'.
  destruct (@bound_of_point P B p0 Hin Hw HB) as [HB0 HB26].
  change (2 ^ 26) with 67108864 in HB26. pose proof two_pow_53 as H53.
  destruct Hw as [Hx Hz]. destruct Hw' as [Hx' Hz']. unfold translate in Hx', Hz'.
  cbn [x z] in Hx', Hz'.
  rewrite (@move_int P a b); [|lia|lia| |].
  - rewrite (@area_int (map (translate a b) P) B HP') by (rewrite length_map; exact HB).
    rewrite translate_affine, chain_sum_closed_affine, !Z.mul_1_l. reflexivity.
  - apply (Forall_impl _ (fun q => @within_le B (2 ^ 53) q ltac:(lia)) HP).
  - apply (Forall_impl _ (fun q => @within_le B (2 ^ 53) q ltac:(lia)) HP').
Qed.

Lemma area_resized_int (P : list (Point Z)) (cx cz s B : Z) :
  0 < s < 2 ^ 53 -> Z.abs cx < 2 ^ 52 -> Z.abs cz < 2 ^ 52 ->
  Forall (within B) P ->
  Forall (within B) (map (scale_about cx cz s) P) ->
  2 * Z.of_nat (length P) * (B * B) < 2 ^ 53 ->
  calculatePolygonArea
    (resizeRegionPoints (map point_of_Z P) (JS.of_Z cx) (JS.of_Z cz) (JS.of_Z s))
  = Ok (JS.of_Z (s * s * Z.abs (chain_sum (closed P))) / 2)%float.
Proof.
  intros Hs Hcx Hcz HP HP' HB.
  destruct P as [|p0 rest] eqn:EP.
  - cbn [closed chain_sum Z.abs]. rewrite Z.mul_0_r. reflexivity.
  - rewrite <- EP in *.
    assert (Hin : In p0 P) by (rewrite EP; left; reflexivity).
    pose proof (proj1 (Forall_forall _ _) HP p0 Hin) as Hw.
    destruct (@bound_of_point P B p0 Hin Hw HB) as [HB0 HB26].
    change (2 ^ 26) with 67108864 in HB26.
    assert (H52 : 2 ^ 52 = 4503599627370496) by reflexivity.
    rewrite (@resize_int P cx cz s Hs Hcx Hcz).
    + rewrite (@area_int (map (scale_about cx cz s) P) B HP')
        by (rewrite length_map; exact HB).
      rewrite scale_about_affine, chain_sum_closed_affine.
      rewrite Z.abs_mul, (Z.abs_eq (s * s)) by nia. reflexivity.
    + apply (Forall_impl _ (fun q => @within_le B (2 ^ 52) q ltac:(lia)) HP).
    + apply (Forall_impl _ (fun q => @within_le B (2 ^ 52) q ltac:(lia)) HP').
Qed.

Ltac bounded := repeat first [apply Forall_nil | apply Forall_cons | split];
                vm_compute; reflexivity.

(** X7. On binary64, for a polygon with integer coordinates of magnitude
    below [B] where [2 n B^2 < 2^53] ([n] the number of points),
    [calculatePolygonArea] computes without rounding: the area is half the
    absolute value of the integer sum of [x_i z_(i+1) - x_(i+1) z_i] around
    the polygon.  It is unchanged by a move with [moveRegionPoints] by an
    integer offset that keeps the coordinates below [B], and by listing the
    points in the opposite order. *)
Theorem calculatePolygonArea_invariant (P : list (Point Z)) (a b B : Z) :
  Forall (within B) P ->
  Forall (within B) (map (translate a b) P) ->
  2 * Z.of_nat (length P) * (B * B) < 2 ^ 53 ->
  let area : Exc float := Ok (JS.of_Z (Z.abs (chain_sum (closed P))) / 2)%float in
  calculatePolygonArea (map point_of_Z P) = area
  /\ calculatePolygonArea
       (moveRegionPoints (map point_of_Z P) (JS.of_Z a) (JS.of_Z b)) = area
  /\ calculatePolygonArea (rev (map point_of_Z P)) = area.
Proof.
  intros HP HP' HB area. unfold area.
  split; [apply (@area_int P B HP HB)|].
  split; [apply (@area_moved_int P a b B HP HP' HB)|].
  rewrite <- map_rev.
  rewrite (@area_int (rev P) B) by (try apply Forall_rev; rewrite ?length_rev; assumption).
  rewrite chain_sum_closed_rev, Z.abs_opp. reflexivity.
Qed.

Lemma calculatePolygonArea_invariant_witness :
  Forall (within 16) triangle
  /\ calculatePolygonArea (map point_of_Z triangle) = Ok 6%float
  /\ calculatePolygonArea
       (moveRegionPoints (map point_of_Z triangle) (JS.of_Z 5) (JS.of_Z (-2))) = Ok 6%float
  /\ calculatePolygonArea (rev (map point_of_Z triangle)) = Ok 6%float.
Proof.
  split; [bounded|].
  apply (@calculatePolygonArea_invariant triangle 5 (-2) 16); bounded.
Defined.

(** X8. On binary64, resizing a polygon with integer coordinates by an
    integer factor [s > 0] about an integer centre multiplies the area
    [calculatePolygonArea] computes by [s * s], whatever the centre, as long
    as the coordinates before and after stay below [B] with
    [2 n B^2 < 2^53]. *)
Theorem resizeRegionPoints_area (P : list (Point Z)) (cx cz s B : Z) :
  0 < s < 2 ^ 53 -> Z.abs cx < 2 ^ 52 -> Z.abs cz < 2 ^ 52 ->
  Forall (within B) P ->
  Forall (within B) (map (scale_about cx cz s) P) ->
  2 * Z.of_nat (length P) * (B * B) < 2 ^ 53 ->
  calculatePolygonArea (map point_of_Z P)
  = Ok (JS.of_Z (Z.abs (chain_sum (closed P))) / 2)%float
  /\ calculatePolygonArea
       (resizeRegionPoints (map point_of_Z P) (JS.of_Z cx) (JS.of_Z cz) (JS.of_Z s))
     = Ok (JS.of_Z (s * s * Z.abs (chain_sum (closed P))) / 2)%float.
Proof.
  intros Hs Hcx Hcz HP HP' HB. split.
  - apply (@area_int P B HP HB).
  - apply (@area_resized_int P cx cz s B Hs Hcx Hcz HP HP' HB).
Qed.

Lemma resizeRegionPoints_area_witness :
  Forall (within 16) (map (scale_about 1 1 2) triangle)
  /\ calculatePolygonArea (map point_of_Z triangle) = Ok 6%float
  /\ calculatePolygonArea
       (resizeRegionPoints (map point_of_Z triangle) (JS.of_Z 1) (JS.of_Z 1) (JS.of_Z 2))
     = Ok 24%float.
Proof.
  split; [bounded|].
  apply (@resizeRegionPoints_area triangle 1 1 2 16); bounded.
Defined.

(** X10. On binary64, for integer coordinates and offsets below 2^51 in
    magnitude, two moves with [moveRegionPoints] are one move by the sum of
    the offsets, and the move by (0, 0) changes nothing. *)
Theorem moveRegionPoints_compose (P : list (Point Z)) (a b c d : Z) :
  Forall (within (2 ^ 51)) P ->
  Z.abs a < 2 ^ 51 -> Z.abs b < 2 ^ 51 -> Z.abs c < 2 ^ 51 -> Z.abs d < 2 ^ 51 ->
  moveRegionPoints (moveRegionPoints (map point_of_Z P) (JS.of_Z a) (JS.of_Z b))
    (JS.of_Z c) (JS.of_Z d)
  = moveRegionPoints (map point_of_Z P) (JS.of_Z a + JS.of_Z c)%float
      (JS.of_Z b + JS.of_Z d)%float
  /\ moveRegionPoints (map point_of_Z P) 0%float 0%float = map point_of_Z P.
Proof.
  intros HP Ha Hb Hc Hd.
  assert (H51 : 2 ^ 51 = 2251799813685248) by reflexivity.
  pose proof two_pow_53 as H53.
  assert (Hin : forall q, In q P -> within (2 ^ 51) q) by (apply Forall_forall; exact HP).
  assert (Hmove : forall u v : Z,
             Z.abs u < 2 ^ 52 -> Z.abs v < 2 ^ 52 ->
             moveRegionPoints (map point_of_Z P) (JS.of_Z u) (JS.of_Z v)
             = map point_of_Z (map (translate u v) P)).
  { intros u v Hu Hv. apply move_int; [lia|lia| |].
    - apply (Forall_impl _ (fun q => @within_le (2 ^ 51) (2 ^ 53) q ltac:(lia)) HP).
    - apply Forall_forall. intros q Hq. apply in_map_iff in Hq.
      destruct Hq as [q0 [<- Hq0]]. destruct (Hin q0 Hq0) as [Hx Hz].
      split; unfold translate; cbn [x z]; lia. }
  split.
  - rewrite (@JS_of_Z_add a c (JS.of_Z c)), (@JS_of_Z_add b d (JS.of_Z d));
      try lia; try (left; reflexivity).
    rewrite !Hmove by lia.
    rewrite (@move_int (map (translate a b) P) c d); [|lia|lia| |].
    + rewrite !map_map. apply map_ext. intros q.
      unfold translate, point_of_Z. cbn [x z]. do 2 f_equal; ring.
    + apply Forall_forall. intros q Hq. apply in_map_iff in Hq.
      destruct Hq as [q0 [<- Hq0]]. destruct (Hin q0 Hq0) as [Hx Hz].
      split; unfold translate; cbn [x z]; lia.
    + apply Forall_forall. intros q Hq. apply in_map_iff in Hq.
      destruct Hq as [q1 [<- Hq1]]. apply in_map_iff in Hq1.
      destruct Hq1 as [q0 [<- Hq0]]. destruct (Hin q0 Hq0) as [Hx Hz].
      split; unfold translate; cbn [x z]; lia.
  - change 0%float with (JS.of_Z 0). rewrite Hmove by lia.
    rewrite <- (map_id P) at 2. rewrite !map_map. apply map_ext. intros q.
    unfold translate. cbn [x z]. rewrite !Z.add_0_r. destruct q; reflexivity.
Qed.

Lemma moveRegionPoints_compose_witness :
  moveRegionPoints (moveRegionPoints (map point_of_Z triangle) (JS.of_Z 5) (JS.of_Z (-2)))
    (JS.of_Z (-7)) (JS.of_Z 1)
  = moveRegionPoints (map point_of_Z triangle) (JS.of_Z 5 + JS.of_Z (-7))%float
      (JS.of_Z (-2) + JS.of_Z 1)%float
  /\ moveRegionPoints (map point_of_Z triangle) 0%float 0%float = map point_of_Z triangle.
Proof.
  apply (@moveRegionPoints_compose triangle 5 (-2) (-7) 1); bounded.
Defined.

(** X12. On binary64, two resizings with [resizeRegionPoints] by integer
    factors [s, t > 0] about the same integer centre are one resizing by the
    product [s * t] as the program computes it, as long as the coordinates of
    the points, of the centre and of the two results are integers below 2^52
    in magnitude. *)
Theorem resizeRegionPoints_compose (P : list (Point Z)) (cx cz s t : Z) :
  0 < s -> 0 < t -> s * t < 2 ^ 53 ->
  Z.abs cx < 2 ^ 52 -> Z.abs cz < 2 ^ 52 ->
  Forall (within (2 ^ 52)) P ->
  Forall (within (2 ^ 52)) (map (scale_about cx cz s) P) ->
  Forall (within (2 ^ 52)) (map (scale_about cx cz (s * t)) P) ->
  resizeRegionPoints
    (resizeRegionPoints (map point_of_Z P) (JS.of_Z cx) (JS.of_Z cz) (JS.of_Z s))
    (JS.of_Z cx) (JS.of_Z cz) (JS.of_Z t)
  = resizeRegionPoints (map point_of_Z P) (JS.of_Z cx) (JS.of_Z cz)
      (JS.of_Z s * JS.of_Z t)%float.
Proof.
  intros Hs Ht Hst Hcx Hcz HP HPs HPst.
  pose proof two_pow_53 as H53.
  assert (Hs53 : s < 2 ^ 53) by nia. assert (Ht53 : t < 2 ^ 53) by nia.
  assert (Hcomp : map (scale_about cx cz t) (map (scale_about cx cz s) P)
                  = map (scale_about cx cz (s * t)) P).
  { rewrite map_map. apply map_ext. intros q. unfold scale_about. cbn [x z].
    f_equal; ring. }
  destruct (@JS_of_Z_mul s t) as [_ Hm]; [lia..|]. rewrite (Hm Ht).
  rewrite (@resize_int P cx cz s), (@resize_int P cx cz (s * t)); try assumption; try lia.
  rewrite (@resize_int (map (scale_about cx cz s) P) cx cz t); try assumption; try lia.
  - rewrite Hcomp. reflexivity.
  - rewrite Hcomp. exact HPst.
Qed.

Lemma resizeRegionPoints_compose_witness :
  Forall (within (2 ^ 52)) (map (scale_about 1 1 (2 * 3)) triangle)
  /\ resizeRegionPoints
       (resizeRegionPoints (map point_of_Z triangle) (JS.of_Z 1) (JS.of_Z 1) (JS.of_Z 2))
       (JS.of_Z 1) (JS.of_Z 1) (JS.of_Z 3)
     = resizeRegionPoints (map point_of_Z triangle) (JS.of_Z 1) (JS.of_Z 1)
         (JS.of_Z 2 * JS.of_Z 3)%float.
Proof.
  split; [bounded|].
  apply (@resizeRegionPoints_compose triangle 1 1 2 3); bounded.
Defined.

(** X14. On binary64 [warpRegionPoints] keeps the number of points, and for
    integer coordinates, centre and radius (coordinates below 2^25 in
    magnitude) it leaves every point at or beyond the radius where it is,
    whatever the strength: the test of the squared distance against the
    squared radius is computed without rounding. *)
Theorem warpRegionPoints_outside_radius (P : list (Point Z)) (cx cz r : Z)
        (strength : float) (i : nat) (p : Point Z) :
  Forall (within (2 ^ 25)) P ->
  Z.abs cx < 2 ^ 25 -> Z.abs cz < 2 ^ 25 -> Z.abs r < 2 ^ 26 ->
  nth_error P i = Some p ->
  let warped := warpRegionPoints_js (map point_of_Z P) (JS.of_Z cx) (JS.of_Z cz)
                  (JS.of_Z r) strength in
  length warped = length P
  /\ (r * r <= (x p - cx) * (x p - cx) + (z p - cz) * (z p - cz) ->
      nth_error warped i = Some (point_of_Z p)).
Proof.
  intros HP Hcx Hcz Hr Hp warped. unfold warped, warpRegionPoints_js, warpRegionPoints.
  destruct ((length (map point_of_Z P) =? 0)%nat
            || nleb (JS.of_Z r) (of_nat 0) || neqb strength (of_nat 0)) eqn:G.
  - split; [apply length_map|]. intros _. rewrite nth_error_map, Hp. reflexivity.
  - split; [rewrite !length_map; reflexivity|]. intros Hout.
    rewrite !nth_error_map, Hp. cbn [option_map]. cbv zeta. f_equal.
    destruct (proj1 (Forall_forall _ _) HP p (nth_error_In _ _ Hp)) as [Hx Hz].
    assert (H25 : 2 ^ 25 = 33554432) by reflexivity.
    assert (H26 : 2 ^ 26 = 67108864) by reflexivity.
    pose proof two_pow_53 as H53.
    cbn [x z point_of_Z nadd nsub nmul nleb JSNumber].
    rewrite (@JS_of_Z_sub (x p) cx (JS.of_Z cx)), (@JS_of_Z_sub (z p) cz (JS.of_Z cz));
      try lia; try (left; reflexivity).
    rewrite !JS_of_Z_square by lia.
    assert (Hdx : Z.abs ((x p - cx) * (x p - cx)) < 2 ^ 26 * 2 ^ 26)
      by (apply abs_mul_lt; lia).
    assert (Hdz : Z.abs ((z p - cz) * (z p - cz)) < 2 ^ 26 * 2 ^ 26)
      by (apply abs_mul_lt; lia).
    assert (Hrr : Z.abs (r * r) < 2 ^ 26 * 2 ^ 26) by (apply abs_mul_lt; lia).
    change (2 ^ 26 * 2 ^ 26) with 4503599627370496 in Hdx, Hdz, Hrr.
    rewrite (@JS_of_Z_add ((x p - cx) * (x p - cx)) ((z p - cz) * (z p - cz)) _);
      try lia; try (left; reflexivity).
    rewrite JS_of_Z_leb by lia.
    rewrite (proj2 (Z.leb_le _ _) Hout). reflexivity.
Qed.

Lemma warpRegionPoints_outside_radius_witness :
  (2 * 2 <= (9 - 0) * (9 - 0) + (9 - 0) * (9 - 0))
  /\ nth_error (warpRegionPoints_js (map point_of_Z [mkPoint 1 0; mkPoint 9 9])
                  (JS.of_Z 0) (JS.of_Z 0) (JS.of_Z 2) 3%float) 1
     = Some (point_of_Z (mkPoint 9 9)).
Proof.
  assert (H : 2 * 2 <= (9 - 0) * (9 - 0) + (9 - 0) * (9 - 0)) by (vm_compute; discriminate).
  split; [exact H|].
  refine (proj2 (@warpRegionPoints_outside_radius [mkPoint 1 0; mkPoint 9 9] 0 0 2 3%float 1
                   (mkPoint 9 9) _ _ _ _ eq_refl) H); bounded.
Defined.

Local Close Scope Z_scope.

(** ** Events and achievements *)

Section EventsAndAchievements.

Let paired (sa : Achievements.state) (se : EventConditions.state) : Prop :=
  Forall2 (fun a e => grants a e /\ same_place a e) (fst sa) (fst se)
  /\ snd sa = snd se.

Lemma paired_emit (a : Achievement) (e : EventCondition)
      (sa : Achievements.state) (se : EventConditions.state) :
  grants a e -> same_place a e -> paired sa se ->
  paired (Achievements.emit a sa) (EventConditions.emit e se).
Proof.
  intros Hg Hs [HF Hn]. split.
  - cbn [Achievements.emit EventConditions.emit fst].
    apply Forall2_app; [exact HF|]. constructor; [split; assumption|constructor].
  - cbn [Achievements.emit EventConditions.emit snd]. rewrite Hn. reflexivity.
Qed.

Lemma paired_village (subregion : Subregion.t)
      (sa : Achievements.state) (se : EventConditions.state) :
  paired sa se ->
  paired (Achievements.village_step sa subregion) (EventConditions.village_step se subregion).
Proof.
  intros H. unfold Achievements.village_step, EventConditions.village_step.
  destruct (String.eqb (Subregion.type subregion) "village"); [|exact H].
  cbv zeta. apply paired_emit; [reflexivity|reflexivity|exact H].
Qed.

Lemma paired_villages (subregions : list Subregion.t) :
  forall sa se,
    paired sa se ->
    paired (fold_left Achievements.village_step subregions sa)
           (fold_left EventConditions.village_step subregions se).
Proof.
  induction subregions as [|s subregions IH]; intros sa se H; [exact H|].
  cbn [fold_left]. apply IH, paired_village, H.
Qed.

Lemma paired_region (worldType : option WorldType) (region : Region.t)
      (sa : Achievements.state) (se : EventConditions.state) :
  paired sa se ->
  paired (Achievements.region_step worldType sa region)
         (EventConditions.region_step worldType se region).
Proof.
  intros H. unfold Achievements.region_step, EventConditions.region_step. cbv zeta.
  destruct (Region.subregions region) as [[|s subregions]|];
    [|apply paired_villages| ];
    (apply paired_emit; [reflexivity|reflexivity|];
     apply paired_emit; [reflexivity|reflexivity|exact H]).
Qed.

Lemma paired_run (worldType : option WorldType) (regions : list Region.t) :
  forall sa se,
    paired sa se ->
    paired (fold_left (Achievements.region_step worldType) regions sa)
           (fold_left (EventConditions.region_step worldType) regions se).
Proof.
  induction regions as [|region regions IH]; intros sa se H; [exact H|].
  cbn [fold_left]. apply IH, paired_region, H.
Qed.

Lemma runs_paired (worldType : option WorldType) (regions : list Region.t) :
  Forall2 (fun a e => grants a e /\ same_place a e)
          (fst (Achievements.run regions worldType))
          (fst (EventConditions.run regions worldType))
  /\ snd (Achievements.run regions worldType) = snd (EventConditions.run regions worldType).
Proof.
  apply (@paired_run worldType regions ([], 0) ([], 0)).
  split; [constructor|reflexivity].
Qed.

End EventsAndAchievements.

(** The event conditions and the achievements are generated in step: the
    two files have their entries in the same order, the i-th event grants
    the i-th achievement and fires in the region the achievement is named
    for, and for a non-empty collection the two exports report the same
    count. *)
Theorem events_grant_the_achievements (regions : list Region.t)
        (worldType : option WorldType) :
  Forall2 (fun a e => grants a e /\ same_place a e)
          (fst (Achievements.run regions worldType))
          (fst (EventConditions.run regions worldType))
  /\ (regions <> [] ->
      exists n,
        toast (generateAchievementsYAML regions worldType)
        = Some ("Generated " ++ Str.of_nat n ++ " achievements", success)%string
        /\ toast (generateEventConditionsYAML regions worldType)
           = Some ("Generated " ++ Str.of_nat n ++ " event conditions", success)%string
        /\ n = 2 * length regions + length (flat_map villages regions)).
Proof.
  destruct (runs_paired worldType regions) as [HF Hn].
  split; [exact HF|].
  intros Hne. unfold generateAchievementsYAML, generateEventConditionsYAML.
  destruct regions as [|r regions]; [contradiction|].
  cbn [length Nat.eqb].
  pose proof (achievements_run worldType (r :: regions) ([], 0)) as H.
  cbv zeta in H. fold (Achievements.run (r :: regions) worldType) in H.
  destruct (Achievements.run (r :: regions) worldType) as [entries count].
  destruct (EventConditions.run (r :: regions) worldType) as [events eventCount].
  cbn [fst snd length] in *. subst eventCount.
  exists count. split; [reflexivity|]. split; [reflexivity|]. lia.
Qed.

(** ** The regions file *)

Section RegionsFile.

Local Open Scope string_scope.

Variable toString_other : float -> string.
Variable includeVillages randomMobSpawn includeHeartRegions : bool.
Variable useModernWorldHeight useGreetingsAndFarewells : bool.
Variable greetingSize : GreetingSize.
Variable includeChallengeLevelSubheading : bool.
Variable randomMobs : nat -> list string.

Let blocks :=
  region_blocks toString_other includeVillages randomMobSpawn includeHeartRegions
    useModernWorldHeight useGreetingsAndFarewells greetingSize
    includeChallengeLevelSubheading randomMobs.

Lemma string_app_assoc (a b c : string) : (a ++ b) ++ c = a ++ b ++ c.
Proof. induction a as [|ch a IH]; cbn [append]; [reflexivity|rewrite IH; reflexivity]. Qed.

Lemma string_app_empty (a : string) : a ++ "" = a.
Proof. induction a as [|ch a IH]; cbn [append]; [reflexivity|rewrite IH; reflexivity]. Qed.

Lemma regions_loop_join (worldType : option WorldType) (regions : list Region.t) :
  forall (index total : nat) (yamlContent : string),
    index + length regions = total ->
    regions_loop toString_other includeVillages randomMobSpawn includeHeartRegions
      useModernWorldHeight useGreetingsAndFarewells greetingSize
      includeChallengeLevelSubheading randomMobs worldType regions index total yamlContent
    = yamlContent ++ Str.join Str.nl (blocks worldType regions index).
Proof.
  induction regions as [|region rest IH]; intros index total yamlContent Hlen.
  - cbn [regions_loop region_blocks Str.join concat]. rewrite string_app_empty. reflexivity.
  - cbn [regions_loop region_blocks]. cbv zeta. cbn [length] in Hlen.
    rewrite (IH (Datatypes.S index) total) by lia.
    destruct rest as [|region' rest].
    + cbn [length] in Hlen.
      replace (index <? total - 1)%nat with false by (symmetry; apply Nat.ltb_ge; lia).
      cbn [region_blocks Str.join concat]. rewrite string_app_empty. reflexivity.
    + cbn [length] in Hlen.
      replace (index <? total - 1)%nat with true by (symmetry; apply Nat.ltb_lt; lia).
      unfold Str.join. cbn [region_blocks concat]. rewrite !string_app_assoc. reflexivity.
Qed.

Let export :=
  exportRegionsYAML toString_other includeVillages randomMobSpawn includeHeartRegions
    useModernWorldHeight useGreetingsAndFarewells greetingSize
    includeChallengeLevelSubheading randomMobs.

Let spawns := spawn_blocks toString_other useModernWorldHeight.

Let panel :=
  handleExportYAML toString_other includeVillages randomMobSpawn includeHeartRegions
    useModernWorldHeight useGreetingsAndFarewells greetingSize
    includeChallengeLevelSubheading randomMobs.

(** What [exportRegionsYAML] does: with no region, and no spawn region
    asked for or in the nether, it reports an error and offers no file;
    otherwise it offers [regions.yml] and reports nothing, and the file is
    the header followed by the blocks, the spawn block first when there is
    one, with one line break between two blocks. *)
Theorem exportRegionsYAML_content (regions : list Region.t) (includeSpawnRegion : bool)
        (spawnCoordinates : option SpawnCoordinates.t) (worldType : option WorldType) :
  export regions includeSpawnRegion spawnCoordinates worldType
  = if (length regions =? 0)%nat && (negb includeSpawnRegion || is_nether worldType)
    then mkExport None (Some ("No regions to export", error))
    else mkExport
           (Some ("regions.yml",
                  "regions:" ++ Str.nl
                    ++ Str.join Str.nl
                         (spawns includeSpawnRegion spawnCoordinates worldType
                            ++ blocks worldType regions 0)))
           None.
Proof.
  unfold export, exportRegionsYAML.
  destruct ((length regions =? 0)%nat && (negb includeSpawnRegion || is_nether worldType));
    [reflexivity|].
  cbv zeta. f_equal. f_equal. f_equal.
  unfold spawns, spawn_blocks.
  destruct spawnCoordinates as [[sx sz [radius|]]|]; cbn [SpawnCoordinates.radius
    SpawnCoordinates.x SpawnCoordinates.z].
  - destruct (includeSpawnRegion && number_truthy (Some radius) && negb (is_nether worldType)).
    + destruct regions as [|region rest].
      * cbn [length Nat.ltb Nat.leb regions_loop app Str.join concat].
        unfold blocks. cbn [region_blocks app concat]. reflexivity.
      * change (0 <? length (region :: rest))%nat with true. cbv iota.
        rewrite regions_loop_join by reflexivity.
        unfold Str.join, blocks. cbn [region_blocks app concat].
        rewrite !string_app_assoc. reflexivity.
    + rewrite regions_loop_join by reflexivity. reflexivity.
  - rewrite andb_false_r. cbn [andb].
    rewrite regions_loop_join by reflexivity. reflexivity.
  - rewrite regions_loop_join by reflexivity. reflexivity.
Qed.

(** With no region, the spawn region asked for outside the nether, and no
    spawn point or no spawn radius set, [exportRegionsYAML] reports
    nothing and offers a file that holds the header line only. *)
Theorem exportRegionsYAML_header_only (includeSpawnRegion : bool)
        (spawnCoordinates : option SpawnCoordinates.t) (worldType : option WorldType) :
  includeSpawnRegion = true ->
  is_nether worldType = false ->
  number_truthy (match spawnCoordinates with
                 | Some coordinates => SpawnCoordinates.radius coordinates
                 | None => None
                 end) = false ->
  export [] includeSpawnRegion spawnCoordinates worldType
  = mkExport (Some ("regions.yml", "regions:" ++ Str.nl)) None.
Proof.
  intros -> Hn Hr. unfold export, exportRegionsYAML. rewrite Hn.
  cbn [length Nat.eqb negb orb andb]. cbv zeta.
  destruct spawnCoordinates as [[sx sz [radius|]]|];
    cbn [SpawnCoordinates.radius] in Hr |- *; [rewrite Hr| |]; reflexivity.
Qed.

(** In the nether the spawn region is never written, so the override of
    [includeSpawnRegion] in the panel's [handleExportYAML] changes
    nothing: the panel exports what [exportRegionsYAML] exports with the
    setting as it is. *)
Theorem handleExportYAML_override_is_redundant (regions : list Region.t)
        (includeSpawnRegion : bool) (coordinates : option (Point float))
        (radius : option float) (worldType : option WorldType) :
  panel regions includeSpawnRegion coordinates radius worldType
  = export regions includeSpawnRegion
      (match coordinates with
       | Some c => Some (SpawnCoordinates.mk (x c) (z c) radius)
       | None => None
       end)
      worldType.
Proof.
  unfold panel, handleExportYAML. cbv zeta.
  destruct (is_nether worldType) eqn:Hn; [|reflexivity].
  unfold export, exportRegionsYAML. rewrite Hn, !orb_true_r.
  destruct ((length regions =? 0)%nat && true); [reflexivity|]. cbv zeta.
  destruct coordinates as [c|]; [|reflexivity].
  cbn [SpawnCoordinates.radius]. destruct radius as [r|]; [|reflexivity].
  cbn [negb]. rewrite !andb_false_r. reflexivity.
Qed.

End RegionsFile.

Lemma exportRegionsYAML_header_only_witness :
  true = true
  /\ is_nether None = false
  /\ number_truthy None = false
  /\ exportRegionsYAML (fun _ => ""%string) true false true true false large false
       (fun _ => []) [] true None None
     = mkExport (Some ("regions.yml", "regions:" ++ Str.nl)%string) None.
Proof.
  split; [reflexivity|]. split; [reflexivity|]. split; [reflexivity|].
  exact (@exportRegionsYAML_header_only (fun _ => ""%string) true false true true false
           large false (fun _ => []) true None None eq_refl eq_refl eq_refl).
Defined.

(** ** The name of a village subregion *)

Section VillageName.

Local Open Scope string_scope.

Variable names : nat -> string.
Variable existingNames : list string.

Lemma regenerate_first_free :
  forall (fuel attempts : nat),
    attempts + fuel = 100 ->
    let name := regenerate names existingNames (names attempts) attempts fuel in
    (exists k, attempts <= k <= 100
               /\ name = names k
               /\ has existingNames name = false
               /\ forall j, attempts <= j < k -> has existingNames (names j) = true)
    \/ (name = names 100
        /\ forall j, attempts <= j <= 100 -> has existingNames (names j) = true).
Proof.
  induction fuel as [|fuel IH]; intros attempts Hsum; cbv zeta.
  - assert (attempts = 100) as -> by lia. cbn [regenerate].
    destruct (has existingNames (names 100)) eqn:E.
    + right. split; [reflexivity|]. intros j Hj.
      assert (j = 100) as -> by lia. exact E.
    + left. exists 100. split; [lia|]. split; [reflexivity|]. split; [first [exact E|reflexivity]|].
      intros j Hj. lia.
  - cbn [regenerate].
    replace (attempts <? 100)%nat with true by (symmetry; apply Nat.ltb_lt; lia).
    rewrite andb_true_r.
    destruct (has existingNames (names attempts)) eqn:E.
    + specialize (IH (S attempts) ltac:(lia)). cbv zeta in IH.
      destruct IH as [[k [Hk [Hname [Hfree Hbefore]]]]|[Hname Hall]].
      * left. exists k. split; [lia|]. split; [exact Hname|]. split; [exact Hfree|].
        intros j Hj. destruct (Nat.eq_dec j attempts) as [->|Hne]; [exact E|].
        apply Hbefore. lia.
      * right. split; [exact Hname|]. intros j Hj.
        destruct (Nat.eq_dec j attempts) as [->|Hne]; [exact E|]. apply Hall. lia.
    + left. exists attempts. split; [lia|]. split; [reflexivity|]. split; [first [exact E|reflexivity]|].
      intros j Hj. lia.
Qed.

Lemma renumber_first_free (baseName : string) :
  forall (fuel counter : nat) (generatedName : string),
    counter + fuel = 1000 ->
    1 <= counter ->
    has existingNames generatedName = true ->
    let name := renumber existingNames baseName generatedName counter fuel in
    (exists c, counter <= c <= 999
               /\ name = baseName ++ " " ++ Str.of_nat c
               /\ has existingNames name = false
               /\ forall j, counter <= j < c
                             -> has existingNames (baseName ++ " " ++ Str.of_nat j) = true)
    \/ (has existingNames name = true
        /\ forall j, counter <= j <= 999
                      -> has existingNames (baseName ++ " " ++ Str.of_nat j) = true).
Proof.
  induction fuel as [|fuel IH]; intros counter generatedName Hsum Hc Hg; cbv zeta.
  - cbn [renumber]. right. split; [exact Hg|]. intros j Hj. lia.
  - cbn [renumber]. rewrite Hg.
    replace (counter <? 1000)%nat with true by (symmetry; apply Nat.ltb_lt; lia).
    cbn [andb].
    destruct (has existingNames (baseName ++ " " ++ Str.of_nat counter)) eqn:E.
    + specialize (IH (S counter) (baseName ++ " " ++ Str.of_nat counter)
                     ltac:(lia) ltac:(lia) E).
      cbv zeta in IH.
      destruct IH as [[c [Hcc [Hname [Hfree Hbefore]]]]|[Htaken Hall]].
      * left. exists c. split; [lia|]. split; [exact Hname|]. split; [exact Hfree|].
        intros j Hj. destruct (Nat.eq_dec j counter) as [->|Hne]; [exact E|].
        apply Hbefore. lia.
      * right. split; [exact Htaken|]. intros j Hj.
        destruct (Nat.eq_dec j counter) as [->|Hne]; [exact E|]. apply Hall. lia.
    + left. exists counter. split; [lia|]. split.
      * destruct fuel; cbn [renumber]; rewrite ?E; reflexivity.
      * split.
        -- destruct fuel; cbn [renumber]; rewrite ?E; cbn [andb]; first [exact E|reflexivity].
        -- intros j Hj. lia.
Qed.

End VillageName.

(** The name [createVillageSubregion] gives is the first free one among
    the candidates it tries: the up to 101 generated names in the order of
    generation, then the last of them followed by 1, 2, ... up to 999.  The
    name is one of [existingNames] only when all of these are. *)
Theorem createVillageSubregion_first_free_name
        (toString_other : float -> string) (names : nat -> string)
        (village : VillageData.t) (index : float) (parentRegionId : option string)
        (existingNames : list string) :
  let name :=
    Subregion.name
      (createVillageSubregion toString_other names village index parentRegionId
         existingNames) in
  let numbered c := (names 100 ++ " " ++ Str.of_nat c)%string in
  (exists k, k <= 100
             /\ name = names k
             /\ has existingNames name = false
             /\ forall j, j < k -> has existingNames (names j) = true)
  \/ (exists c, 1 <= c <= 999
                /\ name = numbered c
                /\ has existingNames name = false
                /\ (forall j, j <= 100 -> has existingNames (names j) = true)
                /\ forall j, 1 <= j < c -> has existingNames (numbered j) = true)
  \/ (has existingNames name = true
      /\ (forall j, j <= 100 -> has existingNames (names j) = true)
      /\ forall j, 1 <= j <= 999 -> has existingNames (numbered j) = true).
Proof.
  cbv zeta. unfold createVillageSubregion. cbn [Subregion.name].
  destruct (@regenerate_first_free names existingNames 100 0 eq_refl)
    as [[k [Hk [Hname [Hfree Hbefore]]]]|[Hname Hall]].
  - left. rewrite Hfree. exists k. split; [lia|]. split; [exact Hname|].
    split; [exact Hfree|]. intros j Hj. apply Hbefore. lia.
  - right.
    assert (Hall' : forall j, j <= 100 -> has existingNames (names j) = true)
      by (intros j Hj; apply Hall; lia).
    assert (Htaken : has existingNames (regenerate names existingNames (names 0) 0 100) = true)
      by (rewrite Hname; apply Hall'; lia).
    rewrite Htaken.
    destruct (@renumber_first_free existingNames
                (regenerate names existingNames (names 0) 0 100) 999 1
                (regenerate names existingNames (names 0) 0 100) eq_refl (le_n 1) Htaken)
      as [[c [Hc [Hn [Hfree Hbefore]]]]|[Ht Hnum]].
    + left. exists c. rewrite <- Hname. split; [exact Hc|]. split; [exact Hn|].
      split; [exact Hfree|]. split; [exact Hall'|exact Hbefore].
    + right. rewrite <- Hname. split; [exact Ht|]. split; [exact Hall'|exact Hnum].
Qed.

(** ** More on the import *)

Lemma lookup_assign_other (key key' : string) (v : json) (fields : list (string * json)) :
  key' <> key ->
  Json.lookup key' (Json.assign key v fields) = Json.lookup key' fields.
Proof.
  intros Hne. induction fields as [|[k w] fields IH]; cbn [Json.assign Json.lookup].
  - destruct (String.eqb key key') eqn:E; [|reflexivity].
    apply String.eqb_eq in E. congruence.
  - destruct (String.eqb k key) eqn:E; cbn [Json.lookup].
    + destruct (String.eqb k key') eqn:E'; [|reflexivity].
      apply String.eqb_eq in E, E'. congruence.
    + rewrite IH. reflexivity.
Qed.

Lemma importMapData_parsed_resolved (data data' : json) :
  importMapData_parsed data = Resolved data' ->
  exists fields,
    data = JObject fields
    /\ Json.truthy (Json.lookup "version" fields)
       && Json.truthy (Json.lookup "regions" fields)
       && Json.truthy (Json.lookup "mapState" fields) = true
    /\ data' = JObject (if Json.truthy (Json.lookup "worldName" fields) then fields
                        else Json.assign "worldName" (JString "world") fields).
Proof.
  intros H.
  destruct (Json.truthy (Json.field data "version")
            && Json.truthy (Json.field data "regions")
            && Json.truthy (Json.field data "mapState")) eqn:E.
  - destruct data as [| b | n | s | items | fields]; try discriminate E.
    exists fields. cbn [Json.field] in E. split; [reflexivity|]. split; [exact E|].
    rewrite (importMapData_parsed_accepts fields E) in H. congruence.
  - rewrite (importMapData_parsed_rejects data E) in H. discriminate.
Qed.

(** What an accepted import returns is a fixed point of the import: it
    has a truthy [worldName], every other key reads as it did in the
    document, and importing it again returns it unchanged.  A document
    that already had a truthy [worldName] is returned as it is. *)
Theorem importMapData_settles (data data' : json) :
  importMapData_parsed data = Resolved data' ->
  importMapData_parsed data' = Resolved data'
  /\ Json.truthy (Json.field data' "worldName") = true
  /\ (forall key, key <> "worldName"%string -> Json.field data' key = Json.field data key)
  /\ (Json.truthy (Json.field data "worldName") = true -> data' = data).
Proof.
  intros H. destruct (@importMapData_parsed_resolved _ _ H) as [fields [-> [Hok ->]]].
  cbn [Json.field].
  destruct (Json.truthy (Json.lookup "worldName" fields)) eqn:Hw.
  - split; [exact H|]. split; [exact Hw|]. split; [reflexivity|reflexivity].
  - assert (Hw' : Json.lookup "worldName" (Json.assign "worldName" (JString "world") fields)
                  = Some (JString "world")) by apply lookup_assign.
    split; [|split; [|split]].
    + rewrite importMapData_parsed_accepts.
      * rewrite Hw'. reflexivity.
      * rewrite !lookup_assign_other by discriminate. exact Hok.
    + cbn [Json.field]. rewrite Hw'. reflexivity.
    + intros key Hkey. cbn [Json.field]. apply lookup_assign_other. exact Hkey.
    + discriminate.
Qed.

Lemma importMapData_settles_witness :
  importMapData_parsed looseDocument
  = Resolved (JObject [("version", JString "1.0.0"); ("regions", JString "none");
                       ("mapState", JNumber 1); ("worldName", JString "world")]%string)
  /\ importMapData_parsed
       (JObject [("version", JString "1.0.0"); ("regions", JString "none");
                 ("mapState", JNumber 1); ("worldName", JString "world")]%string)
     = Resolved (JObject [("version", JString "1.0.0"); ("regions", JString "none");
                          ("mapState", JNumber 1); ("worldName", JString "world")]%string).
Proof.
  assert (H : importMapData_parsed looseDocument
              = Resolved (JObject [("version", JString "1.0.0"); ("regions", JString "none");
                                   ("mapState", JNumber 1);
                                   ("worldName", JString "world")]%string))
    by (vm_compute; reflexivity).
  split; [exact H|].
  exact (proj1 (@importMapData_settles _ _ H)).
Defined.

(** A document that [validateImportData] accepts is rejected by
    [importMapData] in exactly one case: its [version] is the empty
    string. *)
Theorem validateImportData_then_import (data : json) :
  validateImportData data = true ->
  (importMapData_parsed data = Rejected "Failed to parse import file"
   <-> Json.field data "version" = Some (JString ""))
  /\ (Json.field data "version" <> Some (JString "")
      -> exists data', importMapData_parsed data = Resolved data').
Proof.
  intros Hv. unfold validateImportData in Hv.
  repeat (apply andb_prop in Hv; let H := fresh "Hv" in destruct Hv as [Hv H]).
  destruct data as [| b | n | s | items | fields]; try discriminate.
  cbn [Json.field] in *.
  assert (Hregions : Json.truthy (Json.lookup "regions" fields) = true).
  { destruct (Json.lookup "regions" fields) as [[| | | | |]|]; try discriminate; reflexivity. }
  assert (HmapState : Json.truthy (Json.lookup "mapState" fields) = true).
  { destruct (Json.lookup "mapState" fields) as [[| | | | |]|]; try discriminate; reflexivity. }
  destruct (Json.lookup "version" fields) as [[| | | version | |]|] eqn:Hversion;
    try discriminate.
  destruct (String.eqb version "") eqn:Ee.
  - apply String.eqb_eq in Ee. subst version. split.
    + split; [reflexivity|]. intros _.
      apply importMapData_parsed_rejects. cbn [Json.field]. rewrite Hversion. reflexivity.
    + intros Hne. congruence.
  - assert (Hok : Json.truthy (Json.lookup "version" fields)
                  && Json.truthy (Json.lookup "regions" fields)
                  && Json.truthy (Json.lookup "mapState" fields) = true).
    { rewrite Hversion, Hregions, HmapState. cbn [Json.truthy]. rewrite Ee. reflexivity. }
    split.
    + split.
      * intros Hr. rewrite (importMapData_parsed_accepts fields Hok) in Hr. discriminate.
      * intros Heq. injection Heq as ->. rewrite String.eqb_refl in Ee. discriminate.
    + intros _. eexists. apply (importMapData_parsed_accepts fields Hok).
Qed.

Lemma validateImportData_then_import_witness :
  validateImportData
    (JObject [("version", JString ""); ("regions", JArray []); ("mapState", JObject []);
              ("exportDate", JString "2024-01-01")]%string) = true
  /\ importMapData_parsed
       (JObject [("version", JString ""); ("regions", JArray []); ("mapState", JObject []);
                 ("exportDate", JString "2024-01-01")]%string)
     = Rejected "Failed to parse import file".
Proof.
  assert (H : validateImportData
                (JObject [("version", JString ""); ("regions", JArray []);
                          ("mapState", JObject []);
                          ("exportDate", JString "2024-01-01")]%string) = true)
    by reflexivity.
  split; [exact H|].
  exact (proj2 (proj1 (@validateImportData_then_import _ H)) eq_refl).
Defined.

(** ** Keys without white space *)

Lemma ascii_only_app (a b : string) :
  ascii_only (a ++ b) = ascii_only a && ascii_only b.
Proof.
  induction a as [|c a IH]; cbn [append ascii_only]; [reflexivity|].
  rewrite IH, andb_assoc. reflexivity.
Qed.

Lemma no_space_app (a b : string) :
  no_space (a ++ b) = no_space a && no_space b.
Proof.
  induction a as [|c a IH]; cbn [append no_space]; [reflexivity|].
  rewrite IH, andb_assoc. reflexivity.
Qed.

Lemma clean_key_app (a b : string) :
  clean_key a = true -> clean_key b = true -> clean_key (a ++ b) = true.
Proof.
  unfold clean_key. rewrite ascii_only_app, no_space_app.
  intros Ha Hb. apply andb_prop in Ha, Hb. destruct Ha as [-> ->], Hb as [-> ->].
  reflexivity.
Qed.

Lemma lower_ascii (c : ascii) :
  (nat_of_ascii (Str.lower c) <? 128)%nat = (nat_of_ascii c <? 128)%nat.
Proof. destruct c as [[] [] [] [] [] [] [] []]; vm_compute; reflexivity. Qed.

Lemma ascii_only_lower (s : string) : ascii_only (Str.toLowerCase s) = ascii_only s.
Proof.
  unfold Str.toLowerCase. induction s as [|c s IH]; cbn [Str.map_chars ascii_only].
  - reflexivity.
  - rewrite lower_ascii, IH. reflexivity.
Qed.

Lemma clean_key_replace (rep : string) :
  clean_key rep = true ->
  forall (s : string) (in_run : bool),
    ascii_only s = true -> clean_key (Str.replace_spaces_from rep in_run s) = true.
Proof.
  intros Hrep. induction s as [|c s IH]; intros in_run Hs; cbn [Str.replace_spaces_from].
  - reflexivity.
  - cbn [ascii_only] in Hs. apply andb_prop in Hs. destruct Hs as [Hc Hs].
    destruct (Str.is_space c) eqn:E.
    + destruct in_run; [apply IH, Hs|]. apply clean_key_app; [exact Hrep|apply IH, Hs].
    + unfold clean_key. cbn [ascii_only no_space]. rewrite Hc, E. apply (IH false Hs).
Qed.

Lemma clean_key_of_name (rep name : string) :
  clean_key rep = true -> ascii_only name = true ->
  clean_key (Str.replace_spaces rep name) = true
  /\ clean_key (Str.replace_spaces rep (Str.toLowerCase name)) = true.
Proof.
  intros Hrep Hname. unfold Str.replace_spaces. split.
  - apply (@clean_key_replace rep Hrep name false Hname).
  - apply (@clean_key_replace rep Hrep). rewrite ascii_only_lower. exact Hname.
Qed.

Lemma fold_left_Forall {A B : Type} (P : A -> Prop) (Q : B -> Prop)
      (step : list A * nat -> B -> list A * nat) :
  (forall st b, Q b -> Forall P (fst st) -> Forall P (fst (step st b))) ->
  forall (l : list B) (st : list A * nat),
    Forall Q l -> Forall P (fst st) -> Forall P (fst (fold_left step l st)).
Proof.
  intros Hstep. induction l as [|b l IH]; intros st Hl H; [exact H|].
  cbn [fold_left]. inversion Hl as [|b' l' Hb Hl']. subst.
  apply IH; [exact Hl'|]. apply Hstep; assumption.
Qed.

Lemma Forall_snoc {A : Type} (P : A -> Prop) (l : list A) (a : A) :
  Forall P l -> P a -> Forall P (l ++ [a]).
Proof.
  intros Hl Ha. apply Forall_app. split; [exact Hl|]. constructor; [exact Ha|constructor].
Qed.

Ltac clean_keys name Hname :=
  cbn [achievementKey Name eventKey condition_region];
  destruct (@clean_key_of_name ""%string name eq_refl Hname) as [? ?];
  destruct (@clean_key_of_name "_"%string name eq_refl Hname) as [? ?];
  split; repeat (apply clean_key_app; [try reflexivity|]); try assumption; reflexivity.

(** For regions and villages with ASCII names, where [Str.toLowerCase]
    and [Str.replace_spaces] are the functions of JavaScript, no key the
    achievements file and the event conditions file are built on holds
    white space: the keys of the entries, the names of the achievements
    and the regions the events test are ASCII strings without a blank. *)
Theorem export_keys_have_no_white_space (regions : list Region.t)
        (worldType : option WorldType) :
  Forall ascii_names regions ->
  Forall (fun a => clean_key (achievementKey a) = true /\ clean_key (Name a) = true)
         (fst (Achievements.run regions worldType))
  /\ Forall (fun e => clean_key (eventKey e) = true /\ clean_key (condition_region e) = true)
            (fst (EventConditions.run regions worldType)).
Proof.
  intros Hnames. split.
  - unfold Achievements.run.
    apply (@fold_left_Forall _ _ _ ascii_names); [|exact Hnames|constructor].
    intros st region [Hname Hsub] Hst. unfold Achievements.region_step. cbv zeta.
    match goal with
    | |- context [Achievements.emit ?a2 (Achievements.emit ?a1 st)] =>
        assert (H2 : Forall (fun a => clean_key (achievementKey a) = true
                                      /\ clean_key (Name a) = true)
                            (fst (Achievements.emit a2 (Achievements.emit a1 st))))
    end.
    { cbn [Achievements.emit fst].
      apply Forall_snoc; [apply Forall_snoc; [exact Hst|]|];
        clean_keys (Region.name region) Hname. }
    destruct (Region.subregions region) as [[|s subregions]|]; [exact H2| |exact H2].
    apply (@fold_left_Forall _ _ _ (fun v => ascii_only (Subregion.name v) = true));
      [|exact (Hsub _ eq_refl)|exact H2].
    intros st' subregion Hv Hst'. unfold Achievements.village_step.
    destruct (String.eqb (Subregion.type subregion) "village"); [|exact Hst'].
    cbv zeta. cbn [Achievements.emit fst].
    apply Forall_snoc; [exact Hst'|]. clean_keys (Subregion.name subregion) Hv.
  - unfold EventConditions.run.
    apply (@fold_left_Forall _ _ _ ascii_names); [|exact Hnames|constructor].
    intros st region [Hname Hsub] Hst. unfold EventConditions.region_step. cbv zeta.
    match goal with
    | |- context [EventConditions.emit ?e2 (EventConditions.emit ?e1 st)] =>
        assert (H2 : Forall (fun e => clean_key (eventKey e) = true
                                      /\ clean_key (condition_region e) = true)
                            (fst (EventConditions.emit e2 (EventConditions.emit e1 st))))
    end.
    { cbn [EventConditions.emit fst].
      apply Forall_snoc; [apply Forall_snoc; [exact Hst|]|];
        clean_keys (Region.name region) Hname. }
    destruct (Region.subregions region) as [[|s subregions]|]; [exact H2| |exact H2].
    apply (@fold_left_Forall _ _ _ (fun v => ascii_only (Subregion.name v) = true));
      [|exact (Hsub _ eq_refl)|exact H2].
    intros st' subregion Hv Hst'. unfold EventConditions.village_step.
    destruct (String.eqb (Subregion.type subregion) "village"); [|exact Hst'].
    cbv zeta. cbn [EventConditions.emit fst].
    apply Forall_snoc; [exact Hst'|]. clean_keys (Subregion.name subregion) Hv.
Qed.

Lemma export_keys_have_no_white_space_witness :
  Forall ascii_names twoRegions
  /\ Forall (fun a => clean_key (achievementKey a) = true /\ clean_key (Name a) = true)
            (fst (Achievements.run twoRegions None))
  /\ Forall (fun e => clean_key (eventKey e) = true /\ clean_key (condition_region e) = true)
            (fst (EventConditions.run twoRegions None)).
Proof.
  assert (H : Forall ascii_names twoRegions).
  { repeat constructor; cbn; try reflexivity; intros subregions E;
      inversion E; repeat constructor. }
  split; [exact H|].
  exact (@export_keys_have_no_white_space twoRegions None H).
Defined.

(** ** The number of LevelledMobs rules *)

Lemma village_keys_inner (subregions : list Subregion.t) :
  forall villageRegions : list string,
    fold_left
      (fun villageRegions subregion =>
         if String.eqb (Subregion.type subregion) "village"
         then (villageRegions
                 ++ [Str.replace_spaces "_" (Str.toLowerCase (Subregion.name subregion))])%list
         else villageRegions)
      subregions villageRegions
    = villageRegions
        ++ map (fun subregion =>
                  Str.replace_spaces "_" (Str.toLowerCase (Subregion.name subregion)))
               (filter is_village subregions).
Proof.
  induction subregions as [|s subregions IH]; intros acc; cbn [fold_left filter map].
  - rewrite app_nil_r. reflexivity.
  - rewrite IH. unfold is_village at 2.
    destruct (String.eqb (Subregion.type s) "village"); [|reflexivity].
    cbn [map]. rewrite <- app_assoc. reflexivity.
Qed.

Lemma village_keys_outer (regions : list Region.t) :
  forall villageRegions : list string,
    fold_left
      (fun villageRegions region =>
         match Region.subregions region with
         | Some subregions =>
             fold_left
               (fun villageRegions subregion =>
                  if String.eqb (Subregion.type subregion) "village"
                  then (villageRegions
                          ++ [Str.replace_spaces "_"
                                (Str.toLowerCase (Subregion.name subregion))])%list
                  else villageRegions)
               subregions villageRegions
         | None => villageRegions
         end)
      regions villageRegions
    = villageRegions
        ++ map (fun subregion =>
                  Str.replace_spaces "_" (Str.toLowerCase (Subregion.name subregion)))
               (flat_map villages regions).
Proof.
  induction regions as [|region regions IH]; intros acc; cbn [fold_left flat_map].
  - rewrite app_nil_r. reflexivity.
  - rewrite IH. unfold villages at 2.
    destruct (Region.subregions region) as [subregions|].
    + rewrite village_keys_inner, map_app, app_assoc. reflexivity.
    + reflexivity.
Qed.

Lemma fixed_rules_count (regions : list Region.t) (hasSpawnCoordinates : bool) :
  snd (LevelledMobs.fixed_rules regions hasSpawnCoordinates)
  = (if hasSpawnCoordinates then 1 else 0)
    + (match regions with [] => 0 | _ => 1 end)
    + (match flat_map villages regions with [] => 0 | _ => 1 end).
Proof.
  unfold LevelledMobs.fixed_rules. cbv zeta.
  rewrite village_keys_outer, length_map. cbn [app]. rewrite length_map.
  generalize (flat_map villages regions). intros vs.
  destruct hasSpawnCoordinates, regions as [|region regions], vs as [|v vs];
    reflexivity.
Qed.

(** When there is something to generate rules for, the count the
    LevelledMobs export reports is one for the spawn rule if a spawn point
    is set, one for the heart rule if there is a region, one for the
    village rule if there is a village, and one for each region with a
    challenge level. *)
Theorem generateLevelledMobsRulesYAML_count (regions : list Region.t) (worldName : string)
        (hasSpawnCoordinates : bool) (worldType : option WorldType) (now : string) :
  (length regions =? 0)%nat && negb hasSpawnCoordinates = false ->
  toast (generateLevelledMobsRulesYAML regions worldName hasSpawnCoordinates worldType now)
  = Some ("Generated "
            ++ Str.of_nat ((if hasSpawnCoordinates then 1 else 0)
                           + (match regions with [] => 0 | _ => 1 end)
                           + (match flat_map villages regions with [] => 0 | _ => 1 end)
                           + length (filter has_level regions))
            ++ " LevelledMobs rules", success)%string.
Proof.
  intros Hguard. unfold generateLevelledMobsRulesYAML. rewrite Hguard.
  pose proof (fixed_rules_count regions hasSpawnCoordinates) as Hfixed.
  destruct (LevelledMobs.fixed_rules regions hasSpawnCoordinates) as [fixed n].
  cbn [snd] in Hfixed. unfold LevelledMobs.challenge_rules.
  rewrite challenge_rules_fold. cbn [fst snd toast]. rewrite Hfixed. reflexivity.
Qed.

Lemma generateLevelledMobsRulesYAML_count_witness :
  (length twoRegions =? 0)%nat && negb true = false
  /\ toast (generateLevelledMobsRulesYAML twoRegions "world" true None "now")
     = Some ("Generated 4 LevelledMobs rules", success)%string.
Proof.
  assert (H : (length twoRegions =? 0)%nat && negb true = false) by reflexivity.
  split; [exact H|].
  exact (@generateLevelledMobsRulesYAML_count twoRegions "world" true None "now" H).
Defined.

(** ** The active tab *)

Lemma getItem_removeItem (key key' : string) (storage : Storage.t) :
  Storage.getItem key (Storage.removeItem key' storage)
  = if String.eqb key' key then None else Storage.getItem key storage.
Proof.
  induction storage as [|[k v] storage IH]; cbn [Storage.removeItem filter Storage.getItem fst].
  - destruct (String.eqb key' key); reflexivity.
  - fold (Storage.removeItem key' storage).
    destruct (String.eqb k key') eqn:E; cbn [negb].
    + rewrite IH. apply String.eqb_eq in E. subst k.
      destruct (String.eqb key' key); reflexivity.
    + cbn [Storage.getItem]. rewrite IH.
      destruct (String.eqb k key) eqn:E'; [|reflexivity].
      apply String.eqb_eq in E'. subst k. rewrite String.eqb_sym, E. reflexivity.
Qed.

(** [loadActiveTab] returns one of the four tabs whatever the storage
    holds; it returns the tab [saveActiveTab] has stored when that is one
    of the four, items under other keys do not matter, and after
    [clearSavedData] it returns the default, "map". *)
Theorem loadActiveTab_valid (storage : Storage.t) :
  In (loadActiveTab storage) ["map"; "regions"; "export"; "advanced"]%string
  /\ (forall tab,
        In tab ["map"; "regions"; "export"; "advanced"]%string ->
        loadActiveTab (saveActiveTab true tab storage) = tab)
  /\ (forall tab, loadActiveTab (saveActiveTab false tab storage) = loadActiveTab storage)
  /\ (forall key value,
        key <> ACTIVE_TAB ->
        loadActiveTab (Storage.setItem key value storage) = loadActiveTab storage)
  /\ loadActiveTab (clearSavedData storage) = "map"%string.
Proof.
  split; [|split; [|split; [|split]]].
  - unfold loadActiveTab.
    destruct (Storage.getItem ACTIVE_TAB storage) as [saved|]; [|left; reflexivity].
    destruct (negb (String.eqb saved "")
              && existsb (String.eqb saved) ["map"; "regions"; "export"; "advanced"]%string)
      eqn:E; [|left; reflexivity].
    apply andb_prop in E. destruct E as [_ E].
    apply existsb_exists in E. destruct E as [tab [Hin Heq]].
    apply String.eqb_eq in Heq. subst tab. exact Hin.
  - intros tab Hin. cbn [In] in Hin.
    destruct Hin as [<-|[<-|[<-|[<-|[]]]]]; reflexivity.
  - reflexivity.
  - intros key value Hkey. unfold loadActiveTab, Storage.setItem. cbn [Storage.getItem].
    destruct (String.eqb key ACTIVE_TAB) eqn:E; [|reflexivity].
    apply String.eqb_eq in E. contradiction.
  - unfold loadActiveTab, clearSavedData, STORAGE_KEYS. cbn [fold_left].
    rewrite !getItem_removeItem. reflexivity.
Qed.

(** ** What the region block does not depend on *)

(** Without greetings and farewells the text [generateRegionYAML] writes
    for a region depends neither on the world type, nor on the greeting
    size, nor on the subheading option, nor on the challenge level of the
    region (nor on its id and spawn flag). *)
Theorem generateRegionYAML_without_greetings
        (toString_other : float -> string) (region region' : Region.t)
        (includeVillages randomMobSpawn includeHeartRegions : bool)
        (worldType worldType' : option WorldType) (useModernWorldHeight : bool)
        (greetingSize greetingSize' : GreetingSize)
        (includeChallengeLevelSubheading includeChallengeLevelSubheading' : bool)
        (randomMobs : list string) :
  Region.name region' = Region.name region ->
  Region.points region' = Region.points region ->
  Region.centerPoint region' = Region.centerPoint region ->
  Region.subregions region' = Region.subregions region ->
  generateRegionYAML toString_other region' includeVillages randomMobSpawn
    includeHeartRegions worldType' useModernWorldHeight false greetingSize'
    includeChallengeLevelSubheading' randomMobs
  = generateRegionYAML toString_other region includeVillages randomMobSpawn
      includeHeartRegions worldType useModernWorldHeight false greetingSize
      includeChallengeLevelSubheading randomMobs.
Proof.
  intros Hname Hpoints Hcenter Hsub.
  unfold generateRegionYAML, calculateRegionCenter.
  rewrite Hname, Hpoints, Hcenter, Hsub. cbv zeta. cbn [andb].
  destruct (Region.subregions region) as [[|s subregions]|]; reflexivity.
Qed.

Lemma generateRegionYAML_without_greetings_witness :
  Region.name (TestVale "b" (Some Gold) (Some true)) = Region.name (TestVale "a" None None)
  /\ generateRegionYAML (fun _ => ""%string) (TestVale "b" (Some Gold) (Some true))
       true false true (Some nether) true false small true []
     = generateRegionYAML (fun _ => ""%string) (TestVale "a" None None)
         true false true None true false large false [].
Proof.
  split; [reflexivity|].
  exact (@generateRegionYAML_without_greetings (fun _ => ""%string)
           (TestVale "a" None None) (TestVale "b" (Some Gold) (Some true))
           true false true None (Some nether) true large small false true []
           eq_refl eq_refl eq_refl eq_refl).
Defined.

(** The subheading option of [generateRegionYAML] has an effect only with
    the large greeting size: with another size the text is the same with
    the option on and off. *)
Theorem generateRegionYAML_subheading_needs_large
        (toString_other : float -> string) (region : Region.t)
        (includeVillages randomMobSpawn includeHeartRegions : bool)
        (worldType : option WorldType)
        (useModernWorldHeight useGreetingsAndFarewells : bool)
        (greetingSize : GreetingSize) (randomMobs : list string) :
  greetingSize <> large ->
  generateRegionYAML toString_other region includeVillages randomMobSpawn
    includeHeartRegions worldType useModernWorldHeight useGreetingsAndFarewells
    greetingSize true randomMobs
  = generateRegionYAML toString_other region includeVillages randomMobSpawn
      includeHeartRegions worldType useModernWorldHeight useGreetingsAndFarewells
      greetingSize false randomMobs.
Proof.
  intros Hsize. unfold generateRegionYAML.
  assert (Hl : is_large greetingSize = false)
    by (destruct greetingSize; [contradiction|reflexivity|reflexivity]).
  rewrite Hl. reflexivity.
Qed.

Lemma generateRegionYAML_subheading_needs_large_witness :
  small <> large
  /\ generateRegionYAML (fun _ => ""%string) (TestVale "a" (Some Gold) None)
       true false true None true true small true []
     = generateRegionYAML (fun _ => ""%string) (TestVale "a" (Some Gold) None)
         true false true None true true small false [].
Proof.
  assert (H : small <> large) by discriminate.
  split; [exact H|].
  exact (@generateRegionYAML_subheading_needs_large (fun _ => ""%string)
           (TestVale "a" (Some Gold) None) true false true None true true small [] H).
Defined.

